(** * VISTA: iterative point-prompt validation of a SAM2 video predictor

    A shallow embedding of
    [vista3d/scripts/validation/val_multigpu_sam2_point_iterative.py]:
    seed selection ([get_points_from_label]), error-driven correction
    ([get_points_from_false_pred]), the refinement loop of [run] and the
    bookkeeping of the metric tensor.

    Conventions of the embedding.
    - A tensor of rank k is a k-fold nested list; the outermost list is
      axis 0.  Index tensors (the rows of [torch.nonzero]) are lists of [Z].
    - Python exceptions are the [Raise] results of the [result] monad.
    - [torch.float] values are [f32]: either [NaN] or the rational number the
      float denotes.  Comparisons and maxima are exact on floats, so this is
      all the metric bookkeeping needs; infinities never occur in a Dice
      score and are left out.  The float arithmetic of the seed selection
      (mean, squared distance) is carried out on exact rationals.
    - Index arithmetic is done in [Z] without the 64-bit wrap-around:
      every index addresses an element of a tensor held in memory, so squared
      distances stay far below 2^63.
    - Third-party code (MONAI, SciPy, the SAM2 predictor) is taken as a
      parameter.  The collective operations of [torch.distributed] hand
      every worker the values of all workers, in rank order.
    - Of the output, the lines given to the logger and the bundle given to
      [torch.save] are kept; what is only printed is left out.  The text of
      a log line is a parameter.
    - The JPEG frames are written by [save_nifti_frames_to_jpg] to a file
      system of its own; in the loop of [run] the predictor reads the volume
      through [init_state], and of the call that writes the frames the loop
      keeps the exception it can raise. *)

From Stdlib Require Import ZArith QArith Lia DecimalString DecimalNat.
From stdpp Require Import base option list sorting strings gmap.

#[local] Set Warnings "-clear-no-such-hyp".
Local Open Scope Z_scope.

(** ** Python exceptions *)

Inductive exn : Type :=
  | IndexError
  | KeyError
  | ValueError
  | RuntimeError
  | UnboundLocalError
  | FileNotFoundError.

Inductive result (A : Type) : Type :=
  | Ok (a : A)
  | Raise (e : exn).
Arguments Ok {A} a.
Arguments Raise {A} e.

#[global] Instance result_ret : MRet result := fun A a => Ok a.
#[global] Instance result_bind : MBind result := fun A B f m =>
  match m with
  | Ok a => f a
  | Raise e => Raise e
  end.
#[global] Instance result_fmap : FMap result := fun A B f m =>
  match m with
  | Ok a => Ok (f a)
  | Raise e => Raise e
  end.

Definition is_Ok {A} (r : result A) : Prop := ∃ a, r = Ok a.

(** [l[i]] for a non-negative [i]: out of range raises [IndexError]. *)
Definition index {A} (l : list A) (i : nat) : result A :=
  match l !! i with
  | Some a => Ok a
  | None => Raise IndexError
  end.

(** [l[-1]]. *)
Definition index_last {A} (l : list A) : result A :=
  match last l with
  | Some a => Ok a
  | None => Raise IndexError
  end.

(** ** Floats *)

Inductive f32 : Type :=
  | NaN
  | Num (q : Q).

Definition isnan (x : f32) : bool :=
  match x with NaN => true | Num _ => false end.

(** [x < y] on floats: false as soon as one side is [NaN]. *)
Definition f32_ltb (x y : f32) : bool :=
  match x, y with
  | Num a, Num b => bool_decide (Qnum a * Zpos (Qden b) < Qnum b * Zpos (Qden a))
  | _, _ => false
  end.

(** [x + y] on floats. *)
Definition f32_add (x y : f32) : f32 :=
  match x, y with
  | Num a, Num b => Num (a + b)
  | _, _ => NaN
  end.

(** [torch.nan_to_num(x, 0)]. *)
Definition nan_to_num (x : f32) : f32 :=
  match x with NaN => Num 0 | Num q => Num q end.

(** ** Tensors as nested lists *)

Definition map2 {A B} (f : A → B) (t : list (list A)) : list (list B) :=
  (fun row : list A => f <$> row) <$> t.
Definition map3 {A B} (f : A → B) (t : list (list (list A))) : list (list (list B)) :=
  map2 f <$> t.

Definition zip_with2 {A B C} (f : A → B → C) (s : list (list A)) (t : list (list B)) : list (list C) :=
  zip_with (zip_with f) s t.

(** [t[..., d]]: select index [d] on the last axis. *)
Definition select_last2 {A} (t : list (list A)) (d : nat) : result (list A) :=
  mapM (M := result) (fun fibre => index fibre d) t.
Definition select_last3 {A} (t : list (list (list A))) (d : nat) : result (list (list A)) :=
  mapM (M := result) (fun plane => select_last2 plane d) t.

(** [data.shape[2]] *)
Definition depth {A} (data : list (list (list A))) : nat :=
  match data with
  | (fibre :: _) :: _ => length fibre
  | _ => 0%nat
  end.

(** The volumes of the loader come as [1, 1, H, W, D] and are kept here
    without their batch and channel axes.  [torch.squeeze] takes those two
    axes away, and with them every axis of [H, W, D] whose size is 1: the
    squeezed tensor has the three axes [H, W, D] exactly when none of them has
    size 1.  (A volume without rows is taken to have no column and no
    frame.) *)
Definition unit_axis {A} (data : list (list (list A))) : bool :=
  match data with
  | [] => false
  | plane :: _ =>
      Nat.eqb (length data) 1 || Nat.eqb (length plane) 1 || Nat.eqb (depth data) 1
  end.

(** [torch.squeeze(data).shape[2]]: a tensor squeezed to fewer than three
    axes has no such entry. *)
Definition squeezed_depth {A} (data : list (list (list A))) : result nat :=
  if unit_axis data then Raise IndexError else Ok (depth data).

(** [torch.logical_not], [torch.logical_and] on masks of one shape. *)
Definition logical_not2 (t : list (list bool)) : list (list bool) := map2 negb t.
Definition logical_and2 (s t : list (list bool)) : list (list bool) := zip_with2 andb s t.

(** ** [torch.nonzero]

    The coordinates of the true entries, one row per entry, in row-major
    order.  [nonzero_axis] adds one axis in front of a tensor whose entries
    are enumerated by [inner]. *)

Definition nonzero_axis {A} (inner : A → list (list Z)) (t : list A) : list (list Z) :=
  mjoin (imap (fun i s => (fun row : list Z => Z.of_nat i :: row) <$> inner s) t).

Definition nonzero0 (b : bool) : list (list Z) := if b then [[]] else [].
Definition nonzero1 : list bool → list (list Z) := nonzero_axis nonzero0.
Definition nonzero2 : list (list bool) → list (list Z) := nonzero_axis nonzero1.
Definition nonzero3 : list (list (list bool)) → list (list Z) := nonzero_axis nonzero2.

(** ** [torch.sort]

    Returns the sorted values and, for each, its index in the input.  The
    model is a stable merge sort; [torch.sort] promises no order among equal
    keys, and nothing below depends on one. *)

Section torch_sort.
Context {A : Type} (R : relation A) `{!∀ x y, Decision (R x y)}.

Definition key_le : relation (A * nat) := fun a b => R a.1 b.1.

#[local] Instance key_le_dec a b : Decision (key_le a b) := decide (R a.1 b.1).

Definition torch_sort (v : list A) : list A * list nat :=
  let s := merge_sort key_le (zip v (seq 0 (length v))) in
  (s.*1, s.*2).
End torch_sort.

#[global] Instance Qle_dec (x y : Q) : Decision (Qle x y) :=
  decide (Qnum x * Zpos (Qden y) ≤ Qnum y * Zpos (Qden x)).

#[global] Instance Qlt_dec (x y : Q) : Decision (Qlt x y) :=
  decide (Qnum x * Zpos (Qden y) < Qnum y * Zpos (Qden x)).

(** ** Third-party numerics: MONAI and SciPy *)

Class Monai : Type := {
  (** [monai.transforms.utils.get_largest_connected_component_mask] on a
      volume and on a single slice *)
  get_largest_connected_component_mask3 :
    list (list (list bool)) → list (list (list bool));
  get_largest_connected_component_mask2 :
    list (list bool) → list (list bool);
  (** [monai.metrics.compute_dice(y_pred, y, include_background=False)] on a
      volume and on a single slice *)
  compute_dice3 : list (list (list bool)) → list (list (list Z)) → f32;
  compute_dice2 : list (list bool) → list (list Z) → f32;
}.

Class Scipy : Type := {
  (** [scipy.ndimage.binary_erosion(input, structure)] *)
  binary_erosion : list (list bool) → list (list bool) → list (list bool);
}.

(** What the script relies on from the connected-component filter: it
    keeps a part of the mask, and a non-empty part of a non-empty mask. *)
Definition lcc_contract3 `{Monai} : Prop :=
  ∀ m : list (list (list bool)),
    nonzero3 (get_largest_connected_component_mask3 m) ⊆ nonzero3 m ∧
    (nonzero3 m ≠ [] → nonzero3 (get_largest_connected_component_mask3 m) ≠ []).

Definition lcc_contract2 `{Monai} : Prop :=
  ∀ m : list (list bool),
    nonzero2 (get_largest_connected_component_mask2 m) ⊆ nonzero2 m ∧
    (nonzero2 m ≠ [] → nonzero2 (get_largest_connected_component_mask2 m) ≠ []).

(** ** Seed selection: [get_points_from_label] *)

(** [t.float()] on a row of indices. *)
Definition to_float (p : list Z) : list Q := inject_Z <$> p.

(** [t.mean(0)] of a matrix given by its rows: the column-wise mean.  On
    no rows at all torch returns a row of NaN, which nothing reads; the
    model returns the empty row. *)
Definition sum0 (rows : list (list Q)) : list Q :=
  match rows with
  | [] => []
  | r :: rs => foldl (zip_with Qplus) r rs
  end.

Definition mean0 (rows : list (list Q)) : list Q :=
  (fun s => s / inject_Z (Z.of_nat (length rows)))%Q <$> sum0 rows.

(** [((p - c) ** 2).sum(-1)] for one row [p]. *)
Definition sqdist (p c : list Q) : Q :=
  foldr Qplus 0%Q (zip_with (fun a b => (a - b) ^ 2)%Q p c).

(** Lines 70-75, on the rows of [torch.nonzero(plabels)]. *)
Definition closest_to_centroid (plabelpoints : list (list Z)) : result (list Z) :=
  let pmean := mean0 (to_float <$> plabelpoints) in
  let pdis := (fun p => sqdist (to_float p) pmean) <$> plabelpoints in
  let '(_, sorted_indices) := torch_sort Qle pdis in
  i ← index sorted_indices 0;
  index plabelpoints i.

(** [labels == index]. *)
Definition eq_mask3 (labels : list (list (list Z))) (v : Z) : list (list (list bool)) :=
  map3 (fun x => x =? v) labels.
Definition eq_mask2 (labels : list (list Z)) (v : Z) : list (list bool) :=
  map2 (fun x => x =? v) labels.

Section seed.
Context `{Monai}.

(** [get_points_from_label(labels)] with the default [index=1], on a
    volume [H, W, D] ... *)
Definition get_points_from_label (labels : list (list (list Z))) : result (list Z) :=
  let plabels := eq_mask3 labels 1 in
  let plabels := get_largest_connected_component_mask3 plabels in
  let plabelpoints := nonzero3 plabels in
  closest_to_centroid plabelpoints.

(** ... and on one slice [H, W], as line 314 calls it. *)
Definition get_points_from_label_slice (labels : list (list Z)) : result (list Z) :=
  let plabels := eq_mask2 labels 1 in
  let plabels := get_largest_connected_component_mask2 plabels in
  let plabelpoints := nonzero2 plabels in
  closest_to_centroid plabelpoints.
End seed.

(** ** Error-driven correction: [get_points_from_false_pred] *)

(** [np.ones((h, w))]. *)
Definition ones (h w : nat) : list (list bool) := replicate h (replicate w true).

(** [((p - c) ** 2).sum(-1)] on integer rows. *)
Definition sqdistZ (p c : list Z) : Z :=
  foldr Z.add 0 (zip_with (fun a b => (a - b) ^ 2) p c).

(** Lines 86-88 and 100-102: the row of [plabelpoints] closest to the first
    prompt [_point[0]], which is stored as (column, row) and swapped back. *)
Definition nearest_to_first (plabelpoints _point : list (list Z)) : result (list Z) :=
  p0 ← index _point 0;
  a ← index p0 1;
  b ← index p0 0;
  let pdis := (fun p => sqdistZ p [a; b]) <$> plabelpoints in
  let '(_, sorted_indices) := torch_sort Z.le pdis in
  i ← index sorted_indices 0;
  index plabelpoints i.

Section correction.
Context `{Scipy}.

Definition get_points_from_false_pred (pred gt : list (list bool))
    (_point : list (list Z)) (_label : list Z) : result (list (list Z) * list Z) :=
  (* handle false positive *)
  let fp_mask := logical_and2 (logical_not2 gt) pred in
  let structuring_element := ones 20 20 in
  let eroded_image := binary_erosion fp_mask structuring_element in
  let plabelpoints := nonzero2 eroded_image in
  '(_point, _label) ←
    (if bool_decide (0 < length plabelpoints)%nat then
       npoint ← nearest_to_first plabelpoints _point;
       x ← index npoint 1;
       y ← index npoint 0;
       mret (_point ++ [[x; y]], _label ++ [0])
     else mret (_point, _label));
  (* handle false negative *)
  let fp_mask := logical_and2 (logical_not2 pred) gt in
  let structuring_element := ones 20 20 in
  let eroded_image := binary_erosion fp_mask structuring_element in
  let plabelpoints := nonzero2 eroded_image in
  if bool_decide (0 < length plabelpoints)%nat then
    npoint ← nearest_to_first plabelpoints _point;
    x ← index npoint 1;
    y ← index npoint 0;
    mret (_point ++ [[x; y]], _label ++ [1])
  else mret (_point, _label).

End correction.

(** ** The SAM2 video predictor

    An opaque capability with a mutable inference state, threaded
    explicitly.  [add_new_points state frame_idx obj_id points labels]
    returns the new state with [(out_obj_ids, out_mask_logits)], the logits
    having shape [objects, 1, H, W]; [propagate_in_video state reverse]
    returns the new state with the sequence of triples
    [(out_frame_idx, out_obj_ids, out_mask_logits)] its generator yields. *)

Class Predictor : Type := {
  inference_state : Type;
  init_state : list (list (list Z)) → inference_state;
  reset_state : inference_state → inference_state;
  add_new_points :
    inference_state → Z → Z → list (list Z) → list Z →
    inference_state * (list Z * list (list (list (list f32))));
  propagate_in_video :
    inference_state → bool →
    inference_state * list (Z * list Z * list (list (list (list f32))));
}.

(** [logits > 0.0] on a [1, H, W] tensor. *)
Definition positive3 (logits : list (list (list f32))) : list (list (list bool)) :=
  map3 (fun x => f32_ltb (Num 0) x) logits.

(** [(out_mask_logits[0] > 0.0).cpu()[0]] *)
Definition first_mask (out_mask_logits : list (list (list (list f32)))) : result (list (list bool)) :=
  l ← index out_mask_logits 0;
  index (positive3 l) 0.

(** The dict comprehension of lines 351-354 and 356-359:
    [{out_obj_id: (out_mask_logits[i] > 0.0) for i, out_obj_id in enumerate(out_obj_ids)}];
    a later duplicate of a key replaces the earlier entry. *)
Fixpoint frame_dict_from (i : nat) (out_obj_ids : list Z)
    (out_mask_logits : list (list (list (list f32))))
    (acc : gmap Z (list (list (list bool)))) : result (gmap Z (list (list (list bool)))) :=
  match out_obj_ids with
  | [] => Ok acc
  | out_obj_id :: rest =>
      l ← index out_mask_logits i;
      frame_dict_from (S i) rest out_mask_logits (<[out_obj_id := positive3 l]> acc)
  end.

Definition frame_dict (out_obj_ids : list Z)
    (out_mask_logits : list (list (list (list f32)))) : result (gmap Z (list (list (list bool)))) :=
  frame_dict_from 0 out_obj_ids out_mask_logits ∅.

(** One [for ... in predictor.propagate_in_video(...)] loop: every yielded
    frame is stored under its index, whatever is stored there already. *)
Fixpoint collect_segments (yields : list (Z * list Z * list (list (list (list f32)))))
    (video_segments : gmap Z (gmap Z (list (list (list bool)))))
    : result (gmap Z (gmap Z (list (list (list bool))))) :=
  match yields with
  | [] => Ok video_segments
  | (out_frame_idx, out_obj_ids, out_mask_logits) :: rest =>
      d ← frame_dict out_obj_ids out_mask_logits;
      collect_segments rest (<[out_frame_idx := d]> video_segments)
  end.

(** [sorted(list(video_segments.keys()))] *)
Definition sorted_keys {V} (m : gmap Z V) : list Z :=
  merge_sort Z.le (map_to_list m).*1.

(** [video_segments[i][ann_obj_id][0]] *)
Definition segment_of (video_segments : gmap Z (gmap Z (list (list (list bool)))))
    (ann_obj_id i : Z) : result (list (list bool)) :=
  match video_segments !! i with
  | None => Raise KeyError
  | Some d =>
      match d !! ann_obj_id with
      | None => Raise KeyError
      | Some m => index m 0
      end
  end.

(** [np.stack(frames).transpose(1, 2, 0)]: from a list of [H, W] frames to
    one [H, W, D] volume.  [np.stack] refuses an empty list and frames of
    different shapes. *)
Fixpoint stack_last {A} (frames : list (list (list A))) : list (list (list A)) :=
  match frames with
  | [] => []
  | [f] => map2 (fun x => [x]) f
  | f :: fs => zip_with2 cons f (stack_last fs)
  end.

Definition shape2 {A} (f : list (list A)) : list nat := length <$> f.

Definition stack_transpose {A} (frames : list (list (list A))) : result (list (list (list A))) :=
  match frames with
  | [] => Raise ValueError
  | f :: fs =>
      if bool_decide (Forall (fun g => shape2 g = shape2 f) fs)
      then Ok (stack_last frames)
      else Raise ValueError
  end.

(** [torch.sum(t)] of a slice of the label. *)
Definition sum2 (t : list (list Z)) : Z :=
  foldr Z.add 0 (foldr Z.add 0 <$> t).

(** [t[a, b, c] = v] on a rank-3 tensor. *)
Definition set3 {A} (t : list (list (list A))) (a b c : nat) (v : A)
    : result (list (list (list A))) :=
  plane ← index t a;
  row ← index plane b;
  _ ← index row c;
  mret (<[a := <[b := <[c := v]> row]> plane]> t).

(** [t[a, :, c]] *)
Definition get_column3 {A} (t : list (list (list A))) (a c : nat) : result (list A) :=
  plane ← index t a;
  mapM (M := result) (fun row : list A => index row c) plane.

(** Reading a local variable: unbound raises [UnboundLocalError]. *)
Definition bound {A} (o : option A) : result A :=
  match o with
  | Some a => Ok a
  | None => Raise UnboundLocalError
  end.

(** A Python [for x in l] loop whose body may raise. *)
Fixpoint for_each {A S} (body : A → S → result S) (l : list A) (s : S) : result S :=
  match l with
  | [] => Ok s
  | x :: rest => s' ← body x s; for_each body rest s'
  end.

(** One batch of the validation loader: the source file name, the image
    volume and the label volume, both [H, W, D]. *)
Record val_data : Type := {
  filename : string;
  image : list (list (list Z));
  val_label : list (list (list Z));
}.

(** The prompt set of the object under evaluation. *)
Record prompts : Type := {
  _point : list (list Z);
  _label : list Z;
  ann_frame_idx : Z;
}.

(** The lines the script logs, kept as data instead of formatted text. *)
Inductive log_line : Type :=
  | ValidationDice (idx _index total : nat) (file : string) (row : list f32)
  | ObjectMetric (i : nat) (m : list (list f32))
  | ObjectBest (i : nat) (b : list f32)
  | BestMetric (per_object : list f32) (avg : f32)
  | PointNeeded (points : list (list f32)) (per_object : list f32).

Definition ann_obj_id : Z := 1.

(** [torch.squeeze((val_data["label"] == label_index).to(torch.uint8))].
    The label has the shape of the image, of which line 276 has read
    [shape[2]] after the same squeeze: none of [H, W, D] is 1 when this line
    runs, and the squeeze takes the batch and channel axes only. *)
Definition binary_label (v : val_data) (label_index : Z) : list (list (list Z)) :=
  map3 (fun x => if x =? label_index then 1 else 0) (val_label v).

Section run.
Context `{Monai} `{Scipy} `{Predictor}.

(** The variables of [run] that live across iterations, objects and
    volumes.  A variable that no statement has assigned yet is [None]:
    [inference_state] until line 283, the prompts until line 294,
    [lowerest_dice_index] until line 374 first runs, and [point_num]
    throughout, as no statement of [run] assigns it before line 410. *)
Record locals : Type := {
  state : option inference_state;
  pts : option prompts;
  lowerest_dice_index : option nat;
  point_num : option (list (list f32));
  metric : list (list (list f32));
  log_string : list log_line;
}.

(** Lines 291-309: iteration 0.  The seed comes from [torch.nonzero], so
    its last coordinate is a frame number, never negative. *)
Definition first_iteration (label : list (list (list Z))) (s : inference_state)
    : result (inference_state * prompts) :=
  let s := reset_state s in
  (* select initial points from the center of ROI *)
  point ← get_points_from_label label;
  p1 ← index point 1;
  p0 ← index point 0;
  let _point := [[p1; p0]] in
  let _label := [1] in
  ann_frame_idx ← index_last point;
  let '(s, (_, out_mask_logits)) := add_new_points s ann_frame_idx ann_obj_id _point _label in
  pred ← first_mask out_mask_logits;
  slice ← select_last3 label (Z.to_nat ann_frame_idx);
  let gt := eq_mask2 slice 1 in
  '(_point, _label) ← get_points_from_false_pred pred gt _point _label;
  mret (s, {| _point := _point; _label := _label; ann_frame_idx := ann_frame_idx |}).

(** Lines 312-335: iterations 1, 2, ... *)
Definition later_iteration (label : list (list (list Z))) (lowerest : option nat)
    (s : inference_state) (p : option prompts) : result (inference_state * prompts) :=
  let s := reset_state s in
  (* select points from the slice with smallest dice *)
  d ← bound lowerest;
  worst ← select_last3 label d;
  point ← get_points_from_label_slice worst;
  (* select initial points from the center of ROI *)
  point ← get_points_from_label label;
  p1 ← index point 1;
  p0 ← index point 0;
  let _point_additional := [[p1; p0]] in
  let _label_additional := [1] in
  ann_frame_idx ← index_last point;
  p ← bound p;
  let '(s, (_, out_mask_logits)) :=
    add_new_points s ann_frame_idx ann_obj_id (_point p) (_label p) in
  pred ← first_mask out_mask_logits;
  slice ← select_last3 label (Z.to_nat ann_frame_idx);
  let gt := eq_mask2 slice 1 in
  let _point := _point p ++ _point_additional in
  let _label := _label p ++ _label_additional in
  '(_point, _label) ← get_points_from_false_pred pred gt _point _label;
  mret (s, {| _point := _point; _label := _label; ann_frame_idx := ann_frame_idx |}).

(** Lines 337-362: replay all prompts, propagate in both directions and
    assemble the predicted volume.  Also returns [pred.shape[-1]]. *)
Definition propagate (s : inference_state) (p : prompts)
    : result (inference_state * list (list (list bool)) * nat) :=
  let s := reset_state s in
  let '(s, _) := add_new_points s (ann_frame_idx p) ann_obj_id (_point p) (_label p) in
  let video_segments := ∅ in
  let '(s, forward) := propagate_in_video s false in
  video_segments ← collect_segments forward video_segments;
  let '(s, backward) := propagate_in_video s true in
  video_segments ← collect_segments backward video_segments;
  frames ← mapM (M := result) (segment_of video_segments ann_obj_id) (sorted_keys video_segments);
  pred ← stack_transpose frames;
  mret (s, pred, length frames).

(** Lines 365-375: the frame with the lowest Dice among the frames that
    carry label.  Returns [(lowerest_dice, lowerest_dice_index)]. *)
Definition frame_dice_step (pred : list (list (list bool))) (label : list (list (list Z)))
    (d : nat) (acc : f32 * option nat) : result (f32 * option nat) :=
  label_d ← select_last3 label d;
  if bool_decide (0 < sum2 label_d) then
    pred_d ← select_last3 pred d;
    let pt_frame_dice := compute_dice2 pred_d label_d in
    if f32_ltb pt_frame_dice acc.1 then mret (pt_frame_dice, Some d) else mret acc
  else mret acc.

Definition lowest_frame (pred : list (list (list bool))) (label : list (list (list Z)))
    (frames : nat) (lowerest : option nat) : result (option nat) :=
  snd <$> for_each (frame_dice_step pred label) (seq 0 frames) (Num 1000, lowerest).

(** The body of [for idx in range(max_iters)], lines 290-392, for volume
    number [_index] (counted from 1) and label-set position [i]. *)
Definition iteration (v : val_data) (total _index i : nat) (label : list (list (list Z)))
    (idx : nat) (L : locals) : result locals :=
  s ← bound (state L);
  '(s, p) ←
    (if bool_decide (idx = 0%nat) then first_iteration label s
     else later_iteration label (lowerest_dice_index L) s (pts L));
  '(s, pred, frames) ← propagate s p;
  (* compute per-frame dice *)
  lowerest ← lowest_frame pred label frames (lowerest_dice_index L);
  (* compute volume dice *)
  let pt_volume_dice := compute_dice3 pred label in
  metric ← set3 (metric L) (_index - 1) (i - 1) idx pt_volume_dice;
  row ← get_column3 metric (_index - 1) idx;
  let string := ValidationDice idx _index total (filename v) row in
  mret {| state := Some s; pts := Some p; lowerest_dice_index := lowerest;
          point_num := point_num L;
          metric := metric; log_string := log_string L ++ [string] |}.

(** The body of [for i in range(1, len(label_set))], lines 286-392. *)
Definition object_loop (v : val_data) (label_set : list Z) (max_iters total _index : nat)
    (i : nat) (L : locals) : result locals :=
  s ← bound (state L);
  let s := reset_state s in
  label_index ← index label_set i;
  let label := binary_label v label_index in
  for_each (iteration v total _index i label) (seq 0 max_iters)
    {| state := Some s; pts := pts L; lowerest_dice_index := lowerest_dice_index L;
       point_num := point_num L; metric := metric L; log_string := log_string L |}.

(** The body of [for val_data in val_loader], lines 271-392; the loop
    counter [_index] has been incremented already.  Line 276 writes the
    frames of the image to disk for the predictor to load; of this call
    ([save_nifti_frames_to_jpg] below) the loop sees the exception that
    [data.shape[2]] raises on an image squeezed to fewer than three axes. *)
Definition volume_loop (label_set : list Z) (max_iters total : nat)
    (iv : nat * val_data) (L : locals) : result locals :=
  let '(_index, v) := iv in
  _ ← squeezed_depth (image v);
  let s := init_state (image v) in
  for_each (object_loop v label_set max_iters total _index) (seq 1 (length label_set - 1))
    {| state := Some s; pts := pts L; lowerest_dice_index := lowerest_dice_index L;
       point_num := point_num L; metric := metric L; log_string := log_string L |}.

(** Lines 262-267: [torch.zeros(obj_num, metric_dim, max_iters) + torch.nan]. *)
Definition new_metric (obj_num metric_dim max_iters : nat) : list (list (list f32)) :=
  map3 (fun z => f32_add z NaN)
    (replicate obj_num (replicate metric_dim (replicate max_iters (Num 0)))).

(** Lines 251-392 on one worker, for the number of rows [obj_num] it has
    been told to allocate. *)
Definition evaluate (label_set : list Z) (max_iters obj_num : nat)
    (val_loader : list val_data) : result locals :=
  let metric_dim := (length label_set - 1)%nat in
  for_each (volume_loop label_set max_iters (length val_loader))
    (zip (seq 1 (length val_loader)) val_loader)
    {| state := None; pts := None; lowerest_dice_index := None; point_num := None;
       metric := new_metric obj_num metric_dim max_iters; log_string := [] |}.

End run.

(** ** Combining the workers *)

(** [dist.all_gather]: every worker receives the values of all workers, in
    rank order.  The collective needs all tensors to have one shape. *)
Definition all_gather {A} (values : list A) : list A := values.

Definition shape3 {A} (t : list (list (list A))) : list (list nat) := shape2 <$> t.

Definition all_gather_tensors {A} (tensors : list (list (list (list A))))
    : result (list (list (list (list A)))) :=
  match tensors with
  | [] => Ok []
  | t :: ts =>
      if bool_decide (Forall (fun u => shape3 u = shape3 t) ts)
      then Ok (all_gather tensors)
      else Raise RuntimeError
  end.

(** [torch.vstack]: concatenation along axis 0. *)
Definition vstack {A} (tensors : list (list (list (list A)))) : list (list (list A)) :=
  mjoin tensors.

(** Python's [max] of a list. *)
Definition max_list (l : list nat) : result nat :=
  match l with
  | [] => Raise ValueError
  | x :: rest => Ok (foldl Nat.max x rest)
  end.

(** Lines 255-261: the number of rows a worker allocates.  [shards] are the
    partitions of the file list, one per rank; [multi] tells whether
    [torch.cuda.device_count() > 1]. *)
Definition obj_num_of (multi : bool) (shards : list (list val_data)) (rank : nat) : result nat :=
  val_loader ← index shards rank;
  let obj_num := length val_loader in
  if multi then max_list (all_gather (length <$> shards)) else mret obj_num.

(** ** The final block, lines 406-428 *)

(** [t.all(1)] on a [rows, width] matrix: the conjunction of each column. *)
Definition all_axis (width : nat) (rows : list (list bool)) : list bool :=
  foldr (zip_with andb) (replicate width true) rows.

(** [~torch.isnan(metric).all(1).all(1)] for a metric of shape
    [V, metric_dim, max_iters]. *)
Definition keep_index (max_iters : nat) (metric : list (list (list f32))) : list bool :=
  (fun plane : list (list f32) =>
     negb (forallb id (all_axis max_iters (map2 isnan plane)))) <$> metric.

(** [t[mask]] with a boolean mask over axis 0. *)
Definition mask_index {A} (t : list A) (mask : list bool) : result (list A) :=
  if bool_decide (length t = length mask)
  then Ok (fst <$> filter (fun xb : A * bool => xb.2 = true) (zip t mask))
  else Raise IndexError.

(** [torch.max] of two floats: a NaN wins. *)
Definition f32_max (x y : f32) : f32 :=
  if isnan x || isnan y then NaN else if f32_ltb x y then y else x.

(** [t.max(-1)[0]] of one row; torch refuses an empty row. *)
Definition max_row (row : list f32) : result f32 :=
  match row with
  | [] => Raise RuntimeError
  | x :: rest => Ok (foldl f32_max x rest)
  end.

(** Lines 411-414. *)
Definition metric_best (max_iters : nat) (metric : list (list (list f32)))
    : result (list (list f32)) :=
  if bool_decide (1 < max_iters)%nat then
    mapM (M := result)
      (fun plane : list (list f32) => mapM (M := result) max_row plane)
      (map3 nan_to_num metric)
  else
    mapM (M := result)
      (fun plane : list (list f32) =>
         mapM (M := result) (fun row : list f32 => index row 0) plane)
      metric.

(** [t.nanmean()] of a vector and [t.nanmean(0)] of a [rows, width] matrix. *)
Definition nanmean (l : list f32) : f32 :=
  let present := omap (fun x => match x with NaN => None | Num q => Some q end) l in
  match present with
  | [] => NaN
  | _ => Num (foldr Qplus 0%Q present / inject_Z (Z.of_nat (length present)))
  end.

Definition nanmean0 (width : nat) (rows : list (list f32)) : list f32 :=
  (fun k => nanmean (omap (fun row : list f32 => row !! k) rows)) <$> seq 0 width.

(** What [torch.save] writes: the dict [{"metric": ..., "point": ...}]. *)
Record bundle : Type := {
  bundle_metric : list (list (list f32));
  bundle_point : list (list f32);
}.

(** Lines 407-428 on rank 0, for the gathered [metric].  Returns the lines
    logged and the bundle saved. *)
Definition final_block (metric_dim max_iters : nat) (metric : list (list (list f32)))
    (point_num : option (list (list f32))) : result (list log_line * bundle) :=
  (* remove metric that's all NaN *)
  let keep := keep_index max_iters metric in
  metric ← mask_index metric keep;
  point_num ← bound point_num;
  point_num ← mask_index point_num keep;
  best ← metric_best max_iters metric;
  let objects :=
    mjoin (imap (fun i mb => [ObjectMetric i mb.1; ObjectBest i mb.2]) (zip metric best)) in
  let per_object := nanmean0 metric_dim best in
  let points_mean := nanmean0 metric_dim point_num in
  mret (objects ++ [BestMetric per_object (nanmean per_object);
                    PointNeeded point_num points_mean],
        {| bundle_metric := metric; bundle_point := point_num |}).

(** ** The whole run

    What the run leaves behind: the lines logged, the bundle saved if any,
    and the exception that ended it if any. *)
Record outcome : Type := {
  logged : list log_line;
  saved : option bundle;
  raised : option exn;
}.

(** The text of a log line, as the f-strings of the script format it (line
    388 for the validation lines); how a tensor prints is torch's matter. *)
Class Formatting : Type := {
  line_text : log_line → string;
}.

(** Line 394, [sorted(log_string)]: ascending by text, strings compared
    character by character, lines of equal text in the order they had. *)
Fixpoint insert_line `{Formatting} (x : log_line) (l : list log_line) : list log_line :=
  match l with
  | [] => [x]
  | y :: rest =>
      if String.ltb (line_text y) (line_text x) then y :: insert_line x rest
      else x :: y :: rest
  end.

Definition sorted_lines `{Formatting} (l : list log_line) : list log_line :=
  foldr insert_line [] l.

Section whole_run.
Context `{Monai} `{Scipy} `{Predictor} `{Formatting}.

(** The evaluation of every worker on its shard; a failure of one worker
    ends the run. *)
Definition evaluate_all (multi : bool) (label_set : list Z) (max_iters : nat)
    (shards : list (list val_data)) : result (list locals) :=
  mapM (M := result)
    (fun rank : nat =>
       obj_num ← obj_num_of multi shards rank;
       val_loader ← index shards rank;
       evaluate label_set max_iters obj_num val_loader)
    (seq 0 (length shards)).

(** Lines 398-404 as rank 0 sees them. *)
Definition gathered_metric (multi : bool) (workers : list locals)
    : result (list (list (list f32))) :=
  if multi then
    vstack <$> all_gather_tensors (metric <$> workers)
  else
    metric <$> index workers 0.

(** [run] observed at rank 0.  The validation lines are sorted at line 394
    and logged at line 396, before the final block starts. *)
Definition run (multi : bool) (label_set : list Z) (max_iters : nat)
    (shards : list (list val_data)) : outcome :=
  match evaluate_all multi label_set max_iters shards with
  | Raise e => {| logged := []; saved := None; raised := Some e |}
  | Ok workers =>
      match index workers 0 with
      | Raise e => {| logged := []; saved := None; raised := Some e |}
      | Ok L =>
          let lines := sorted_lines (log_string L) in
          match
            metric ← gathered_metric multi workers;
            final_block (length label_set - 1) max_iters metric (point_num L)
          with
          | Raise e => {| logged := lines; saved := None; raised := Some e |}
          | Ok (more, b) => {| logged := lines ++ more; saved := Some b; raised := None |}
          end
      end
  end.

End whole_run.

(** ** Executable stand-ins for the third-party functions

    Used to run the script on concrete volumes.  They follow the libraries'
    documentation: connected components with full connectivity, Dice as
    [2 |A ∩ B| / (|A| + |B|)] with NaN on an empty ground truth, erosion
    with the structuring element centred at [size // 2] and a background
    border. *)

Module Reference.

(** Two index rows are neighbours when no coordinate differs by more than 1. *)
Definition adjacent (p q : list Z) : bool :=
  bool_decide (length p = length q) && forallb (fun d => Z.abs d <=? 1) (zip_with Z.sub p q).

Definition touches (comp : list (list Z)) (q : list Z) : bool := existsb (adjacent q) comp.

(** Grow [comp] by the points of [rest] that touch it, until none does. *)
Fixpoint flood (fuel : nat) (comp rest : list (list Z)) : list (list Z) * list (list Z) :=
  match fuel with
  | O => (comp, rest)
  | S fuel =>
      match List.filter (touches comp) rest with
      | [] => (comp, rest)
      | near => flood fuel (comp ++ near) (List.filter (fun q => negb (touches comp q)) rest)
      end
  end.

Fixpoint components (fuel : nat) (points : list (list Z)) : list (list (list Z)) :=
  match fuel, points with
  | S fuel, p :: rest =>
      let '(comp, rest) := flood (length rest) [p] rest in
      comp :: components fuel rest
  | _, _ => []
  end.

Definition largest (comps : list (list (list Z))) : list (list Z) :=
  foldl (fun best c => if (length best <? length c)%nat then c else best) [] comps.

Definition largest_component (points : list (list Z)) : list (list Z) :=
  largest (components (length points) points).

(** Clear the entries of a mask whose coordinates [keep] rejects. *)
Definition restrict_axis {A} (inner : (list Z → bool) → A → A)
    (keep : list Z → bool) (t : list A) : list A :=
  imap (fun i s => inner (fun row => keep (Z.of_nat i :: row)) s) t.

Definition restrict0 (keep : list Z → bool) (b : bool) : bool := b && keep [].
Definition restrict1 := restrict_axis restrict0.
Definition restrict2 := restrict_axis restrict1.
Definition restrict3 := restrict_axis restrict2.

Definition lcc3 (m : list (list (list bool))) : list (list (list bool)) :=
  restrict3 (fun p => bool_decide (p ∈ largest_component (nonzero3 m))) m.

Definition lcc2 (m : list (list bool)) : list (list bool) :=
  restrict2 (fun p => bool_decide (p ∈ largest_component (nonzero2 m))) m.

Definition count (l : list bool) : Z := Z.of_nat (length (List.filter id l)).

Definition dice (y_pred : list bool) (y : list Z) : f32 :=
  let x := (fun v => v =? 1) <$> y in
  let y_o := count x in
  if 0 <? y_o
  then Num (inject_Z (2 * count (zip_with andb x y_pred)) / inject_Z (y_o + count y_pred))
  else NaN.

Definition dice2 (y_pred : list (list bool)) (y : list (list Z)) : f32 :=
  dice (mjoin y_pred) (mjoin y).
Definition dice3 (y_pred : list (list (list bool))) (y : list (list (list Z))) : f32 :=
  dice (mjoin (mjoin y_pred)) (mjoin (mjoin y)).

#[export] Instance monai : Monai := {|
  get_largest_connected_component_mask3 := lcc3;
  get_largest_connected_component_mask2 := lcc2;
  compute_dice3 := dice3;
  compute_dice2 := dice2;
|}.

(** [input[i, j]], with the background value outside the image. *)
Definition at2 (input : list (list bool)) (i j : Z) : bool :=
  if (0 <=? i) && (0 <=? j)
  then default false (row ← input !! Z.to_nat i; row !! Z.to_nat j)
  else false.

Definition erosion (input structure : list (list bool)) : list (list bool) :=
  let ci := Z.of_nat (length structure / 2) in
  let cj := Z.of_nat (length (default [] (head structure)) / 2) in
  imap (fun i (row : list bool) =>
    imap (fun j (_ : bool) =>
      forallb id (mjoin (imap (fun a (srow : list bool) =>
        imap (fun b (on : bool) =>
          implb on (at2 input (Z.of_nat i + Z.of_nat a - ci) (Z.of_nat j + Z.of_nat b - cj)))
          srow) structure))) row) input.

#[export] Instance scipy : Scipy := {| binary_erosion := erosion |}.

(** A predictor that replays a script: [click] is the mask logit tensor
    returned for the annotated frame, [forward] and [backward] the frames
    the two propagation passes yield, all for the single object 1. *)
Definition scripted (click : list (list f32))
    (forward backward : list (Z * list (list f32))) : Predictor := {|
  inference_state := unit;
  init_state := fun _ => ();
  reset_state := fun s => s;
  add_new_points := fun s _ _ _ _ => (s, ([1], [[click]]));
  propagate_in_video := fun s reverse =>
    (s, (fun y : Z * list (list f32) => (y.1, [1], [[y.2]]))
          <$> (if reverse then backward else forward));
|}.

(** A way to print the log lines: numbers in decimal, a score as its
    fraction. *)
Definition nat_text (n : nat) : string :=
  DecimalString.NilZero.string_of_uint (Nat.to_uint n).
Definition score_text (x : f32) : string :=
  match x with
  | NaN => "nan"
  | Num q =>
      String.append (DecimalString.NilZero.string_of_int (Z.to_int (Qnum q)))
        (String.append "/" (DecimalString.NilZero.string_of_uint (Pos.to_uint (Qden q))))
  end.
Definition row_text (row : list f32) : string :=
  foldr (fun x s => String.append (score_text x) (String.append " " s)) "" row.

#[export] Instance formatting : Formatting := {|
  line_text := fun line =>
    match line with
    | ValidationDice idx _index total file row =>
        String.append "Validation Dice score : "
          (String.append (nat_text idx) (String.append " / "
            (String.append (nat_text _index) (String.append " / "
              (String.append (nat_text total) (String.append "/ "
                (String.append file (String.append ": " (row_text row)))))))))
    | ObjectMetric i m => String.append "object " (String.append (nat_text i) " metric")
    | ObjectBest i b => String.append "object " (String.append (nat_text i) " best")
    | BestMetric _ _ => "Best metric"
    | PointNeeded _ _ => "Point needed"
    end;
|}.

End Reference.

(** ** Vocabulary of the statements *)

(** [p] is a row of [E] and no row of [E] is closer to [anchor]. *)
Definition nearest_in (E : list (list Z)) (anchor p : list Z) : Prop :=
  p ∈ E ∧ ∀ q, q ∈ E → sqdistZ p anchor ≤ sqdistZ q anchor.

(** What one half of the correction appends for the eroded error region
    [E]: nothing when [E] is empty, otherwise the single prompt (column,
    row) of a row of [E] nearest to [anchor], with the label [lab]. *)
Definition correction (E : list (list Z)) (anchor : list Z) (lab : Z)
    (ps : list (list Z)) (ls : list Z) : Prop :=
  (E = [] ∧ ps = [] ∧ ls = []) ∨
  (∃ r c, nearest_in E anchor [r; c] ∧ ps = [[c; r]] ∧ ls = [lab]).

(** The eroded false-positive and false-negative regions of lines 79-84
    and 93-98. *)
Definition eroded_false_positive `{Scipy} (pred gt : list (list bool)) : list (list Z) :=
  nonzero2 (binary_erosion (logical_and2 (logical_not2 gt) pred) (ones 20 20)).
Definition eroded_false_negative `{Scipy} (pred gt : list (list bool)) : list (list Z) :=
  nonzero2 (binary_erosion (logical_and2 (logical_not2 pred) gt) (ones 20 20)).

(** The frame indices a propagation pass yields. *)
Definition frames_of (yields : list (Z * list Z * list (list (list (list f32))))) : list Z :=
  (fun y => y.1.1) <$> yields.

(** "A frame already set by the forward pass is not overwritten by the
    reverse pass": on every frame both passes yield, the merged segments
    are those of the forward pass. *)
Definition forward_pass_wins
    (forward backward : list (Z * list Z * list (list (list (list f32))))) : Prop :=
  ∀ m1 m2,
    collect_segments forward ∅ = Ok m1 →
    collect_segments backward m1 = Ok m2 →
    ∀ k, k ∈ frames_of forward → k ∈ frames_of backward → m2 !! k = m1 !! k.

(** [t[a, b, c]], if there is such an entry. *)
Definition get3 {A} (t : list (list (list A))) (a b c : nat) : option A :=
  plane ← t !! a; row ← plane !! b; row !! c.

(** The scores of one (volume, object) pair are Dice scores: not negative. *)
Definition dice_valued (row : list f32) : Prop :=
  ∀ q, Num q ∈ row → (0 <= q)%Q.

(** [b] is the maximum of the entries of [row] that are not NaN. *)
Definition nan_safe_max (row : list f32) (b : f32) : Prop :=
  ∃ qb, b = Num qb ∧
    (∃ q, Num q ∈ row ∧ (q == qb)%Q) ∧
    (∀ q, Num q ∈ row → (q <= qb)%Q).

(** Every entry of the [objects x iterations] block of one volume is NaN. *)
Definition all_nan (plane : list (list f32)) : Prop :=
  Forall (Forall (fun x => isnan x = true)) plane.

(** The part of the locals that work on volume number [_index] may
    change: nothing of [point_num], not the shape of the metric, and no row
    of the metric but row [_index - 1]. *)
Definition only_row_changed `{Monai} `{Scipy} `{Predictor} (_index : nat) (L L' : locals) : Prop :=
  point_num L' = point_num L ∧
  shape3 (metric L') = shape3 (metric L) ∧
  ∀ a, a ≠ (_index - 1)%nat → metric L' !! a = metric L !! a.

(** The number [nan_to_num] makes of a float. *)
Definition value_or_zero (x : f32) : Q :=
  match x with NaN => 0%Q | Num q => q end.

(** [b] is the maximum of the entries of [row] after [nan_to_num] has
    replaced every NaN by 0. *)
Definition replaced_max (row : list f32) (b : f32) : Prop :=
  ∃ m, b = Num m ∧
    (∃ x, x ∈ row ∧ value_or_zero x = m) ∧
    (∀ x, x ∈ row → (value_or_zero x <= m)%Q).

(** What lines 411-414 make of the scores of one (volume, object) pair. *)
Definition best_over_iterations (max_iters : nat) (row : list f32) (b : f32) : Prop :=
  if bool_decide (1 < max_iters)%nat then replaced_max row b else row !! 0%nat = Some b.



(** ** Concrete inputs *)

Module Demo.
Import Reference.

(** A volume of two rows, three columns and two frames.  Label 1 covers
    columns 0 and 1 of row 0 in frame 0 and column 2 of row 0 in frame 1;
    the entries are [label[row][column][frame]]. *)
Definition label : list (list (list Z)) :=
  [ [[1; 0]; [1; 0]; [0; 1]];
    [[0; 0]; [0; 0]; [0; 0]] ].

Definition volume : val_data :=
  {| filename := "case0/volume.nii";
     image := [ [[0; 0]; [0; 0]; [0; 0]]; [[0; 0]; [0; 0]; [0; 0]] ];
     val_label := label |}.

(** A predictor that segments frame 0 exactly and finds nothing in frame 1. *)
Definition predictor : Predictor :=
  scripted [[Num 1; Num 1; Num (-1)]; [Num (-1); Num (-1); Num (-1)]]
    [(0, [[Num 1; Num 1; Num (-1)]; [Num (-1); Num (-1); Num (-1)]]);
     (1, [[Num (-1); Num (-1); Num (-1)]; [Num (-1); Num (-1); Num (-1)]])]
    [].

(** Two passes started from frame 1 of a three-frame video: the forward
    pass yields frames 1 and 2, the reverse pass frames 1 and 0, and their
    masks for frame 1 differ. *)
Definition forward : list (Z * list Z * list (list (list (list f32)))) :=
  [(1, [1], [[[[Num 1]]]]); (2, [1], [[[[Num 1]]]])].
Definition backward : list (Z * list Z * list (list (list (list f32)))) :=
  [(1, [1], [[[[Num (-1)]]]]); (0, [1], [[[[Num 1]]]])].

(** What the two loops of lines 350-359 store for them. *)
Definition after_forward : gmap Z (gmap Z (list (list (list bool)))) :=
  {[ 1 := {[ 1 := [[[true]]] ]}; 2 := {[ 1 := [[[true]]] ]} ]}.
Definition after_backward : gmap Z (gmap Z (list (list (list bool)))) :=
  {[ 0 := {[ 1 := [[[true]]] ]}; 1 := {[ 1 := [[[false]]] ]}; 2 := {[ 1 := [[[true]]] ]} ]}.

(** A 21 x 21 frame predicted everywhere, with an empty ground truth. *)
Definition full_pred : list (list bool) := replicate 21 (replicate 21 true).
Definition empty_gt : list (list bool) := replicate 21 (replicate 21 false).

(** A gathered metric of two volumes, two objects and two iterations; the
    second volume was never evaluated. *)
Definition scores : list (list (list f32)) :=
  [ [[Num (1 # 2); NaN]; [Num (1 # 4); Num (3 # 4)]];
    [[NaN; NaN]; [NaN; NaN]] ].

(** The prompt counts that would go with [scores], had the run bound
    [point_num]: one row per volume, one entry per object. *)
Definition points : list (list f32) := [[Num 1; Num 3]; [NaN; NaN]].


(** The locals of [run] when the per-label loop starts on the first volume. *)
Definition start : locals (H1 := predictor) :=
  {| state := Some (() : inference_state (Predictor := predictor));
     pts := None; lowerest_dice_index := None; point_num := None;
     metric := new_metric 1 1 1; log_string := [] |}.

(** Three volumes shared out to two workers: rank 0 holds two of them,
    rank 1 holds one. *)
Definition second : val_data :=
  {| filename := "case1/volume.nii"; image := image volume; val_label := label |}.
Definition third : val_data :=
  {| filename := "case2/volume.nii"; image := image volume; val_label := label |}.
Definition shards : list (list val_data) := [[volume; second]; [third]].

End Demo.

(** The prompts of an object start with the seed of its label volume. *)
Definition seeded `{Monai} (label : list (list (list Z))) (p : prompts) : Prop :=
  ∃ point c r,
    get_points_from_label label = Ok point ∧
    point !! 1%nat = Some c ∧ point !! 0%nat = Some r ∧
    head (_point p) = Some [c; r].

(** ** Vocabulary of the further statements *)

(** What the script may rely on from SciPy's erosion by the 20 x 20
    structuring element, whose centre is set: it only removes pixels. *)
Definition erosion_contract `{Scipy} : Prop :=
  ∀ m : list (list bool), nonzero2 (binary_erosion m (ones 20 20)) ⊆ nonzero2 m.

(** [m[r, c]], if there is such a pixel. *)
Definition pixel {A} (m : list (list A)) (r c : nat) : option A :=
  row ← m !! r; row !! c.

(** A prompt and its label mark an error of the prediction: label 0 on a
    pixel predicted but not in the ground truth, label 1 on a pixel of the
    ground truth that is not predicted.  Prompts are (column, row). *)
Definition marks_error (pred gt : list (list bool)) (pt : list Z) (lab : Z) : Prop :=
  ∃ r c : nat,
    pt = [Z.of_nat c; Z.of_nat r] ∧
    ((lab = 0 ∧ pixel pred r c = Some true ∧ pixel gt r c = Some false) ∨
     (lab = 1 ∧ pixel pred r c = Some false ∧ pixel gt r c = Some true)).


(** The frames the two propagation passes of lines 350 and 355 yield for
    the prompts [p], the reverse pass running on the state the forward
    pass leaves. *)
Definition passes `{Predictor} (s : inference_state) (p : prompts)
    : list (Z * list Z * list (list (list (list f32))))
      * list (Z * list Z * list (list (list (list f32)))) :=
  let s := reset_state s in
  let '(s, _) := add_new_points s (ann_frame_idx p) ann_obj_id (_point p) (_label p) in
  let '(s, forward) := propagate_in_video s false in
  let '(s, backward) := propagate_in_video s true in
  (forward, backward).


(** The per-frame Dice of line 368 for frame [d], provided the frame
    carries label (line 367). *)
Definition frame_score `{Monai} (pred : list (list (list bool)))
    (label : list (list (list Z))) (d : nat) : option f32 :=
  match select_last3 label d, select_last3 pred d with
  | Ok label_d, Ok pred_d =>
      if bool_decide (0 < sum2 label_d) then Some (compute_dice2 pred_d label_d) else None
  | _, _ => None
  end.

(** More concrete inputs. *)
Module Cases.
Import Reference.

(** One-pixel frames; the forward pass yields frames 1 and 2, the reverse
    pass frames 1 and 0, in that order. *)
Definition two_way : Predictor :=
  scripted [[Num 1]]
    [(1, [[Num 1]]); (2, [[Num (-1)]])]
    [(1, [[Num (-1)]]); (0, [[Num 1]])].

(** A predictor whose passes yield nothing. *)
Definition silent : Predictor := scripted [[Num 1]] [] [].

Definition one_prompt : prompts :=
  {| _point := [[0; 0]]; _label := [1]; ann_frame_idx := 1 |}.

End Cases.

(** The state of the loop of lines 365-375 after the frames below [m]. *)
Definition lowest_so_far `{Monai} (pred : list (list (list bool))) (label : list (list (list Z)))
    (lowerest : option nat) (m : nat) (acc : f32 * option nat) : Prop :=
  (acc = (Num 1000, lowerest) ∧
   ∀ d x, (d < m)%nat → frame_score pred label d = Some x → f32_ltb x (Num 1000) = false) ∨
  (∃ d, acc.2 = Some d ∧ (d < m)%nat ∧
     frame_score pred label d = Some acc.1 ∧
     f32_ltb acc.1 (Num 1000) = true ∧
     (∀ d' x', (d' < m)%nat → frame_score pred label d' = Some x' →
        f32_ltb x' acc.1 = false) ∧
     (∀ d' x', (d' < d)%nat → frame_score pred label d' = Some x' →
        f32_ltb x' (Num 1000) = true → f32_ltb acc.1 x' = true)).


(** The locals of [Demo.predictor] when the per-label loop starts on the
    first volume, for a metric of the given shape. *)
Definition evaluate_start (obj_num metric_dim max_iters : nat)
    : locals (H1 := Demo.predictor) :=
  {| state := Some (() : inference_state (Predictor := Demo.predictor));
     pts := None; lowerest_dice_index := None; point_num := None;
     metric := new_metric obj_num metric_dim max_iters; log_string := [] |}.


(** Entry [(a, b, c)] of the metric is a volume Dice that [compute_dice]
    returned for the label [label_index] of the volume [vol]. *)
Definition holds_volume_dice `{Monai} (M : list (list (list f32))) (vol : val_data)
    (label_index : Z) (a b c : nat) : Prop :=
  ∃ pred, get3 M a b c = Some (compute_dice3 pred (binary_label vol label_index)).


(** ** [save_nifti_frames_to_jpg]

    The frames of a volume are written as JPEG files [0001.jpg],
    [0002.jpg], ... into a folder, a frame whose file exists being skipped.
    The file system is a set of directories and a map from paths to file
    contents.  What line 54-57 make of a slice ([astype(np.uint8)],
    [Image.fromarray], the JPEG encoder) is a parameter.  The volume is
    given without its batch and channel axes; when the squeeze of line 43
    leaves fewer than three axes, line 48 raises. *)

Class Imaging : Type := {
  jpeg : Type;
  encode_jpeg : list (list Z) → jpeg;
}.

Record filesystem `{Imaging} : Type := {
  directories : gset string;
  files : gmap string jpeg;
}.

(** [os.path.exists(path)] *)
Definition path_exists `{Imaging} (fs : filesystem) (path : string) : bool :=
  bool_decide (path ∈ directories fs) || bool_decide (is_Some (files fs !! path)).

(** [f'{n:04d}']: decimal, padded with zeros to four digits. *)
Fixpoint pad_zeros (k : nat) (d : Decimal.uint) : Decimal.uint :=
  match k with
  | O => d
  | S k => Decimal.D0 (pad_zeros k d)
  end.

Definition format_04d (n : nat) : string :=
  let d := Nat.to_uint n in
  DecimalString.NilEmpty.string_of_uint (pad_zeros (4 - Decimal.nb_digits d) d).

Definition ends_with_slash (s : string) : bool :=
  match last (String.list_ascii_of_string s) with
  | Some c => bool_decide (String c EmptyString = "/")
  | None => false
  end.

(** [os.path.join(folder, name)] for a [name] that does not start with a
    slash. *)
Definition path_join (folder name : string) : string :=
  if bool_decide (folder = "") || ends_with_slash folder
  then String.append folder name
  else String.append folder (String.append "/" name).

Section frames_on_disk.
Context `{Imaging}.

(** The name of the file of slice [i], line 49. *)
Definition save_name (output_folder : string) (i : nat) : string :=
  path_join output_folder (String.append (format_04d (i + 1)) ".jpg").

(** The body of the loop, lines 49-57. *)
Definition save_frame (data : list (list (list Z))) (output_folder : string)
    (i : nat) (fs : filesystem) : result filesystem :=
  let save_name := save_name output_folder i in
  if path_exists fs save_name then mret fs
  else
    frame ← select_last3 data i;
    mret {| directories := directories fs;
            files := <[save_name := encode_jpeg frame]> (files fs) |}.

(** [os.path.exists('')] is false and [os.makedirs('')] raises
    [FileNotFoundError]. *)
Definition save_nifti_frames_to_jpg (data : list (list (list Z))) (output_folder : string)
    (fs : filesystem) : result (filesystem * string) :=
  (* Ensure output folder exists *)
  if bool_decide (output_folder = "") then Raise FileNotFoundError else
  let fs :=
    if path_exists fs output_folder then fs
    else {| directories := {[output_folder]} ∪ directories fs; files := files fs |} in
  (* Loop through each frame in the 3D image *)
  n ← squeezed_depth data;
  fs ← for_each (save_frame data output_folder) (seq 0 n) fs;
  mret (fs, output_folder).

End frames_on_disk.


(** A file system for the examples: a frame file holds the slice itself. *)
Module Disk.

#[export] Instance raw : Imaging := {| jpeg := list (list Z); encode_jpeg := fun frame => frame |}.

Definition empty : filesystem := {| directories := ∅; files := ∅ |}.

(** Two volumes of two rows, two columns and two frames each. *)
Definition first : list (list (list Z)) := [ [[1; 2]; [3; 4]]; [[5; 6]; [7; 8]] ].
Definition second : list (list (list Z)) := [ [[8; 7]; [6; 5]]; [[4; 3]; [2; 1]] ].

(** The file system after the frames of [first] are written to [out]. *)
Definition written : filesystem :=
  {| directories := {["out"]};
     files := {[ "out/0001.jpg" := [[1; 3]; [5; 7]]; "out/0002.jpg" := [[2; 4]; [6; 8]] ]} |}.

End Disk.

(** The order of line 394 on the log lines: by their text. *)
Definition text_le `{Formatting} (a b : log_line) : Prop :=
  String.leb (line_text a) (line_text b) = true.

(** * Properties *)

(** ** The [result] monad and loops *)

Lemma bind_Ok {A B} (m : result A) (f : A → result B) (b : B) :
  m ≫= f = Ok b ↔ ∃ a, m = Ok a ∧ f a = Ok b.
Proof.
  destruct m as [a|e]; simpl; split.
  - intros Hf. by exists a.
  - by intros (a' & [= <-] & Hf).
  - done.
  - by intros (a' & [=] & _).
Qed.

Lemma fmap_Ok {A B} (m : result A) (f : A → B) (b : B) :
  f <$> m = Ok b ↔ ∃ a, m = Ok a ∧ b = f a.
Proof.
  destruct m as [a|e]; simpl; split.
  - intros [= <-]. by exists a.
  - by intros (a' & [= <-] & ->).
  - done.
  - by intros (a' & [=] & _).
Qed.

Lemma index_Ok {A} (l : list A) (i : nat) (a : A) : index l i = Ok a ↔ l !! i = Some a.
Proof. unfold index. destruct (l !! i); split; congruence. Qed.

Lemma bound_Ok {A} (o : option A) (a : A) : bound o = Ok a ↔ o = Some a.
Proof. destruct o; simpl; split; congruence. Qed.

(** Step through a computation in the [result] monad that is known to succeed. *)
Ltac ok_step H :=
  first
    [ apply bind_Ok in H as (? & ? & H)
    | apply fmap_Ok in H as (? & H & ?)
    | apply index_Ok in H
    | apply bound_Ok in H ].

Lemma for_each_invariant {A S} (P : S → Prop) (body : A → S → result S) (l : list A) :
  (∀ x s s', x ∈ l → P s → body x s = Ok s' → P s') →
  ∀ s s', P s → for_each body l s = Ok s' → P s'.
Proof.
  induction l as [|x l IH]; intros Hbody s s' Hs Hrun; simpl in Hrun.
  - by injection Hrun as <-.
  - ok_step Hrun. eapply IH; [| |exact Hrun].
    + intros. eapply Hbody; eauto. by right.
    + eapply Hbody; eauto. by left.
Qed.

(** ** [torch.sort]: the first index points at a least element *)

Section torch_sort_facts.
Context {A : Type} (R : relation A) `{!∀ x y, Decision (R x y)}.
Context `{!Transitive R, !Total R}.

#[local] Instance key_le_trans : Transitive (key_le R).
Proof. intros a b c. unfold key_le. apply transitivity. Qed.

#[local] Instance key_le_total : Total (key_le R).
Proof. intros a b. unfold key_le. apply total. apply _. Qed.

Lemma elem_of_zip_seq (v : list A) (x : A) (i start : nat) :
  (x, i) ∈ zip v (seq start (length v)) ↔ (start ≤ i)%nat ∧ v !! (i - start)%nat = Some x.
Proof.
  revert start. induction v as [|y v IH]; intros start; simpl.
  - rewrite elem_of_nil. split; [done|]. by intros [_ ?].
  - rewrite elem_of_cons, IH. split.
    + intros [[= Hx Hi]|[Hle Hv]].
      * subst. split; [lia|]. by rewrite Nat.sub_diag.
      * split; [lia|]. by replace (i - start)%nat with (S (i - S start)) by lia.
    + intros [Hle Hv]. destruct (decide (i = start)) as [->|Hne].
      * left. rewrite Nat.sub_diag in Hv. simpl in Hv. congruence.
      * right. split; [lia|].
        by replace (i - start)%nat with (S (i - S start)) in Hv by lia.
Qed.

Lemma torch_sort_first (v : list A) (i : nat) :
  (torch_sort R v).2 !! 0%nat = Some i →
  ∃ x, v !! i = Some x ∧ ∀ y, y ∈ v → R x y.
Proof.
  unfold torch_sort. simpl.
  pose proof (merge_sort_Permutation (key_le R) (zip v (seq 0 (length v)))) as Hperm.
  pose proof (StronglySorted_merge_sort (key_le R) (zip v (seq 0 (length v)))) as Hsorted.
  destruct (merge_sort (key_le R) (zip v (seq 0 (length v)))) as [|[x j] s]; [done|].
  simpl. intros [= ->]. exists x.
  assert ((x, i) ∈ zip v (seq 0 (length v))) as Hin by (rewrite <- Hperm; by left).
  apply elem_of_zip_seq in Hin as [_ Hx]. rewrite Nat.sub_0_r in Hx.
  split; [done|]. intros y Hy.
  apply list_elem_of_lookup in Hy as [k Hk].
  assert ((y, k) ∈ (x, i) :: s) as Hyk.
  { rewrite Hperm. apply elem_of_zip_seq. split; [lia|]. by rewrite Nat.sub_0_r. }
  apply StronglySorted_cons in Hsorted as [Hhd _].
  apply elem_of_cons in Hyk as [[= Hy1 Hy2]|Hyk].
  - subst. destruct (total R x x); done.
  - rewrite Forall_forall in Hhd. by apply (Hhd (y, k)).
Qed.

Lemma torch_sort_nonempty (v : list A) :
  v ≠ [] → is_Some ((torch_sort R v).2 !! 0%nat).
Proof.
  intros Hv. unfold torch_sort. simpl.
  pose proof (merge_sort_Permutation (key_le R) (zip v (seq 0 (length v)))) as Hperm.
  destruct (merge_sort (key_le R) (zip v (seq 0 (length v)))) as [|[x j] s]; [|by eexists].
  apply Permutation_length in Hperm. rewrite length_zip, length_seq in Hperm.
  destruct v; [done|]. simpl in Hperm. lia.
Qed.

End torch_sort_facts.

Lemma mapM_Ok {A B} (f : A → result B) (l : list A) (k : list B) :
  mapM (M := result) f l = Ok k ↔ Forall2 (fun x y => f x = Ok y) l k.
Proof.
  revert k. induction l as [|x l IH]; intros k; simpl.
  - split; [intros [= <-]; constructor | by inversion 1].
  - split.
    + intros Hm. ok_step Hm. ok_step Hm. injection Hm as <-.
      constructor; [done|]. by apply IH.
    + inversion 1 as [|? y ? k' Hx Hk]; subst. rewrite Hx. simpl.
      apply IH in Hk. by rewrite Hk.
Qed.

(** ** [torch.nonzero] *)

Lemma elem_of_nonzero_axis {A} (inner : A → list (list Z)) (t : list A) (p : list Z) :
  p ∈ nonzero_axis inner t ↔
  ∃ (i : nat) s row, t !! i = Some s ∧ row ∈ inner s ∧ p = Z.of_nat i :: row.
Proof.
  unfold nonzero_axis. rewrite list_elem_of_join. split.
  - intros (l & Hp & Hl). apply elem_of_lookup_imap in Hl as (i & s & -> & Hs).
    apply list_elem_of_fmap in Hp as (row & -> & Hrow). by exists i, s, row.
  - intros (i & s & row & Hs & Hrow & ->).
    exists ((fun row : list Z => Z.of_nat i :: row) <$> inner s). split.
    + apply list_elem_of_fmap. by exists row.
    + by apply (elem_of_lookup_imap_2
        (fun i s => (fun row : list Z => Z.of_nat i :: row) <$> inner s)).
Qed.

Lemma elem_of_nonzero1 (t : list bool) (p : list Z) :
  p ∈ nonzero1 t ↔ ∃ j : nat, t !! j = Some true ∧ p = [Z.of_nat j].
Proof.
  unfold nonzero1. rewrite elem_of_nonzero_axis. split.
  - intros (j & b & row & Hb & Hrow & ->). destruct b; simpl in Hrow.
    + apply list_elem_of_singleton in Hrow as ->. by exists j.
    + by apply elem_of_nil in Hrow.
  - intros (j & Hj & ->). exists j, true, []. repeat split; [done|]. simpl. by left.
Qed.

Lemma elem_of_nonzero2 (t : list (list bool)) (p : list Z) :
  p ∈ nonzero2 t ↔
  ∃ (i j : nat) row, t !! i = Some row ∧ row !! j = Some true ∧ p = [Z.of_nat i; Z.of_nat j].
Proof.
  unfold nonzero2. rewrite elem_of_nonzero_axis. split.
  - intros (i & row & q & Hrow & Hq & ->). apply elem_of_nonzero1 in Hq as (j & Hj & ->).
    by exists i, j, row.
  - intros (i & j & row & Hrow & Hj & ->). exists i, row, [Z.of_nat j].
    repeat split; [done|]. apply elem_of_nonzero1. by exists j.
Qed.

Lemma elem_of_nonzero3 (t : list (list (list bool))) (p : list Z) :
  p ∈ nonzero3 t ↔
  ∃ (i j k : nat) plane row,
    t !! i = Some plane ∧ plane !! j = Some row ∧ row !! k = Some true ∧
    p = [Z.of_nat i; Z.of_nat j; Z.of_nat k].
Proof.
  unfold nonzero3. rewrite elem_of_nonzero_axis. split.
  - intros (i & plane & q & Hplane & Hq & ->).
    apply elem_of_nonzero2 in Hq as (j & k & row & Hrow & Hk & ->).
    by exists i, j, k, plane, row.
  - intros (i & j & k & plane & row & Hplane & Hrow & Hk & ->).
    exists i, plane, [Z.of_nat j; Z.of_nat k]. repeat split; [done|].
    apply elem_of_nonzero2. by exists j, k, row.
Qed.

Lemma list_empty_iff_no_elem {A} (l : list A) : l = [] ↔ ∀ x, x ∉ l.
Proof.
  split; [intros -> x; apply not_elem_of_nil|].
  destruct l as [|x l]; [done|]. intros Hl. destruct (Hl x). by left.
Qed.

(** ** Seed selection *)

#[local] Instance Qle_transitive : Transitive Qle.
Proof. intros x y z. apply Qle_trans. Qed.

#[local] Instance Qle_total : Total Qle.
Proof.
  intros x y. destruct (Qlt_le_dec x y) as [Hlt|Hle]; [left; by apply Qlt_le_weak|by right].
Qed.


Lemma closest_to_centroid_empty : closest_to_centroid [] = Raise IndexError.
Proof. reflexivity. Qed.

(** ** Correction *)

Lemma nearest_to_first_spec (E rest : list (list Z)) (x0 y0 : Z) (tl : list Z) :
  E ≠ [] →
  ∃ p, nearest_to_first E ((x0 :: y0 :: tl) :: rest) = Ok p ∧ nearest_in E [y0; x0] p.
Proof.
  intros Hne. unfold nearest_to_first.
  change (index ((x0 :: y0 :: tl) :: rest) 0) with (Ok (x0 :: y0 :: tl)).
  cbn [mbind result_bind].
  change (index (x0 :: y0 :: tl) 1) with (Ok y0).
  change (index (x0 :: y0 :: tl) 0) with (Ok x0).
  cbn [mbind result_bind].
  set (pdis := (fun p => sqdistZ p [y0; x0]) <$> E).
  assert (pdis ≠ []) as Hdis by (intros Heq; by apply fmap_nil_inv in Heq).
  destruct (torch_sort_nonempty Z.le pdis Hdis) as [i Hi].
  destruct (torch_sort_first Z.le pdis i Hi) as (x & Hx & Hmin).
  destruct (torch_sort Z.le pdis) as [vals idxs] eqn:Hsort. simpl in Hi.
  unfold pdis in Hx. rewrite list_lookup_fmap in Hx.
  destruct (E !! i) as [p|] eqn:Hp; [|done]. injection Hx as <-.
  exists p. split; [|split].
  - unfold index. rewrite Hi. simpl. unfold index. by rewrite Hp.
  - by eapply list_elem_of_lookup_2.
  - intros q Hq. apply Hmin. unfold pdis. apply list_elem_of_fmap. by exists q.
Qed.

Section correction_facts.
Context `{Scipy}.

(** One half of [get_points_from_false_pred], as the source repeats it. *)
Lemma correction_half (E : list (list Z)) (pred gt : list (list bool)) (lab x0 y0 : Z)
    (tl : list Z) (rest : list (list Z)) (_label : list Z) :
  (E = eroded_false_positive pred gt ∨ E = eroded_false_negative pred gt) →
  ∃ ps ls,
    (if bool_decide (0 < length E)%nat then
       npoint ← nearest_to_first E ((x0 :: y0 :: tl) :: rest);
       x ← index npoint 1;
       y ← index npoint 0;
       mret (((x0 :: y0 :: tl) :: rest) ++ [[x; y]], _label ++ [lab])
     else mret ((x0 :: y0 :: tl) :: rest, _label))
    = Ok (((x0 :: y0 :: tl) :: rest) ++ ps, _label ++ ls) ∧
    correction E [y0; x0] lab ps ls.
Proof.
  intros HE. destruct (decide (E = [])) as [->|Hne].
  - exists [], []. rewrite !app_nil_r. split; [done|]. by left.
  - rewrite bool_decide_true by (destruct E; simpl; [done|lia]).
    destruct (nearest_to_first_spec E rest x0 y0 tl Hne) as (p & Hp & Hnear).
    rewrite Hp. simpl.
    assert (∃ r c, p = [r; c]) as (r & c & ->).
    { destruct Hnear as [Hin _].
      destruct HE as [HE|HE]; rewrite HE in Hin;
        apply elem_of_nonzero2 in Hin as (i & j & ? & _ & _ & ->); eauto. }
    exists [[c; r]], [lab]. split; [done|]. right. by exists r, c.
Qed.

Lemma get_points_from_false_pred_spec (pred gt : list (list bool)) (x0 y0 : Z)
    (tl : list Z) (rest : list (list Z)) (_label : list Z) :
  ∃ ps1 ls1 ps2 ls2,
    get_points_from_false_pred pred gt ((x0 :: y0 :: tl) :: rest) _label
    = Ok (((x0 :: y0 :: tl) :: rest) ++ ps1 ++ ps2, _label ++ ls1 ++ ls2) ∧
    correction (eroded_false_positive pred gt) [y0; x0] 0 ps1 ls1 ∧
    correction (eroded_false_negative pred gt) [y0; x0] 1 ps2 ls2.
Proof.
  unfold get_points_from_false_pred.
  destruct (correction_half (eroded_false_positive pred gt) pred gt 0 x0 y0 tl rest _label)
    as (ps1 & ls1 & Hfp & Hc1); [by left|].
  unfold eroded_false_positive in Hfp. rewrite Hfp. simpl.
  destruct (correction_half (eroded_false_negative pred gt) pred gt 1 x0 y0 tl
              (rest ++ ps1) (_label ++ ls1)) as (ps2 & ls2 & Hfn & Hc2); [by right|].
  unfold eroded_false_negative in Hfn. simpl in Hfn. rewrite Hfn.
  exists ps1, ls1, ps2, ls2. by rewrite <- !app_assoc.
Qed.

(** Whatever the prompts are, a call that returns has only appended, and
    as many labels as points. *)
Lemma get_points_from_false_pred_appends (pred gt : list (list bool))
    (_point _point' : list (list Z)) (_label _label' : list Z) :
  get_points_from_false_pred pred gt _point _label = Ok (_point', _label') →
  ∃ ps ls, _point' = _point ++ ps ∧ _label' = _label ++ ls ∧ length ps = length ls.
Proof.
  unfold get_points_from_false_pred. intros Hrun.
  apply bind_Ok in Hrun as ([P1 L1] & Hfp & Hfn).
  assert (∃ ps ls, P1 = _point ++ ps ∧ L1 = _label ++ ls ∧ length ps = length ls)
    as (ps1 & ls1 & -> & -> & Hlen1).
  { destruct (bool_decide _) in Hfp.
    - apply bind_Ok in Hfp as (? & _ & Hfp). apply bind_Ok in Hfp as (? & _ & Hfp).
      apply bind_Ok in Hfp as (? & _ & Hfp). injection Hfp as <- <-. by eexists [_], [_].
    - injection Hfp as <- <-. exists [], []. by rewrite !app_nil_r. }
  assert (∃ ps ls, _point' = (_point ++ ps1) ++ ps ∧ _label' = (_label ++ ls1) ++ ls
                   ∧ length ps = length ls) as (ps2 & ls2 & -> & -> & Hlen2).
  { destruct (bool_decide _) in Hfn.
    - apply bind_Ok in Hfn as (? & _ & Hfn). apply bind_Ok in Hfn as (? & _ & Hfn).
      apply bind_Ok in Hfn as (? & _ & Hfn). injection Hfn as <- <-. by eexists [_], [_].
    - injection Hfn as <- <-. exists [], []. by rewrite !app_nil_r. }
  exists (ps1 ++ ps2), (ls1 ++ ls2). rewrite !app_assoc, !length_app. auto.
Qed.

(** No eroded error region: nothing changes and nothing is raised, even on
    an empty prompt list. *)
Lemma get_points_from_false_pred_empty (pred gt : list (list bool))
    (_point : list (list Z)) (_label : list Z) :
  eroded_false_positive pred gt = [] →
  eroded_false_negative pred gt = [] →
  get_points_from_false_pred pred gt _point _label = Ok (_point, _label).
Proof.
  unfold eroded_false_positive, eroded_false_negative, get_points_from_false_pred.
  intros -> ->. reflexivity.
Qed.

End correction_facts.

(** ** The two kinds of iteration *)

Lemma index_last_Ok {A} (l : list A) (a : A) : index_last l = Ok a ↔ last l = Some a.
Proof. unfold index_last. destruct (last l); split; congruence. Qed.

Section iteration_facts.
Context `{Monai} `{Scipy} `{Predictor}.

Lemma first_iteration_Ok (label : list (list (list Z))) (s s' : inference_state) (p : prompts) :
  first_iteration label s = Ok (s', p) →
  ∃ point p1 p0 ps ls,
    get_points_from_label label = Ok point ∧
    point !! 1%nat = Some p1 ∧ point !! 0%nat = Some p0 ∧
    last point = Some (ann_frame_idx p) ∧
    _point p = [[p1; p0]] ++ ps ∧ _label p = [1] ++ ls ∧ length ps = length ls.
Proof.
  unfold first_iteration. intros Hrun.
  apply bind_Ok in Hrun as (point & Hpoint & Hrun).
  apply bind_Ok in Hrun as (p1 & Hp1%index_Ok & Hrun).
  apply bind_Ok in Hrun as (p0 & Hp0%index_Ok & Hrun).
  apply bind_Ok in Hrun as (d & Hd%index_last_Ok & Hrun).
  destruct (add_new_points _ _ _ _ _) as [s1 [ids logits]].
  apply bind_Ok in Hrun as (pred & _ & Hrun).
  apply bind_Ok in Hrun as (slice & _ & Hrun).
  apply bind_Ok in Hrun as ([P L] & Hfix & Hrun).
  injection Hrun as <- <-.
  apply get_points_from_false_pred_appends in Hfix as (ps & ls & -> & -> & Hlen).
  by exists point, p1, p0, ps, ls.
Qed.

Lemma later_iteration_Ok (label : list (list (list Z))) (lowerest : option nat)
    (s s' : inference_state) (q : option prompts) (p : prompts) :
  later_iteration label lowerest s q = Ok (s', p) →
  ∃ q0 point p1 p0 ps ls,
    q = Some q0 ∧
    get_points_from_label label = Ok point ∧
    point !! 1%nat = Some p1 ∧ point !! 0%nat = Some p0 ∧
    last point = Some (ann_frame_idx p) ∧
    _point p = (_point q0 ++ [[p1; p0]]) ++ ps ∧
    _label p = (_label q0 ++ [1]) ++ ls ∧
    length ps = length ls.
Proof.
  unfold later_iteration. intros Hrun.
  apply bind_Ok in Hrun as (d & _ & Hrun).
  apply bind_Ok in Hrun as (worst & _ & Hrun).
  apply bind_Ok in Hrun as (unused & _ & Hrun).
  apply bind_Ok in Hrun as (point & Hpoint & Hrun).
  apply bind_Ok in Hrun as (p1 & Hp1%index_Ok & Hrun).
  apply bind_Ok in Hrun as (p0 & Hp0%index_Ok & Hrun).
  apply bind_Ok in Hrun as (a & Ha%index_last_Ok & Hrun).
  apply bind_Ok in Hrun as (q0 & Hq%bound_Ok & Hrun).
  destruct (add_new_points _ _ _ _ _) as [s1 [ids logits]].
  apply bind_Ok in Hrun as (pred & _ & Hrun).
  apply bind_Ok in Hrun as (slice & _ & Hrun).
  apply bind_Ok in Hrun as ([P L] & Hfix & Hrun).
  injection Hrun as <- <-.
  apply get_points_from_false_pred_appends in Hfix as (ps & ls & -> & -> & Hlen).
  by exists q0, point, p1, p0, ps, ls.
Qed.

End iteration_facts.


(** ** The stand-in connected-component filter meets the contract *)

Module ReferenceFacts.
Import Reference.

Lemma elem_of_bool_filter {A} (f : A → bool) (l : list A) (x : A) :
  x ∈ List.filter f l ↔ x ∈ l ∧ f x = true.
Proof. rewrite !list_elem_of_In. apply filter_In. Qed.

Lemma flood_sound (fuel : nat) (comp rest comp' rest' : list (list Z)) :
  flood fuel comp rest = (comp', rest') →
  comp ⊆ comp' ∧ comp' ⊆ comp ++ rest ∧ rest' ⊆ rest.
Proof.
  revert comp rest. induction fuel as [|fuel IH]; intros comp rest; simpl.
  - intros [= <- <-]. set_solver.
  - destruct (List.filter (touches comp) rest) as [|q near] eqn:Hnear.
    + intros [= <- <-]. set_solver.
    + intros Hrun. apply IH in Hrun as (H1 & H2 & H3).
      assert (q :: near ⊆ rest) as Hsub.
      { intros x Hx. rewrite <- Hnear in Hx. by apply elem_of_bool_filter in Hx as [? _]. }
      assert (List.filter (fun q => negb (touches comp q)) rest ⊆ rest) as Hsub'.
      { intros x Hx. by apply elem_of_bool_filter in Hx as [? _]. }
      set_solver.
Qed.

Lemma components_sound (fuel : nat) (points c : list (list Z)) :
  c ∈ components fuel points → c ⊆ points.
Proof.
  revert points. induction fuel as [|fuel IH]; intros points; simpl.
  - by intros ?%elem_of_nil.
  - destruct points as [|p rest]; [by intros ?%elem_of_nil|].
    destruct (flood (length rest) [p] rest) as [comp rest'] eqn:Hflood.
    apply flood_sound in Hflood as (H1 & H2 & H3).
    intros [->|Hc]%elem_of_cons.
    + set_solver.
    + apply IH in Hc. set_solver.
Qed.

Lemma components_first (points : list (list Z)) :
  points ≠ [] → ∃ c cs, components (length points) points = c :: cs ∧ c ≠ [].
Proof.
  destruct points as [|p rest]; [done|]. intros _. simpl.
  destruct (flood (length rest) [p] rest) as [comp rest'] eqn:Hflood.
  apply flood_sound in Hflood as (H1 & _ & _).
  exists comp, (components (length rest) rest'). split; [done|].
  intros ->. specialize (H1 p). set_solver.
Qed.

Lemma largest_from_spec (comps : list (list (list Z))) (best : list (list Z)) :
  let result := foldl (fun best c => if (length best <? length c)%nat then c else best) best comps in
  (length best ≤ length result)%nat ∧
  (∀ c, c ∈ comps → (length c ≤ length result)%nat) ∧
  (result = best ∨ result ∈ comps).
Proof.
  revert best. induction comps as [|c comps IH]; intros best; simpl.
  - split; [done|]. split; [by intros ? ?%elem_of_nil|by left].
  - destruct (IH (if (length best <? length c)%nat then c else best)) as (H1 & H2 & H3).
    destruct (Nat.ltb_spec (length best) (length c)); simpl in *.
    + split; [lia|]. split.
      * intros c' [->|Hc']%elem_of_cons; [done|by apply H2].
      * right. destruct H3 as [->|?]; [by left|by right].
    + split; [done|]. split.
      * intros c' [->|Hc']%elem_of_cons; [lia|by apply H2].
      * destruct H3 as [->|?]; [by left|right; by right].
Qed.

Lemma largest_component_spec (points : list (list Z)) :
  points ≠ [] →
  ∃ p, p ∈ largest_component points ∧ p ∈ points.
Proof.
  intros Hne. unfold largest_component, largest.
  destruct (components_first points Hne) as (c & cs & Hcomps & Hc).
  pose proof (largest_from_spec (components (length points) points) []) as (_ & Hmax & Hin).
  simpl in Hmax, Hin.
  set (L := foldl _ [] (components (length points) points)) in *.
  assert (length c ≤ length L)%nat as Hlen by (apply Hmax; rewrite Hcomps; by left).
  destruct L as [|p L'] eqn:HL.
  { destruct c; [done|simpl in Hlen; lia]. }
  exists p. split; [by left|].
  destruct Hin as [?|Hin]; [done|].
  apply components_sound in Hin. apply Hin. by left.
Qed.

Lemma elem_of_nonzero_restrict_axis {A} (enum : A → list (list Z))
    (inner : (list Z → bool) → A → A) :
  (∀ keep s row, row ∈ enum (inner keep s) ↔ row ∈ enum s ∧ keep row = true) →
  ∀ keep t p,
    p ∈ nonzero_axis enum (restrict_axis inner keep t) ↔
    p ∈ nonzero_axis enum t ∧ keep p = true.
Proof.
  intros Hinner keep t p. rewrite !elem_of_nonzero_axis. unfold restrict_axis. split.
  - intros (i & s & row & Hs & Hrow & ->).
    rewrite list_lookup_imap in Hs. destruct (t !! i) as [s0|] eqn:Ht; [|done].
    injection Hs as <-. apply Hinner in Hrow as [Hrow Hkeep].
    split; [|done]. by exists i, s0, row.
  - intros [(i & s & row & Hs & Hrow & ->) Hkeep].
    exists i, (inner (fun row => keep (Z.of_nat i :: row)) s), row.
    split; [by rewrite list_lookup_imap, Hs|]. split; [|done].
    by apply Hinner.
Qed.

Lemma elem_of_nonzero_restrict0 (keep : list Z → bool) (b : bool) (row : list Z) :
  row ∈ nonzero0 (restrict0 keep b) ↔ row ∈ nonzero0 b ∧ keep row = true.
Proof.
  unfold restrict0, nonzero0. destruct b; simpl.
  - destruct (keep []) eqn:Hk.
    + split; [intros ->%list_elem_of_singleton; split; [by left|done]|by intros [? _]].
    + split; [by intros ?%elem_of_nil|]. intros [->%list_elem_of_singleton ?]. congruence.
  - split; [by intros ?%elem_of_nil|by intros [?%elem_of_nil _]].
Qed.

Lemma elem_of_nonzero_restrict2 (keep : list Z → bool) (m : list (list bool)) (p : list Z) :
  p ∈ nonzero2 (restrict2 keep m) ↔ p ∈ nonzero2 m ∧ keep p = true.
Proof.
  revert keep m p. apply elem_of_nonzero_restrict_axis.
  apply elem_of_nonzero_restrict_axis. apply elem_of_nonzero_restrict0.
Qed.

Lemma elem_of_nonzero_restrict3 (keep : list Z → bool) (m : list (list (list bool)))
    (p : list Z) :
  p ∈ nonzero3 (restrict3 keep m) ↔ p ∈ nonzero3 m ∧ keep p = true.
Proof.
  revert keep m p. apply elem_of_nonzero_restrict_axis.
  intros keep. apply elem_of_nonzero_restrict2.
Qed.

Lemma lcc3_meets_contract : lcc_contract3.
Proof.
  intros m. simpl. unfold lcc3. split.
  - intros p Hp. by apply elem_of_nonzero_restrict3 in Hp as [? _].
  - intros Hne. destruct (largest_component_spec _ Hne) as (p & HpL & Hp).
    intros Hempty. apply (proj1 (list_empty_iff_no_elem _) Hempty p).
    apply elem_of_nonzero_restrict3. split; [done|]. by apply bool_decide_eq_true.
Qed.

Lemma lcc2_meets_contract : lcc_contract2.
Proof.
  intros m. simpl. unfold lcc2. split.
  - intros p Hp. by apply elem_of_nonzero_restrict2 in Hp as [? _].
  - intros Hne. destruct (largest_component_spec _ Hne) as (p & HpL & Hp).
    intros Hempty. apply (proj1 (list_empty_iff_no_elem _) Hempty p).
    apply elem_of_nonzero_restrict2. split; [done|]. by apply bool_decide_eq_true.
Qed.

End ReferenceFacts.

(** ** A label that does not occur *)

Lemma absent_label_mask_empty (v : val_data) (label_index : Z) :
  Forall (Forall (Forall (fun x => x ≠ label_index))) (val_label v) →
  nonzero3 (eq_mask3 (binary_label v label_index) 1) = [].
Proof.
  intros Habsent. apply list_empty_iff_no_elem. intros p Hp.
  apply elem_of_nonzero3 in Hp as (i & j & k & plane & row & Hplane & Hrow & Hk & _).
  unfold eq_mask3, binary_label, map3, map2 in Hplane.
  rewrite !list_lookup_fmap in Hplane.
  destruct (val_label v !! i) as [plane0|] eqn:Hplane0; [|done].
  simpl in Hplane. injection Hplane as <-.
  rewrite !list_lookup_fmap in Hrow.
  destruct (plane0 !! j) as [row0|] eqn:Hrow0; [|done].
  simpl in Hrow. injection Hrow as <-.
  rewrite !list_lookup_fmap in Hk.
  destruct (row0 !! k) as [x|] eqn:Hx; [|done].
  simpl in Hk. injection Hk as Hk.
  rewrite Forall_forall in Habsent.
  pose proof (Habsent _ (list_elem_of_lookup_2 _ _ _ Hplane0)) as Hp0.
  rewrite Forall_forall in Hp0.
  pose proof (Hp0 _ (list_elem_of_lookup_2 _ _ _ Hrow0)) as Hr0.
  rewrite Forall_forall in Hr0.
  pose proof (Hr0 _ (list_elem_of_lookup_2 _ _ _ Hx)) as Hne.
  destruct (Z.eqb_spec x label_index); [done|]. by apply Z.eqb_eq in Hk.
Qed.

(** C10.  When the label index evaluated at position [i] of the label set
    occurs nowhere in the volume, the mask is empty, [get_points_from_label]
    raises [IndexError] (it indexes the empty result of the sort), and so
    does the body of the per-label loop as soon as it runs one iteration:
    the object is not skipped. *)
Theorem absent_label_raises_IndexError `{Monai} `{Scipy} `{Predictor}
    (v : val_data) (label_set : list Z) (label_index : Z)
    (max_iters total _index i : nat) (L : locals) :
  lcc_contract3 →
  label_set !! i = Some label_index →
  Forall (Forall (Forall (fun x => x ≠ label_index))) (val_label v) →
  is_Some (state L) →
  (0 < max_iters)%nat →
  nonzero3 (eq_mask3 (binary_label v label_index) 1) = [] ∧
  get_points_from_label (binary_label v label_index) = Raise IndexError ∧
  object_loop v label_set max_iters total _index i L = Raise IndexError.
Proof.
  intros Hlcc Hi Habsent [s Hs] Hiters.
  pose proof (absent_label_mask_empty v label_index Habsent) as Hmask.
  assert (get_points_from_label (binary_label v label_index) = Raise IndexError) as Hseed.
  { unfold get_points_from_label.
    destruct (Hlcc (eq_mask3 (binary_label v label_index) 1)) as [Hsub _].
    rewrite Hmask in Hsub.
    assert (nonzero3 (get_largest_connected_component_mask3
                        (eq_mask3 (binary_label v label_index) 1)) = []) as ->.
    { apply list_empty_iff_no_elem. intros p Hp. apply Hsub in Hp. by apply elem_of_nil in Hp. }
    apply closest_to_centroid_empty. }
  split; [done|]. split; [done|].
  unfold object_loop. rewrite Hs. simpl.
  unfold index at 1. rewrite Hi. simpl.
  destruct max_iters as [|n]; [lia|].
  change (seq 0 (S n)) with (0%nat :: seq 1 n). cbn [for_each].
  set (L0 := {| state := Some (reset_state s); pts := pts L;
                lowerest_dice_index := lowerest_dice_index L;
                point_num := point_num L; metric := metric L;
                log_string := log_string L |}).
  assert (iteration v total _index i (binary_label v label_index) 0 L0 = Raise IndexError) as ->.
  { unfold iteration. cbn [state L0 bound mbind result_bind].
    rewrite bool_decide_true by done.
    unfold first_iteration. by rewrite Hseed. }
  reflexivity.
Qed.

(** ** Prompts only grow *)

(** C6.  (1) A call of [get_points_from_false_pred] that returns keeps
    the given points and labels as prefixes of what it returns, and returns
    as many labels as points whenever it was given as many.  (2) It does
    return whenever the first prompt has its two coordinates.  (3) Within an
    iteration after the first, the prompts the iteration starts from are a
    prefix of the prompts it ends with, and the lengths stay equal.  (4) The
    first iteration ends with as many labels as points. *)
Theorem correction_only_appends `{Monai} `{Scipy} `{Predictor} :
  (∀ pred gt (P P' : list (list Z)) (Lb Lb' : list Z),
     get_points_from_false_pred pred gt P Lb = Ok (P', Lb') →
     P `prefix_of` P' ∧ Lb `prefix_of` Lb' ∧
     (length P = length Lb → length P' = length Lb')) ∧
  (∀ pred gt (x0 y0 : Z) (tl : list Z) (rest : list (list Z)) (Lb : list Z),
     is_Ok (get_points_from_false_pred pred gt ((x0 :: y0 :: tl) :: rest) Lb)) ∧
  (∀ label lowerest s s' (q p : prompts),
     later_iteration label lowerest s (Some q) = Ok (s', p) →
     _point q `prefix_of` _point p ∧ _label q `prefix_of` _label p ∧
     (length (_point q) = length (_label q) → length (_point p) = length (_label p))) ∧
  (∀ label s s' (p : prompts),
     first_iteration label s = Ok (s', p) → length (_point p) = length (_label p)).
Proof.
  split; [|split; [|split]].
  - intros pred gt P P' Lb Lb' Hrun.
    apply get_points_from_false_pred_appends in Hrun as (ps & ls & -> & -> & Hlen).
    split; [by exists ps|]. split; [by exists ls|].
    rewrite !length_app. lia.
  - intros pred gt x0 y0 tl rest Lb.
    destruct (get_points_from_false_pred_spec pred gt x0 y0 tl rest Lb)
      as (ps1 & ls1 & ps2 & ls2 & Hrun & _). by eexists.
  - intros label lowerest s s' q p Hrun.
    apply later_iteration_Ok in Hrun
      as (q0 & point & p1 & p0 & ps & ls & [= <-] & _ & _ & _ & _ & -> & -> & Hlen).
    split; [exists ([[p1; p0]] ++ ps); by rewrite <- app_assoc|].
    split; [exists ([1] ++ ls); by rewrite <- app_assoc|].
    rewrite !length_app. simpl. lia.
  - intros label s s' p Hrun.
    apply first_iteration_Ok in Hrun
      as (point & p1 & p0 & ps & ls & _ & _ & _ & _ & -> & -> & Hlen).
    rewrite !length_app. simpl. lia.
Qed.

(** ** The first prompt is also the latest one when the correction runs *)

Section anchor_facts.
Context `{Monai} `{Scipy} `{Predictor}.

Lemma first_iteration_seeded (label : list (list (list Z))) (s s' : inference_state)
    (p : prompts) :
  first_iteration label s = Ok (s', p) → seeded label p.
Proof.
  intros (point & c & r & ps & ls & Hseed & Hc & Hr & _ & HP & _)%first_iteration_Ok.
  exists point, c, r. by rewrite HP.
Qed.

(** In an iteration after the first, the correction is called on the
    prompts so far followed by the seed again: the first prompt, from which
    the correction measures, has the coordinates of the latest one. *)
Lemma later_iteration_seeded (label : list (list (list Z))) (lowerest : option nat)
    (s s' : inference_state) (q p : prompts) :
  seeded label q →
  later_iteration label lowerest s (Some q) = Ok (s', p) →
  seeded label p ∧
  ∃ pred gt c r,
    head (_point q) = Some [c; r] ∧
    get_points_from_false_pred pred gt (_point q ++ [[c; r]]) (_label q ++ [1])
    = Ok (_point p, _label p).
Proof.
  intros (point & c & r & Hseed & Hc & Hr & Hhead) Hrun.
  unfold later_iteration in Hrun.
  apply bind_Ok in Hrun as (d & _ & Hrun).
  apply bind_Ok in Hrun as (worst & _ & Hrun).
  apply bind_Ok in Hrun as (unused & _ & Hrun).
  apply bind_Ok in Hrun as (point' & Hpoint & Hrun).
  rewrite Hseed in Hpoint. injection Hpoint as <-.
  apply bind_Ok in Hrun as (c' & Hc'%index_Ok & Hrun).
  apply bind_Ok in Hrun as (r' & Hr'%index_Ok & Hrun).
  rewrite Hc in Hc'. injection Hc' as <-. rewrite Hr in Hr'. injection Hr' as <-.
  apply bind_Ok in Hrun as (a & _ & Hrun).
  apply bind_Ok in Hrun as (q0 & [= <-]%bound_Ok & Hrun).
  destruct (add_new_points _ _ _ _ _) as [s1 [ids logits]].
  apply bind_Ok in Hrun as (pred & _ & Hrun).
  apply bind_Ok in Hrun as (slice & _ & Hrun).
  apply bind_Ok in Hrun as ([P L] & Hfix & Hrun).
  injection Hrun as <- <-. simpl. split.
  - exists point, c, r. repeat split; try done. simpl.
    apply get_points_from_false_pred_appends in Hfix as (ps & ls & -> & _ & _).
    destruct (_point q) as [|x xs]; [done|]. exact Hhead.
  - by exists pred, (eq_mask2 slice 1), c, r.
Qed.

End anchor_facts.

(** ** What the correction appends *)

Lemma lookup2_logical_and2 (s t : list (list bool)) (i j : nat) (b : bool) :
  (row ← logical_and2 s t !! i; row !! j) = Some b ↔
  ∃ x y, (row ← s !! i; row !! j) = Some x ∧ (row ← t !! i; row !! j) = Some y ∧ b = x && y.
Proof.
  unfold logical_and2, zip_with2. rewrite lookup_zip_with.
  destruct (s !! i) as [srow|]; simpl; [|split; [done|by intros (? & ? & ? & _)]].
  destruct (t !! i) as [trow|]; simpl; [|split; [done|by intros (? & ? & _ & ? & _)]].
  rewrite lookup_zip_with.
  destruct (srow !! j) as [x|]; simpl; [|split; [done|by intros (? & ? & ? & _)]].
  destruct (trow !! j) as [y|]; simpl; [|split; [done|by intros (? & ? & _ & ? & _)]].
  split; [intros [= <-]; by exists x, y|by intros (? & ? & [= <-] & [= <-] & ->)].
Qed.

Lemma lookup2_logical_not2 (t : list (list bool)) (i j : nat) (b : bool) :
  (row ← logical_not2 t !! i; row !! j) = Some b ↔
  (row ← t !! i; row !! j) = Some (negb b).
Proof.
  unfold logical_not2, map2. rewrite list_lookup_fmap.
  destruct (t !! i) as [row|]; simpl; [|done].
  rewrite list_lookup_fmap. destruct (row !! j) as [x|]; simpl; [|done].
  destruct x, b; simpl; split; congruence.
Qed.

(** C7.  For prompts whose first entry is [(x0, y0)]:
    [get_points_from_false_pred] returns the prompts followed by what the
    false-positive half appends and then what the false-negative half
    appends.  Each half looks at its own region only, eroded by the 20 x 20
    structuring element: the pixels predicted and not in the ground truth,
    respectively in the ground truth and not predicted.  A half whose eroded
    region is empty appends nothing; otherwise it appends exactly one prompt
    [(c, r)], for a pixel [(r, c)] of the eroded region nearest to the first
    prompt [_point[0]] read as (row [y0], column [x0]), with label 0 for a
    false positive and 1 for a false negative.  When both eroded regions
    are empty the call returns its arguments unchanged, whatever they are. *)
Theorem correction_appends_nearest_error_pixels `{Scipy} (pred gt : list (list bool))
    (x0 y0 : Z) (tl : list Z) (rest : list (list Z)) (Lb : list Z) :
  (∃ ps1 ls1 ps2 ls2,
     get_points_from_false_pred pred gt ((x0 :: y0 :: tl) :: rest) Lb
     = Ok (((x0 :: y0 :: tl) :: rest) ++ ps1 ++ ps2, Lb ++ ls1 ++ ls2) ∧
     correction (eroded_false_positive pred gt) [y0; x0] 0 ps1 ls1 ∧
     correction (eroded_false_negative pred gt) [y0; x0] 1 ps2 ls2) ∧
  eroded_false_positive pred gt
    = nonzero2 (binary_erosion (logical_and2 (logical_not2 gt) pred) (ones 20 20)) ∧
  eroded_false_negative pred gt
    = nonzero2 (binary_erosion (logical_and2 (logical_not2 pred) gt) (ones 20 20)) ∧
  (∀ i j : nat,
     (row ← logical_and2 (logical_not2 gt) pred !! i; row !! j) = Some true ↔
     (row ← gt !! i; row !! j) = Some false ∧ (row ← pred !! i; row !! j) = Some true) ∧
  (∀ i j : nat,
     (row ← logical_and2 (logical_not2 pred) gt !! i; row !! j) = Some true ↔
     (row ← pred !! i; row !! j) = Some false ∧ (row ← gt !! i; row !! j) = Some true) ∧
  (eroded_false_positive pred gt = [] → eroded_false_negative pred gt = [] →
   ∀ P0 L0, get_points_from_false_pred pred gt P0 L0 = Ok (P0, L0)).
Proof.
  split; [apply get_points_from_false_pred_spec|].
  split; [done|]. split; [done|].
  assert (∀ (s t : list (list bool)) (i j : nat),
    (row ← logical_and2 (logical_not2 s) t !! i; row !! j) = Some true ↔
    (row ← s !! i; row !! j) = Some false ∧ (row ← t !! i; row !! j) = Some true) as Hregion.
  { intros s t i j. rewrite lookup2_logical_and2. split.
    - intros (x & y & Hx%lookup2_logical_not2 & Hy & Hxy).
      symmetry in Hxy. apply andb_true_iff in Hxy as [-> ->]. done.
    - intros [Hs Ht]. exists true, true. by rewrite lookup2_logical_not2. }
  split; [apply Hregion|]. split; [apply Hregion|].
  intros Hfp Hfn P0 L0. by apply get_points_from_false_pred_empty.
Qed.

(** ** Merging the two propagation passes *)

Lemma collect_segments_union
    (yields : list (Z * list Z * list (list (list (list f32)))))
    (m : gmap Z (gmap Z (list (list (list bool))))) :
  collect_segments yields m = (fun r => r ∪ m) <$> collect_segments yields ∅.
Proof.
  revert m. induction yields as [|[[k ids] logits] yields IH]; intros m; simpl.
  - by rewrite (left_id_L ∅ (∪)).
  - destruct (frame_dict ids logits) as [d|e]; simpl; [|done].
    rewrite (IH (<[k:=d]> m)), (IH (<[k:=d]> ∅)).
    destruct (collect_segments yields ∅) as [r|e]; simpl; [|done].
    f_equal. rewrite insert_empty, <- (assoc_L (∪)). f_equal.
    by rewrite insert_union_singleton_l.
Qed.

Lemma collect_segments_frames
    (yields : list (Z * list Z * list (list (list (list f32)))))
    (m m' : gmap Z (gmap Z (list (list (list bool))))) (k : Z) :
  collect_segments yields m = Ok m' →
  is_Some (m' !! k) ↔ k ∈ frames_of yields ∨ is_Some (m !! k).
Proof.
  revert m. induction yields as [|[[k0 ids] logits] yields IH]; intros m; simpl.
  - intros [= <-]. rewrite elem_of_nil. naive_solver.
  - intros Hrun. apply bind_Ok in Hrun as (d & _ & Hrun).
    apply IH in Hrun. rewrite Hrun, elem_of_cons. simpl.
    rewrite lookup_insert_is_Some. destruct (decide (k0 = k)); naive_solver.
Qed.

(** C3, as the code has it.  The second loop stores every frame the
    reverse pass yields, whatever the forward pass stored: the merged
    segments are those of the reverse pass on every frame it yields, and
    those of the forward pass on the other frames only. *)
Theorem backward_pass_overwrites_forward
    (forward backward : list (Z * list Z * list (list (list (list f32)))))
    (m1 m2 : gmap Z (gmap Z (list (list (list bool))))) :
  collect_segments forward ∅ = Ok m1 →
  collect_segments backward m1 = Ok m2 →
  ∃ mb,
    collect_segments backward ∅ = Ok mb ∧
    (∀ k, is_Some (mb !! k) ↔ k ∈ frames_of backward) ∧
    (∀ k, k ∈ frames_of backward → m2 !! k = mb !! k) ∧
    (∀ k, k ∉ frames_of backward → m2 !! k = m1 !! k).
Proof.
  intros Hfw Hbw. rewrite collect_segments_union in Hbw.
  apply fmap_Ok in Hbw as (mb & Hmb & ->). exists mb.
  assert (∀ k, is_Some (mb !! k) ↔ k ∈ frames_of backward) as Hdom.
  { intros k. rewrite (collect_segments_frames _ _ _ k Hmb), lookup_empty.
    split; [intros [?|[? [=]]]; done|by left]. }
  split; [done|]. split; [done|]. split.
  - intros k Hk. apply Hdom in Hk as [d Hd]. rewrite Hd.
    by apply lookup_union_Some_l.
  - intros k Hk. apply lookup_union_r. rewrite <- Hdom in Hk.
    by apply eq_None_not_Some.
Qed.

(** ** Writing into the metric tensor *)

Lemma set3_Ok {A} (t t' : list (list (list A))) (a b c : nat) (v : A) :
  set3 t a b c v = Ok t' →
  ∃ plane row,
    t !! a = Some plane ∧ plane !! b = Some row ∧ (c < length row)%nat ∧
    t' = <[a := <[b := <[c := v]> row]> plane]> t.
Proof.
  unfold set3. intros Hset.
  apply bind_Ok in Hset as (plane & Hplane%index_Ok & Hset).
  apply bind_Ok in Hset as (row & Hrow%index_Ok & Hset).
  apply bind_Ok in Hset as (x & Hx%index_Ok & Hset).
  injection Hset as <-. exists plane, row.
  repeat split; try done. by eapply lookup_lt_Some.
Qed.

Lemma set3_shape {A} (t t' : list (list (list A))) (a b c : nat) (v : A) :
  set3 t a b c v = Ok t' → shape3 t' = shape3 t.
Proof.
  intros (plane & row & Hplane & Hrow & Hc & ->)%set3_Ok.
  unfold shape3. rewrite list_fmap_insert. apply list_insert_id.
  rewrite list_lookup_fmap, Hplane. simpl. f_equal.
  unfold shape2. rewrite list_fmap_insert. symmetry. apply list_insert_id.
  by rewrite list_lookup_fmap, Hrow, length_insert.
Qed.

Lemma set3_other_plane {A} (t t' : list (list (list A))) (a b c a' : nat) (v : A) :
  set3 t a b c v = Ok t' → a' ≠ a → t' !! a' = t !! a'.
Proof.
  intros (plane & row & Hplane & Hrow & Hc & ->)%set3_Ok Hne.
  by apply list_lookup_insert_ne.
Qed.

Lemma set3_get3 {A} (t t' : list (list (list A))) (a b c : nat) (v : A) :
  set3 t a b c v = Ok t' →
  get3 t' a b c = Some v ∧
  ∀ a' b' c', (a', b', c') ≠ (a, b, c) → get3 t' a' b' c' = get3 t a' b' c'.
Proof.
  intros (plane & row & Hplane & Hrow & Hc & ->)%set3_Ok.
  pose proof (lookup_lt_Some _ _ _ Hplane) as Ha.
  pose proof (lookup_lt_Some _ _ _ Hrow) as Hb.
  unfold get3. split.
  - rewrite list_lookup_insert_eq by done. simpl.
    rewrite list_lookup_insert_eq by done. simpl.
    by rewrite list_lookup_insert_eq.
  - intros a' b' c' Hne. destruct (decide (a' = a)) as [->|Ha'].
    + rewrite list_lookup_insert_eq by done. rewrite Hplane. simpl.
      destruct (decide (b' = b)) as [->|Hb'].
      * rewrite list_lookup_insert_eq by done. rewrite Hrow. simpl.
        apply list_lookup_insert_ne. congruence.
      * by rewrite list_lookup_insert_ne.
    + by rewrite list_lookup_insert_ne.
Qed.

Lemma new_metric_NaN (obj_num metric_dim max_iters : nat) :
  new_metric obj_num metric_dim max_iters
  = replicate obj_num (replicate metric_dim (replicate max_iters NaN)).
Proof.
  unfold new_metric, map3, map2. by rewrite !fmap_replicate.
Qed.

(** ** What the loops change *)

Section loop_facts.
Context `{Monai} `{Scipy} `{Predictor}.

(** An iteration leaves [point_num] as it is and writes one entry of the
    metric. *)
Lemma iteration_effect (v : val_data) (total _index i : nat) (label : list (list (list Z)))
    (idx : nat) (L L' : locals) :
  iteration v total _index i label idx L = Ok L' →
  point_num L' = point_num L ∧
  ∃ x, set3 (metric L) (_index - 1) (i - 1) idx x = Ok (metric L').
Proof.
  unfold iteration. intros Hrun.
  apply bind_Ok in Hrun as (s & _ & Hrun).
  apply bind_Ok in Hrun as ([s1 p] & _ & Hrun).
  apply bind_Ok in Hrun as ([[s2 pred] frames] & _ & Hrun).
  apply bind_Ok in Hrun as (lowerest & _ & Hrun).
  apply bind_Ok in Hrun as (m & Hset & Hrun).
  apply bind_Ok in Hrun as (row & _ & Hrun).
  injection Hrun as <-. simpl. split; [done|]. by eexists.
Qed.

Lemma only_row_changed_refl (_index : nat) (L : locals) : only_row_changed _index L L.
Proof. by repeat split. Qed.

Lemma only_row_changed_trans (_index : nat) (L1 L2 L3 : locals) :
  only_row_changed _index L1 L2 → only_row_changed _index L2 L3 →
  only_row_changed _index L1 L3.
Proof.
  intros (Hp & Hs & Hr) (Hp' & Hs' & Hr'). repeat split; try congruence.
  intros a Ha. by rewrite Hr', Hr.
Qed.

Lemma iteration_frame (v : val_data) (total _index i : nat) (label : list (list (list Z)))
    (idx : nat) (L L' : locals) :
  iteration v total _index i label idx L = Ok L' → only_row_changed _index L L'.
Proof.
  intros (Hp & x & Hset)%iteration_effect. repeat split; [done| |].
  - by eapply set3_shape.
  - intros a Ha. by eapply set3_other_plane.
Qed.

Lemma object_loop_frame (v : val_data) (label_set : list Z) (max_iters total _index i : nat)
    (L L' : locals) :
  object_loop v label_set max_iters total _index i L = Ok L' → only_row_changed _index L L'.
Proof.
  unfold object_loop. intros Hrun.
  apply bind_Ok in Hrun as (s & _ & Hrun).
  apply bind_Ok in Hrun as (label_index & _ & Hrun).
  revert Hrun. apply (for_each_invariant (only_row_changed _index L)).
  - intros idx L1 L2 _ Hbefore Hbody. eapply only_row_changed_trans; [done|].
    by eapply iteration_frame.
  - by repeat split.
Qed.

(** The loop of a volume gets to the objects only for an image that
    squeezes to three axes. *)
Lemma volume_loop_Ok (label_set : list Z) (max_iters total _index : nat) (v : val_data)
    (L L' : locals) :
  volume_loop label_set max_iters total (_index, v) L = Ok L' →
  unit_axis (image v) = false ∧
  for_each (object_loop v label_set max_iters total _index) (seq 1 (length label_set - 1))
    {| state := Some (init_state (image v)); pts := pts L;
       lowerest_dice_index := lowerest_dice_index L;
       point_num := point_num L; metric := metric L; log_string := log_string L |} = Ok L'.
Proof.
  unfold volume_loop, squeezed_depth. by destruct (unit_axis (image v)).
Qed.

Lemma volume_loop_frame (label_set : list Z) (max_iters total _index : nat) (v : val_data)
    (L L' : locals) :
  volume_loop label_set max_iters total (_index, v) L = Ok L' → only_row_changed _index L L'.
Proof.
  intros [_ Hrun]%volume_loop_Ok. revert Hrun.
  apply (for_each_invariant (only_row_changed _index L)).
  - intros i L1 L2 _ Hbefore Hbody. eapply only_row_changed_trans; [done|].
    by eapply object_loop_frame.
  - by repeat split.
Qed.

(** After the evaluation of a shard: [point_num] is still unbound, the
    metric has the shape it was allocated with, and the rows past the
    shard's volumes are as allocated. *)
Lemma evaluate_frame (label_set : list Z) (max_iters obj_num : nat)
    (val_loader : list val_data) (L : locals) :
  evaluate label_set max_iters obj_num val_loader = Ok L →
  point_num L = None ∧
  shape3 (metric L) = shape3 (new_metric obj_num (length label_set - 1) max_iters) ∧
  ∀ a, (length val_loader ≤ a)%nat →
    metric L !! a = new_metric obj_num (length label_set - 1) max_iters !! a.
Proof.
  unfold evaluate.
  set (M0 := new_metric obj_num (length label_set - 1) max_iters).
  apply (for_each_invariant (fun L => point_num L = None ∧ shape3 (metric L) = shape3 M0 ∧
           ∀ a, (length val_loader ≤ a)%nat → metric L !! a = M0 !! a)).
  - intros [_index v] L1 L2 Hin (Hp & Hs & Hr) Hrun.
    apply volume_loop_frame in Hrun as (Hp' & Hs' & Hr').
    apply elem_of_zip_l in Hin. apply elem_of_seq in Hin.
    repeat split; try congruence.
    intros a Ha. rewrite Hr' by lia. by apply Hr.
  - by repeat split.
Qed.

End loop_facts.

(** ** Dropping the rows that are all NaN *)

Lemma forallb_id_zip_with_andb (r s : list bool) :
  length r = length s →
  forallb id (zip_with andb r s) = forallb id r && forallb id s.
Proof.
  revert s. induction r as [|x r IH]; intros [|y s] Hlen; simpl in *; try done.
  rewrite IH by lia. unfold id. destruct x, y; simpl; try done.
  by rewrite andb_false_r.
Qed.

Lemma all_axis_spec (width : nat) (rows : list (list bool)) :
  Forall (fun r => length r = width) rows →
  length (all_axis width rows) = width ∧
  (forallb id (all_axis width rows) = true ↔ Forall (Forall (fun b => b = true)) rows).
Proof.
  induction 1 as [|r rows Hr Hrows [IHlen IH]]; simpl.
  - split; [apply length_replicate|]. split; [constructor|]. intros _.
    induction width as [|w IHw]; [done|]. simpl. by rewrite IHw.
  - split; [rewrite length_zip_with; lia|].
    rewrite forallb_id_zip_with_andb by congruence.
    rewrite andb_true_iff, IH, Forall_cons.
    assert (forallb id r = true ↔ Forall (fun b => b = true) r) as ->; [|done].
    rewrite forallb_forall, Forall_forall. unfold id.
    split; intros Hall b Hb; apply Hall; by apply list_elem_of_In.
Qed.

Lemma keep_plane_spec (max_iters : nat) (plane : list (list f32)) :
  Forall (fun row => length row = max_iters) plane →
  negb (forallb id (all_axis max_iters (map2 isnan plane))) = true ↔ ¬ all_nan plane.
Proof.
  intros Hshape.
  assert (Forall (fun r => length r = max_iters) (map2 isnan plane)) as Hshape'.
  { unfold map2. rewrite Forall_fmap. eapply Forall_impl; [done|].
    intros row Hrow. simpl. by rewrite length_fmap. }
  destruct (all_axis_spec _ _ Hshape') as [_ Hall].
  rewrite negb_true_iff, <- not_true_iff_false, Hall.
  unfold all_nan, map2. rewrite Forall_fmap.
  assert (∀ row : list f32,
    Forall (fun b => b = true) (isnan <$> row) ↔ Forall (fun x => isnan x = true) row) as Hrow.
  { intros row. by rewrite Forall_fmap. }
  split; intros Hn Hf; apply Hn; eapply Forall_impl; try done; intros row; by apply Hrow.
Qed.

(** On a metric whose rows all have [max_iters] entries, lines 408-409
    return the volumes that have an entry that is not NaN, in their
    order. *)
Lemma drop_rows_spec (max_iters : nat) (metric : list (list (list f32))) :
  Forall (Forall (fun row => length row = max_iters)) metric →
  mask_index metric (keep_index max_iters metric)
  = Ok (filter (fun plane => ¬ all_nan plane) metric).
Proof.
  intros Hshape.
  unfold mask_index, keep_index. rewrite bool_decide_true by by rewrite length_fmap.
  f_equal. induction Hshape as [|plane metric Hplane Hmetric IH]; [done|].
  cbn [fmap list_fmap zip zip_with]. rewrite !filter_cons. cbn [snd].
  pose proof (keep_plane_spec max_iters plane Hplane) as Hkeep.
  destruct (negb _) eqn:Hk.
  + rewrite decide_True by done. rewrite decide_True by by apply Hkeep.
    cbn [fmap list_fmap fst]. f_equal. apply IH.
  + rewrite decide_False by done.
    rewrite decide_False by (rewrite <- Hkeep; congruence). apply IH.
Qed.

Lemma not_all_nan (plane : list (list f32)) :
  ¬ all_nan plane ↔ ∃ row x, row ∈ plane ∧ x ∈ row ∧ isnan x = false.
Proof.
  split.
  - intros Hnot. unfold all_nan in Hnot. apply not_Forall_Exists in Hnot; [|apply _].
    apply Exists_exists in Hnot as (row & Hrow & Hnot).
    apply not_Forall_Exists in Hnot; [|apply _].
    apply Exists_exists in Hnot as (x & Hx & Hnot).
    exists row, x. repeat split; try done. simpl in Hnot. by destruct (isnan x).
  - intros (row & x & Hrow & Hx & Hnan) Hall.
    unfold all_nan in Hall. rewrite Forall_forall in Hall.
    specialize (Hall row Hrow). rewrite Forall_forall in Hall.
    specialize (Hall x Hx). congruence.
Qed.

(** The rows of [t] at the positions where [mask] is true. *)
Lemma mask_index_Ok {A} (t : list A) (mask : list bool) (r : list A) :
  mask_index t mask = Ok r →
  length t = length mask ∧
  r = fst <$> filter (fun xb : A * bool => xb.2 = true) (zip t mask).
Proof. unfold mask_index. case_bool_decide; [by intros [= <-]|done]. Qed.

Lemma mask_index_length {A B} (t : list A) (u : list B) (mask : list bool)
    (r : list A) (s : list B) :
  mask_index t mask = Ok r → mask_index u mask = Ok s → length r = length s.
Proof.
  intros [Ht ->]%mask_index_Ok [Hu ->]%mask_index_Ok. rewrite !length_fmap.
  revert t u Ht Hu. induction mask as [|k mask IH];
    intros [|x t] [|y u] Ht Hu; simpl in *; try done.
  rewrite !filter_cons. simpl. destruct k.
  - rewrite !decide_True by done. simpl. f_equal. apply IH; lia.
  - rewrite !decide_False by done. apply IH; lia.
Qed.

(** ** Best over the iterations *)

Lemma f32_max_Num (a b : Q) :
  f32_max (Num a) (Num b) = Num (if bool_decide (a < b)%Q then b else a).
Proof.
  unfold f32_max, f32_ltb. simpl.
  change (bool_decide (a < b)%Q) with (bool_decide (Qnum a * QDen b < Qnum b * QDen a)).
  by destruct (bool_decide _).
Qed.

Lemma foldl_f32_max_Num (x : Q) (l : list Q) :
  ∃ m, foldl f32_max (Num x) (Num <$> l) = Num m ∧
       (m = x ∨ m ∈ l) ∧ (x <= m)%Q ∧ ∀ q, q ∈ l → (q <= m)%Q.
Proof.
  revert x. induction l as [|y l IH]; intros x; simpl.
  - exists x. split; [done|]. split; [by left|]. split; [apply Qle_refl|].
    by intros q ?%elem_of_nil.
  - rewrite f32_max_Num.
    destruct (IH (if bool_decide (x < y)%Q then y else x)) as (m & Hm & Hin & Hle & Hall).
    exists m. split; [done|]. case_bool_decide as Hxy.
    + split; [destruct Hin as [->|?]; right; [by left|by right]|].
      split; [eapply Qle_trans; [by apply Qlt_le_weak|done]|].
      intros q [->|Hq]%elem_of_cons; [done|by apply Hall].
    + apply Qnot_lt_le in Hxy.
      split; [destruct Hin as [->|?]; [by left|right; by right]|].
      split; [done|].
      intros q [->|Hq]%elem_of_cons; [by eapply Qle_trans|by apply Hall].
Qed.

Lemma nan_to_num_value (row : list f32) :
  nan_to_num <$> row = Num <$> (value_or_zero <$> row).
Proof.
  rewrite <- list_fmap_compose. apply list_fmap_ext. by intros _ [|q] _.
Qed.

Lemma max_row_nan_to_num (row : list f32) :
  row ≠ [] →
  ∃ m, max_row (nan_to_num <$> row) = Ok (Num m) ∧
       (∀ q, Num q ∈ row → (q <= m)%Q) ∧
       (Num m ∈ row ∨ (NaN ∈ row ∧ m = 0%Q)).
Proof.
  destruct row as [|x row]; [done|]. intros _.
  rewrite nan_to_num_value, !fmap_cons. unfold max_row.
  destruct (foldl_f32_max_Num (value_or_zero x) (value_or_zero <$> row))
    as (m & Hm & Hin & Hle & Hall).
  exists m. split; [by rewrite Hm|]. split.
  - intros q [[= <-]|Hq]%elem_of_cons; [done|].
    apply Hall. apply list_elem_of_fmap. by exists (Num q).
  - assert (∀ y, y ∈ x :: row → m = value_or_zero y →
              Num m ∈ x :: row ∨ NaN ∈ x :: row ∧ m = 0%Q) as Hcase.
    { intros [|q] Hy ->; simpl; [by right|by left]. }
    destruct Hin as [->|Hin].
    + apply (Hcase x); [by left|done].
    + apply list_elem_of_fmap in Hin as (y & -> & Hy). apply (Hcase y); [by right|done].
Qed.

(** With Dice scores and at least one of them computed, the maximum after
    [nan_to_num] is the maximum of the computed ones. *)
Lemma max_row_nan_safe (row : list f32) :
  dice_valued row → (∃ q, Num q ∈ row) →
  ∃ b, max_row (nan_to_num <$> row) = Ok b ∧ nan_safe_max row b.
Proof.
  intros Hdice [q0 Hq0].
  destruct (max_row_nan_to_num row) as (m & Hm & Hall & Hin).
  { intros ->. by apply elem_of_nil in Hq0. }
  exists (Num m). split; [done|]. exists m. split; [done|]. split; [|done].
  destruct Hin as [Hin|[_ ->]].
  - by exists m.
  - exists q0. split; [done|]. apply Qle_antisym; [by apply Hall|by apply Hdice].
Qed.

Lemma mapM2_total {A B} (g : A → result B) (Q : A → B → Prop) (t : list (list A)) :
  Forall (Forall (fun x => ∃ b, g x = Ok b ∧ Q x b)) t →
  ∃ r, mapM (M := result) (fun row : list A => mapM (M := result) g row) t = Ok r ∧
       Forall2 (Forall2 Q) t r.
Proof.
  assert (∀ row, Forall (fun x => ∃ b, g x = Ok b ∧ Q x b) row →
            ∃ r, mapM (M := result) g row = Ok r ∧ Forall2 Q row r) as Hrow.
  { induction 1 as [|x row (b & Hb & HQ) _ (r & Hr & HQr)]; simpl.
    - exists []. by split.
    - exists (b :: r). rewrite Hb. simpl. rewrite Hr. simpl. split; [done|by constructor]. }
  induction 1 as [|row t Hr _ (r & Hrest & HQ)]; simpl.
  - exists []. by split.
  - destruct (Hrow row Hr) as (b & Hb & HQb).
    exists (b :: r). rewrite Hb. simpl. rewrite Hrest. simpl. split; [done|by constructor].
Qed.

Lemma mapM_ext_result {A B} (f g : A → result B) (l : list A) :
  (∀ x, f x = g x) → mapM (M := result) f l = mapM (M := result) g l.
Proof. intros Hfg. induction l as [|x l IH]; simpl; [done|]. by rewrite Hfg, IH. Qed.

Lemma mapM_fmap_result {A B C} (f : B → result C) (g : A → B) (l : list A) :
  mapM (M := result) f (g <$> l) = mapM (M := result) (f ∘ g) l.
Proof.
  induction l as [|x l IH]; [done|].
  rewrite fmap_cons. cbn [mapM]. by rewrite IH.
Qed.

Lemma metric_best_spec (max_iters : nat) (metric : list (list (list f32))) :
  (0 < max_iters)%nat →
  Forall (Forall (fun row => length row = max_iters)) metric →
  ∃ best,
    metric_best max_iters metric = Ok best ∧
    Forall2 (Forall2 (fun row b =>
      dice_valued row → (∃ q, Num q ∈ row) → nan_safe_max row b)) metric best.
Proof.
  intros Hpos Hshape. unfold metric_best. case_bool_decide as Hiters.
  - unfold map3. rewrite mapM_fmap_result.
    assert (∀ plane : list (list f32),
      ((fun plane => mapM (M := result) max_row plane) ∘ map2 nan_to_num) plane
      = mapM (M := result) (fun row => max_row (nan_to_num <$> row)) plane) as Hext.
    { intros plane. simpl. unfold map2. by rewrite mapM_fmap_result. }
    rewrite (mapM_ext_result _ _ _ Hext).
    apply mapM2_total. eapply Forall_impl; [done|]. intros plane Hplane.
    eapply Forall_impl; [done|]. intros row Hrow. simpl in Hrow.
    destruct (max_row_nan_to_num row) as (m & Hm & _); [destruct row; simpl in *; [lia|done]|].
    exists (Num m). split; [done|]. intros Hdice Hsome.
    destruct (max_row_nan_safe row Hdice Hsome) as (b & Hb & Hsafe). congruence.
  - assert (max_iters = 1%nat) as -> by lia.
    apply mapM2_total. eapply Forall_impl; [done|]. intros plane Hplane.
    eapply Forall_impl; [done|]. intros row Hrow. simpl in Hrow.
    destruct row as [|x [|y row]]; simpl in Hrow; try lia.
    exists x. split; [done|]. intros Hdice [q Hq%list_elem_of_singleton]. subst x.
    exists q. split; [done|]. split.
    + exists q. split; [by left|done].
    + intros q' [= ->]%list_elem_of_singleton. apply Qle_refl.
Qed.

(** A pair with no computed score at all: the maximum of the replaced
    entries is 0 when there are several iterations, and the entry itself,
    NaN, when there is one. *)
Lemma metric_best_of_uncomputed_pair (n : nat) :
  metric_best (S (S n)) [[replicate (S (S n)) NaN]] = Ok [[Num 0]] ∧
  metric_best 1 [[replicate 1 NaN]] = Ok [[NaN]].
Proof.
  split; [|done]. unfold metric_best. rewrite bool_decide_true by lia.
  cbn [map3 map2 fmap list_fmap mapM mbind result_bind mret result_ret].
  replace (max_row _) with (Ok (Num 0)); [done|].
  rewrite fmap_replicate. cbn [nan_to_num replicate max_row].
  f_equal. change (f32_max (Num 0) (Num 0)) with (Num 0).
  induction n as [|n IH]; [done|]. simpl. exact IH.
Qed.

Lemma max_row_replaced (row : list f32) (b : f32) :
  max_row (nan_to_num <$> row) = Ok b → replaced_max row b.
Proof.
  destruct row as [|x row]; [done|].
  rewrite nan_to_num_value, !fmap_cons. unfold max_row. intros [= <-].
  destruct (foldl_f32_max_Num (value_or_zero x) (value_or_zero <$> row))
    as (m & Hm & Hin & Hle & Hall).
  exists m. split; [done|]. split.
  - destruct Hin as [->|Hin]; [exists x; split; [by left|done]|].
    apply list_elem_of_fmap in Hin as (y & -> & Hy). exists y. split; [by right|done].
  - intros y [->|Hy]%elem_of_cons; [done|].
    apply Hall, list_elem_of_fmap. by exists y.
Qed.



Lemma metric_best_Ok (max_iters : nat) (metric : list (list (list f32)))
    (best : list (list f32)) :
  metric_best max_iters metric = Ok best →
  Forall2 (Forall2 (best_over_iterations max_iters)) metric best.
Proof.
  unfold metric_best, best_over_iterations. case_bool_decide as Hiters.
  - unfold map3. rewrite mapM_fmap_result. intros Hbest%mapM_Ok.
    eapply Forall2_impl; [exact Hbest|]. intros plane bs Hplane. simpl in Hplane.
    unfold map2 in Hplane. rewrite mapM_fmap_result in Hplane.
    apply mapM_Ok in Hplane. eapply Forall2_impl; [exact Hplane|].
    intros row b Hrow. by apply max_row_replaced.
  - intros Hbest%mapM_Ok.
    eapply Forall2_impl; [exact Hbest|]. intros plane bs Hplane%mapM_Ok.
    eapply Forall2_impl; [exact Hplane|]. intros row b Hrow. by apply index_Ok.
Qed.

(** ** The end of the run *)

Lemma mask_index_keep_index (max_iters : nat) (metric : list (list (list f32))) :
  is_Ok (mask_index metric (keep_index max_iters metric)).
Proof.
  unfold mask_index, keep_index. rewrite bool_decide_true by by rewrite length_fmap.
  by eexists.
Qed.

Lemma final_block_unbound (metric_dim max_iters : nat) (metric : list (list (list f32))) :
  final_block metric_dim max_iters metric None = Raise UnboundLocalError.
Proof.
  unfold final_block.
  destruct (mask_index_keep_index max_iters metric) as [kept ->]. reflexivity.
Qed.

Lemma final_block_Ok (metric_dim max_iters : nat) (metric : list (list (list f32)))
    (point_num : option (list (list f32))) (lines : list log_line) (b : bundle) :
  final_block metric_dim max_iters metric point_num = Ok (lines, b) →
  ∃ kept pn points best,
    mask_index metric (keep_index max_iters metric) = Ok kept ∧
    point_num = Some pn ∧
    mask_index pn (keep_index max_iters metric) = Ok points ∧
    metric_best max_iters kept = Ok best ∧
    lines = mjoin (imap (fun i (mb : list (list f32) * list f32) =>
                           [ObjectMetric i mb.1; ObjectBest i mb.2]) (zip kept best))
            ++ [BestMetric (nanmean0 metric_dim best) (nanmean (nanmean0 metric_dim best));
                PointNeeded points (nanmean0 metric_dim points)] ∧
    b = {| bundle_metric := kept; bundle_point := points |}.
Proof.
  unfold final_block. intros Hrun.
  apply bind_Ok in Hrun as (kept & Hkept & Hrun).
  apply bind_Ok in Hrun as (pn & Hpn%bound_Ok & Hrun).
  apply bind_Ok in Hrun as (points & Hpoints & Hrun).
  apply bind_Ok in Hrun as (best & Hbest & Hrun).
  injection Hrun as <- <-. by exists kept, pn, points, best.
Qed.

Lemma elem_of_object_lines (kept : list (list (list f32))) (best : list (list f32))
    (tail : list log_line) (x : log_line) :
  x ∈ mjoin (imap (fun i (mb : list (list f32) * list f32) =>
                     [ObjectMetric i mb.1; ObjectBest i mb.2]) (zip kept best)) ++ tail ↔
  (∃ i m bs, kept !! i = Some m ∧ best !! i = Some bs ∧
             (x = ObjectMetric i m ∨ x = ObjectBest i bs)) ∨ x ∈ tail.
Proof.
  rewrite elem_of_app, list_elem_of_join.
  apply or_iff_compat_r. split.
  - intros (l & Hx & Hl). apply elem_of_lookup_imap in Hl as (i & [m bs] & -> & Hi).
    apply lookup_zip_with_Some in Hi as (m' & bs' & [= <- <-] & Hm & Hbs).
    exists i, m, bs. split; [done|]. split; [done|]. simpl in Hx.
    apply elem_of_cons in Hx as [->|Hx]; [by left|].
    apply list_elem_of_singleton in Hx as ->. by right.
  - intros (i & m & bs & Hm & Hbs & Hx).
    exists [ObjectMetric i m; ObjectBest i bs]. split.
    + destruct Hx as [->| ->]; [by left|right; by left].
    + apply elem_of_lookup_imap. exists i, (m, bs). split; [done|].
      apply lookup_zip_with_Some. by exists m, bs.
Qed.

(** With [point_num] bound to one row per volume, the final block runs to
    its end. *)
Lemma final_block_total (metric_dim max_iters : nat) (metric : list (list (list f32)))
    (pn : list (list f32)) :
  (0 < max_iters)%nat →
  Forall (Forall (fun row => length row = max_iters)) metric →
  length pn = length metric →
  is_Ok (final_block metric_dim max_iters metric (Some pn)).
Proof.
  intros Hpos Hshape Hlen. unfold final_block.
  rewrite (drop_rows_spec _ _ Hshape). cbn [mbind result_bind bound].
  assert (is_Ok (mask_index pn (keep_index max_iters metric))) as [points ->].
  { unfold mask_index, keep_index.
    rewrite bool_decide_true by (by rewrite length_fmap). by eexists. }
  cbn [mbind result_bind].
  destruct (metric_best_spec max_iters (filter (fun plane => ¬ all_nan plane) metric) Hpos)
    as (best & -> & _).
  { rewrite Forall_forall in Hshape. apply Forall_forall.
    intros plane [_ Hin]%list_elem_of_filter. by apply Hshape. }
  by eexists.
Qed.



(** C8.  On a gathered metric whose rows all have [max_iters] entries,
    lines 408-409 return exactly the volumes that have an entry that is not
    NaN, in their order, and this is what the rest of the final block works
    on: whenever it runs to its end, the metric it saves is these rows, the
    [object i metric] lines it logs are these rows and no other, the
    [object i best] lines are numbered by them, and the rows of [point_num]
    it saves are selected by the same mask.  It does run to its end when
    [point_num] is bound to one row per volume and [max_iters >= 1]. *)
Theorem all_NaN_volumes_are_dropped (metric_dim max_iters : nat)
    (metric : list (list (list f32))) :
  Forall (Forall (fun row => length row = max_iters)) metric →
  let kept := filter (fun plane => ¬ all_nan plane) metric in
  mask_index metric (keep_index max_iters metric) = Ok kept ∧
  (∀ plane, plane ∈ kept ↔
     plane ∈ metric ∧ ∃ row x, row ∈ plane ∧ x ∈ row ∧ isnan x = false) ∧
  (∀ pn, (0 < max_iters)%nat → length pn = length metric →
     is_Ok (final_block metric_dim max_iters metric (Some pn))) ∧
  ∀ point_num lines b,
    final_block metric_dim max_iters metric point_num = Ok (lines, b) →
    bundle_metric b = kept ∧
    (∀ i m, ObjectMetric i m ∈ lines ↔ kept !! i = Some m) ∧
    (∀ i bs, ObjectBest i bs ∈ lines → is_Some (kept !! i)) ∧
    ∃ pn, point_num = Some pn ∧
      mask_index pn (keep_index max_iters metric) = Ok (bundle_point b) ∧
      length (bundle_point b) = length kept.
Proof.
  intros Hshape kept. pose proof (drop_rows_spec max_iters metric Hshape) as Hdrop.
  split; [exact Hdrop|]. split.
  { intros plane. unfold kept. rewrite list_elem_of_filter, not_all_nan. tauto. }
  split; [intros pn Hpos Hlen; by apply final_block_total|].
  intros point_num lines b Hrun.
  apply final_block_Ok in Hrun
    as (kept' & pn & points & best & Hkept & -> & Hpoints & Hbest & -> & ->).
  assert (kept' = kept) as -> by (rewrite Hdrop in Hkept; by injection Hkept).
  assert (length kept = length best) as Hlen.
  { apply metric_best_Ok in Hbest. by apply Forall2_length in Hbest. }
  split; [done|]. split; [|split].
  - intros i m. rewrite elem_of_object_lines. split.
    + intros [(j & m' & bs & Hm & _ & [[= -> ->]|[=]])|Htail]; [done|].
      apply elem_of_cons in Htail as [[=]|Htail].
      by apply list_elem_of_singleton in Htail.
    + intros Hm. left. destruct (lookup_lt_is_Some_2 best i) as [bs Hbs].
      { rewrite <- Hlen. by eapply lookup_lt_Some. }
      exists i, m, bs. split; [done|]. split; [done|]. by left.
  - intros i bs. rewrite elem_of_object_lines.
    intros [(j & m' & bs' & Hm & _ & [[=]|[= -> ->]])|Htail]; [by eexists|].
    apply elem_of_cons in Htail as [[=]|Htail].
    by apply list_elem_of_singleton in Htail.
  - exists pn. split; [done|]. split; [done|]. simpl.
    exact (mask_index_length _ _ _ _ _ Hpoints Hdrop).
Qed.

Section run_facts.
Context `{Monai} `{Scipy} `{Predictor}.

Lemma evaluate_all_workers (multi : bool) (label_set : list Z) (max_iters : nat)
    (shards : list (list val_data)) (workers : list locals) :
  evaluate_all multi label_set max_iters shards = Ok workers →
  length workers = length shards ∧
  ∀ rank L, workers !! rank = Some L →
    ∃ obj_num shard,
      obj_num_of multi shards rank = Ok obj_num ∧ shards !! rank = Some shard ∧
      evaluate label_set max_iters obj_num shard = Ok L.
Proof.
  unfold evaluate_all. intros Hall%mapM_Ok. split.
  - apply Forall2_length in Hall. by rewrite length_seq in Hall.
  - intros rank L HL.
    destruct (Forall2_lookup_r _ _ _ _ _ Hall HL) as (r & Hr & Hrun).
    apply lookup_seq in Hr as [-> _]. simpl in Hrun.
    apply bind_Ok in Hrun as (obj_num & Hnum & Hrun).
    apply bind_Ok in Hrun as (shard & Hshard%index_Ok & Hrun).
    by exists obj_num, shard.
Qed.

End run_facts.

(** C2, as the code has it.  No run saves the bundle: every run ends with
    an exception, and a run whose evaluation and gathering succeed ends at
    line 410 with [UnboundLocalError], because no statement of [run] binds
    [point_num] before it is read there.  The validation lines, sorted by
    their text and logged at line 396, are all the run leaves behind. *)
Theorem run_never_saves_the_bundle `{Monai} `{Scipy} `{Predictor} `{Formatting}
    (multi : bool) (label_set : list Z) (max_iters : nat) (shards : list (list val_data)) :
  saved (run multi label_set max_iters shards) = None ∧
  is_Some (raised (run multi label_set max_iters shards)) ∧
  (∀ workers L G,
     evaluate_all multi label_set max_iters shards = Ok workers →
     workers !! 0%nat = Some L →
     gathered_metric multi workers = Ok G →
     run multi label_set max_iters shards
     = {| logged := sorted_lines (log_string L); saved := None;
          raised := Some UnboundLocalError |}).
Proof.
  assert (∀ workers L,
    evaluate_all multi label_set max_iters shards = Ok workers →
    workers !! 0%nat = Some L → point_num L = None) as Hunbound.
  { intros workers L Hall HL.
    apply evaluate_all_workers in Hall as [_ Hall].
    destruct (Hall _ _ HL) as (obj_num & shard & _ & _ & Hrun).
    by apply evaluate_frame in Hrun as [? _]. }
  unfold run.
  destruct (evaluate_all multi label_set max_iters shards) as [workers|e] eqn:Hall;
    [|split; [done|split; [by eexists|by intros ? ? ? [=]]]].
  unfold index. destruct (workers !! 0%nat) as [L|] eqn:HL;
    [|split; [done|split; [by eexists|intros ? ? ? [= <-] ?; congruence]]].
  rewrite (Hunbound workers L eq_refl HL).
  destruct (gathered_metric multi workers) as [G|e] eqn:HG; simpl.
  - rewrite final_block_unbound.
    split; [done|]. split; [by eexists|].
    intros ? ? ? [= <-] HL' _. rewrite HL in HL'. by injection HL' as <-.
  - split; [done|]. split; [by eexists|].
    intros ? ? ? [= <-] _ HG'. congruence.
Qed.

(** ** Sizing the metric across workers *)

Lemma max_list_spec (l : list nat) (M : nat) :
  max_list l = Ok M → M ∈ l ∧ ∀ x, x ∈ l → (x ≤ M)%nat.
Proof.
  destruct l as [|x l]; [done|]. simpl. intros [= <-].
  revert x. induction l as [|y l IH]; intros x; simpl.
  - split; [by left|]. by intros ? ->%list_elem_of_singleton.
  - destruct (IH (x `max` y)%nat) as [Hin Hle]. split.
    + apply elem_of_cons in Hin as [Hin|Hin]; [|right; by right].
      rewrite Hin. destruct (Nat.max_spec x y) as [[_ ->]|[_ ->]]; [right|]; by left.
    + intros z Hz.
      assert (x `max` y ≤ foldl Nat.max (x `max` y) l)%nat as Hxy by (apply Hle; by left).
      apply elem_of_cons in Hz as [->|[->|Hz]%elem_of_cons]; [lia|lia|].
      apply Hle. by right.
Qed.

Lemma shape3_new_metric (obj_num metric_dim max_iters : nat) :
  shape3 (new_metric obj_num metric_dim max_iters)
  = replicate obj_num (replicate metric_dim max_iters).
Proof.
  rewrite new_metric_NaN. unfold shape3, shape2.
  by rewrite !fmap_replicate, length_replicate.
Qed.

Lemma all_nan_replicate (metric_dim max_iters : nat) :
  all_nan (replicate metric_dim (replicate max_iters NaN)).
Proof. unfold all_nan. apply Forall_replicate. by apply Forall_replicate. Qed.

(** C9.  When there are several GPUs and the evaluation of every worker
    completes, there is one number [M], the maximum of the shard sizes, such
    that: every worker allocates [M] rows; every worker's metric has the
    shape [M, metric_dim, max_iters], so the all-gather accepts the tensors
    and rank 0 stacks them; and on every worker the rows from its shard size
    up to [M] are still all NaN, sit at position [rank * M + a] of the
    stacked tensor, and are not kept by the row drop of line 408. *)
Theorem workers_allocate_the_largest_shard `{Monai} `{Scipy} `{Predictor}
    (label_set : list Z) (max_iters : nat) (shards : list (list val_data))
    (workers : list locals) :
  evaluate_all true label_set max_iters shards = Ok workers →
  ∃ M : nat,
    (shards ≠ [] → M ∈ length <$> shards) ∧
    (∀ shard, shard ∈ shards → (length shard ≤ M)%nat) ∧
    (∀ rank, (rank < length shards)%nat → obj_num_of true shards rank = Ok M) ∧
    (∀ L, L ∈ workers →
       shape3 (metric L) = replicate M (replicate (length label_set - 1)%nat max_iters)) ∧
    all_gather_tensors (metric <$> workers) = Ok (metric <$> workers) ∧
    gathered_metric true workers = Ok (vstack (metric <$> workers)) ∧
    (∀ rank shard L a,
       shards !! rank = Some shard → workers !! rank = Some L →
       (length shard ≤ a < M)%nat →
       let blank := replicate (length label_set - 1)%nat (replicate max_iters NaN) in
       metric L !! a = Some blank ∧
       vstack (metric <$> workers) !! (rank * M + a)%nat = Some blank ∧
       keep_index max_iters (vstack (metric <$> workers)) !! (rank * M + a)%nat = Some false).
Proof.
  intros Hall. apply evaluate_all_workers in Hall as [Hlen Hall].
  destruct (max_list (length <$> shards)) as [M|e] eqn:HM; cycle 1.
  { destruct shards; [|done]. destruct workers; [|done]. exists 0%nat.
    repeat split; try done; try (intros; simpl in *; lia).
    - by intros ? ?%elem_of_nil.
    - by intros ? ?%elem_of_nil. }
  exists M. apply max_list_spec in HM as HM'. destruct HM' as [HMin HMle].
  assert (∀ rank, (rank < length shards)%nat → obj_num_of true shards rank = Ok M) as Hnum.
  { intros rank Hrank. unfold obj_num_of, index.
    destruct (lookup_lt_is_Some_2 shards rank Hrank) as [shard ->]. done. }
  assert (∀ rank L, workers !! rank = Some L →
    ∃ shard, shards !! rank = Some shard ∧
      shape3 (metric L) = replicate M (replicate (length label_set - 1)%nat max_iters) ∧
      ∀ a, (length shard ≤ a)%nat →
        metric L !! a = new_metric M (length label_set - 1) max_iters !! a) as Hworker.
  { intros rank L HL. destruct (Hall _ _ HL) as (obj_num & shard & Hobj & Hshard & Hrun).
    rewrite Hnum in Hobj by by eapply lookup_lt_Some. injection Hobj as <-.
    apply evaluate_frame in Hrun as (_ & Hshape & Hrows).
    exists shard. by rewrite <- shape3_new_metric. }
  assert (∀ L, L ∈ workers →
    shape3 (metric L) = replicate M (replicate (length label_set - 1)%nat max_iters)) as Hshape.
  { intros L [rank HL]%list_elem_of_lookup.
    by destruct (Hworker _ _ HL) as (? & _ & ? & _). }
  assert (all_gather_tensors (metric <$> workers) = Ok (metric <$> workers)) as Hgather.
  { unfold all_gather_tensors. destruct workers as [|L0 workers']; [done|].
    rewrite fmap_cons. rewrite bool_decide_true; [done|].
    rewrite Forall_fmap, Forall_forall. intros L HL. simpl.
    rewrite !Hshape; [done|by left|by right]. }
  split; [done|]. split.
  { intros shard Hs. apply HMle. apply list_elem_of_fmap. by exists shard. }
  split; [done|]. split; [done|]. split; [done|]. split.
  { unfold gathered_metric. by rewrite Hgather. }
  intros rank shard L a Hshard HL Ha blank.
  destruct (Hworker _ _ HL) as (shard' & Hshard' & _ & Hrows).
  rewrite Hshard in Hshard'. injection Hshard' as <-.
  assert (metric L !! a = Some blank) as Hrow.
  { rewrite Hrows by lia. rewrite new_metric_NaN. apply lookup_replicate. split; [done|lia]. }
  assert (vstack (metric <$> workers) !! (rank * M + a)%nat = Some blank) as Hstack.
  { unfold vstack. apply (join_lookup_Some_same_length' M); [|lia|].
    - rewrite Forall_fmap, Forall_forall. intros L' HL'. simpl.
      apply Hshape in HL'. apply (f_equal length) in HL'.
      unfold shape3 in HL'. by rewrite length_fmap, length_replicate in HL'.
    - exists (metric L). split; [|done]. by rewrite list_lookup_fmap, HL. }
  split; [done|]. split; [done|].
  unfold keep_index. rewrite list_lookup_fmap, Hstack. simpl. f_equal.
  apply not_true_iff_false. intros Hkeep.
  apply keep_plane_spec in Hkeep; [|by apply Forall_replicate, length_replicate].
  apply Hkeep, all_nan_replicate.
Qed.

(** ** Iterations after the first *)

(** C1, as the code has it.  In an iteration after the first the slice
    of lowest Dice is read and a point is selected in it, but line 317
    replaces that point by the seed of the whole volume before it is used.
    So the worst frame has no influence on the outcome of the iteration: the
    prompt appended before the correction is again [(c, r)] for the seed
    [(r, c, d)] of the volume, with label 1, and the annotation frame is
    again [d]. *)
Theorem later_iteration_ignores_the_worst_frame `{Monai} `{Scipy} `{Predictor}
    (label : list (list (list Z))) (lowerest lowerest' : option nat)
    (s s1 s2 : inference_state) (q p1 p2 : prompts) :
  later_iteration label lowerest s (Some q) = Ok (s1, p1) →
  later_iteration label lowerest' s (Some q) = Ok (s2, p2) →
  (s1, p1) = (s2, p2) ∧
  ∃ point c r ps ls,
    get_points_from_label label = Ok point ∧
    point !! 1%nat = Some c ∧ point !! 0%nat = Some r ∧
    last point = Some (ann_frame_idx p1) ∧
    _point p1 = _point q ++ [[c; r]] ++ ps ∧
    _label p1 = _label q ++ [1] ++ ls.
Proof.
  intros Hrun Hrun'. split.
  - unfold later_iteration in Hrun, Hrun'.
    apply bind_Ok in Hrun as (d & _ & Hrun). apply bind_Ok in Hrun as (worst & _ & Hrun).
    apply bind_Ok in Hrun as (unused & _ & Hrun).
    apply bind_Ok in Hrun' as (d' & _ & Hrun'). apply bind_Ok in Hrun' as (worst' & _ & Hrun').
    apply bind_Ok in Hrun' as (unused' & _ & Hrun').
    rewrite Hrun in Hrun'. congruence.
  - apply later_iteration_Ok in Hrun
      as (q0 & point & c & r & ps & ls & [= <-] & Hseed & Hc & Hr & Hlast & HP & HL & _).
    exists point, c, r, ps, ls. rewrite HP, HL, <- !app_assoc. by repeat split.
Qed.

(** On the volume [Demo.label] the worst frame after iteration 0 is
    frame 1, whose own seed is the pixel (row 0, column 2); iteration 1
    appends the prompt (1, 0) of the volume seed on frame 0 instead. *)
Lemma later_iteration_ignores_the_worst_frame_witness :
  lowerest_dice_index
    <$> evaluate (H := Reference.monai) (H0 := Reference.scipy) (H1 := Demo.predictor)
          [0; 1] 1 1 [Demo.volume]
  = Ok (Some 1%nat) ∧
  (slice ← select_last3 Demo.label 1;
   get_points_from_label_slice (H := Reference.monai) slice) = Ok [0; 2] ∧
  get_points_from_label (H := Reference.monai) Demo.label = Ok [0; 1; 0] ∧
  later_iteration (H := Reference.monai) (H0 := Reference.scipy) (H1 := Demo.predictor)
    Demo.label (Some 1%nat) () (Some {| _point := [[1; 0]]; _label := [1]; ann_frame_idx := 0 |})
  = Ok ((), {| _point := [[1; 0]; [1; 0]]; _label := [1; 1]; ann_frame_idx := 0 |}) ∧
  (((), {| _point := [[1; 0]; [1; 0]]; _label := [1; 1]; ann_frame_idx := 0 |})
   = ((), {| _point := [[1; 0]; [1; 0]]; _label := [1; 1]; ann_frame_idx := 0 |}) ∧
   ∃ point c r ps ls,
     get_points_from_label (H := Reference.monai) Demo.label = Ok point ∧
     point !! 1%nat = Some c ∧ point !! 0%nat = Some r ∧
     last point = Some 0 ∧
     [[1; 0]; [1; 0]] = [[1; 0]] ++ [[c; r]] ++ ps ∧
     [1; 1] = [1] ++ [1] ++ ls).
Proof.
  split; [vm_compute; reflexivity|]. split; [vm_compute; reflexivity|].
  split; [vm_compute; reflexivity|]. split; [vm_compute; reflexivity|].
  apply (later_iteration_ignores_the_worst_frame
           (H := Reference.monai) (H0 := Reference.scipy) (H1 := Demo.predictor)
           Demo.label (Some 1%nat) (Some 0%nat) ()
           () () {| _point := [[1; 0]]; _label := [1]; ann_frame_idx := 0 |}
           {| _point := [[1; 0]; [1; 0]]; _label := [1; 1]; ann_frame_idx := 0 |}
           {| _point := [[1; 0]; [1; 0]]; _label := [1; 1]; ann_frame_idx := 0 |});
    vm_compute; reflexivity.
Defined.

(** The run on [Demo.volume] with one GPU: the validation line is logged,
    then line 410 raises and nothing is saved. *)
Lemma run_never_saves_the_bundle_witness :
  run (H := Reference.monai) (H0 := Reference.scipy) (H1 := Demo.predictor)
    (H2 := Reference.formatting) false [0; 1] 1 [[Demo.volume]]
  = {| logged := [ValidationDice 0 1 1 "case0/volume.nii" [Num (4 # 5)]];
       saved := None; raised := Some UnboundLocalError |}.
Proof.
  pose proof (run_never_saves_the_bundle
                (H := Reference.monai) (H0 := Reference.scipy) (H1 := Demo.predictor)
                (H2 := Reference.formatting) false [0; 1] 1 [[Demo.volume]])
    as (_ & _ & Hrun).
  match eval vm_compute in
    (evaluate_all (H := Reference.monai) (H0 := Reference.scipy) (H1 := Demo.predictor)
       false [0; 1] 1 [[Demo.volume]]) with
  | Ok [?L] =>
      rewrite (Hrun [L] L (metric L)); [reflexivity | vm_compute; reflexivity
                                       | reflexivity | vm_compute; reflexivity]
  end.
Defined.

(** ** The statements at concrete inputs *)


(** Label 7 does not occur in [Demo.volume]. *)
Lemma absent_label_raises_IndexError_witness :
  get_points_from_label (H := Reference.monai) (binary_label Demo.volume 7) = Raise IndexError ∧
  object_loop (H := Reference.monai) (H0 := Reference.scipy) (H1 := Demo.predictor)
    Demo.volume [0; 7] 1 1 1 1 Demo.start
  = Raise IndexError.
Proof.
  refine (proj2 (absent_label_raises_IndexError
           (H := Reference.monai) (H0 := Reference.scipy) (H1 := Demo.predictor)
           Demo.volume [0; 7] 7 1 1 1 1 Demo.start
           ReferenceFacts.lcc3_meets_contract _ _ _ _)).
  - reflexivity.
  - repeat constructor; discriminate.
  - by eexists.
  - lia.
Defined.

(** A frame predicted everywhere against an empty ground truth: the
    false-positive half appends the pixel nearest to the first prompt. *)
Lemma correction_only_appends_witness :
  get_points_from_false_pred (H := Reference.scipy) Demo.full_pred Demo.empty_gt [[3; 4]] [1]
  = Ok ([[3; 4]; [10; 10]], [1; 0]) ∧
  [[3; 4]] `prefix_of` [[3; 4]; [10; 10]] ∧ [1] `prefix_of` [1; 0] ∧
  (length [[3; 4]] = length [1] → length [[3; 4]; [10; 10]] = length [1; 0]).
Proof.
  assert (get_points_from_false_pred (H := Reference.scipy)
            Demo.full_pred Demo.empty_gt [[3; 4]] [1]
          = Ok ([[3; 4]; [10; 10]], [1; 0])) as Hrun by (vm_compute; reflexivity).
  split; [exact Hrun|].
  exact (proj1 (correction_only_appends
                  (H := Reference.monai) (H0 := Reference.scipy) (H1 := Demo.predictor))
           Demo.full_pred Demo.empty_gt [[3; 4]] [[3; 4]; [10; 10]] [1] [1; 0] Hrun).
Defined.

(** C3, as stated, fails: both passes of [Demo] yield frame 1, and the
    merged segments hold the mask of the reverse pass for it, not the one
    of the forward pass. *)
Lemma forward_pass_does_not_win : ¬ forward_pass_wins Demo.forward Demo.backward.
Proof.
  intros Hwins.
  assert (Demo.after_backward !! 1 = Demo.after_forward !! 1) as Heq.
  { apply Hwins; [vm_compute; reflexivity|vm_compute; reflexivity| |]; by left. }
  apply (f_equal (fun o : option (gmap Z (list (list (list bool)))) => d ← o; d !! 1)) in Heq.
  vm_compute in Heq. discriminate.
Qed.

Lemma backward_pass_overwrites_forward_witness :
  collect_segments Demo.forward ∅ = Ok Demo.after_forward ∧
  collect_segments Demo.backward Demo.after_forward = Ok Demo.after_backward ∧
  ∃ mb,
    collect_segments Demo.backward ∅ = Ok mb ∧
    (∀ k, is_Some (mb !! k) ↔ k ∈ frames_of Demo.backward) ∧
    (∀ k, k ∈ frames_of Demo.backward → Demo.after_backward !! k = mb !! k) ∧
    (∀ k, k ∉ frames_of Demo.backward → Demo.after_backward !! k = Demo.after_forward !! k).
Proof.
  assert (collect_segments Demo.forward ∅ = Ok Demo.after_forward) as Hfw
    by (vm_compute; reflexivity).
  assert (collect_segments Demo.backward Demo.after_forward = Ok Demo.after_backward) as Hbw
    by (vm_compute; reflexivity).
  split; [exact Hfw|]. split; [exact Hbw|].
  exact (backward_pass_overwrites_forward Demo.forward Demo.backward
           Demo.after_forward Demo.after_backward Hfw Hbw).
Defined.

(** [Demo.scores] with [Demo.points]: the first volume is kept and
    reported, the second is dropped. *)
Lemma all_NaN_volumes_are_dropped_witness :
  ∃ lines b,
    final_block 2 2 Demo.scores (Some Demo.points) = Ok (lines, b) ∧
    mask_index Demo.scores (keep_index 2 Demo.scores)
    = Ok [[[Num (1 # 2); NaN]; [Num (1 # 4); Num (3 # 4)]]] ∧
    bundle_metric b = [[[Num (1 # 2); NaN]; [Num (1 # 4); Num (3 # 4)]]] ∧
    (∀ i m, ObjectMetric i m ∈ lines ↔
       [[[Num (1 # 2); NaN]; [Num (1 # 4); Num (3 # 4)]]] !! i = Some m).
Proof.
  assert (Forall (Forall (fun row : list f32 => length row = 2%nat)) Demo.scores) as Hshape
    by (repeat constructor).
  destruct (final_block 2 2 Demo.scores (Some Demo.points)) as [[lines b]|e] eqn:Hrun;
    [|vm_compute in Hrun; discriminate].
  exists lines, b. split; [reflexivity|].
  destruct (all_NaN_volumes_are_dropped 2 2 Demo.scores Hshape) as (Hdrop & _ & _ & Hfinal).
  destruct (Hfinal _ _ _ Hrun) as (Hsaved & Hlines & _).
  assert (mask_index Demo.scores (keep_index 2 Demo.scores)
          = Ok [[[Num (1 # 2); NaN]; [Num (1 # 4); Num (3 # 4)]]]) as Hkept
    by (vm_compute; reflexivity).
  split; [exact Hkept|].
  split; [exact Hsaved | exact Hlines].
Defined.



(** Two workers, two volumes on rank 0 and one on rank 1: both allocate
    two rows, and the second row of rank 1 is dropped. *)
Lemma workers_allocate_the_largest_shard_witness :
  ∃ workers,
    evaluate_all (H := Reference.monai) (H0 := Reference.scipy) (H1 := Demo.predictor)
      true [0; 1] 1 Demo.shards = Ok workers ∧
    ∃ M : nat,
      (Demo.shards ≠ [] → M ∈ length <$> Demo.shards) ∧
      (∀ shard, shard ∈ Demo.shards → (length shard ≤ M)%nat) ∧
      (∀ rank, (rank < length Demo.shards)%nat → obj_num_of true Demo.shards rank = Ok M) ∧
      (∀ L, L ∈ workers → shape3 (metric L) = replicate M (replicate 1%nat 1%nat)) ∧
      all_gather_tensors (metric <$> workers) = Ok (metric <$> workers) ∧
      gathered_metric true workers = Ok (vstack (metric <$> workers)) ∧
      (∀ rank shard L a,
         Demo.shards !! rank = Some shard → workers !! rank = Some L →
         (length shard ≤ a < M)%nat →
         metric L !! a = Some [[NaN]] ∧
         vstack (metric <$> workers) !! (rank * M + a)%nat = Some [[NaN]] ∧
         keep_index 1 (vstack (metric <$> workers)) !! (rank * M + a)%nat = Some false).
Proof.
  match eval vm_compute in
    (evaluate_all (H := Reference.monai) (H0 := Reference.scipy) (H1 := Demo.predictor)
       true [0; 1] 1 Demo.shards) with
  | Ok ?w =>
      exists w; split; [vm_compute; reflexivity|];
      apply (workers_allocate_the_largest_shard
               (H := Reference.monai) (H0 := Reference.scipy) (H1 := Demo.predictor)
               [0; 1] 1 Demo.shards w);
      vm_compute; reflexivity
  end.
Defined.

(** The same frame as above with the roles exchanged: nothing is
    predicted and everything is ground truth, so only the false-negative
    half appends. *)
Example correction_of_a_missed_frame :
  get_points_from_false_pred (H := Reference.scipy) Demo.empty_gt Demo.full_pred [[3; 4]] [1]
  = Ok ([[3; 4]; [10; 10]], [1; 1]).
Proof. vm_compute. reflexivity. Qed.

(** A frame predicted everywhere against an empty ground truth, first
    prompt (3, 4): the false-positive half appends (10, 10) with label 0,
    the false-negative half nothing. *)
Lemma correction_appends_nearest_error_pixels_witness :
  ∃ ps1 ls1 ps2 ls2,
    get_points_from_false_pred (H := Reference.scipy) Demo.full_pred Demo.empty_gt [[3; 4]] [1]
    = Ok ([[3; 4]] ++ ps1 ++ ps2, [1] ++ ls1 ++ ls2) ∧
    correction (eroded_false_positive (H := Reference.scipy) Demo.full_pred Demo.empty_gt)
      [4; 3] 0 ps1 ls1 ∧
    correction (eroded_false_negative (H := Reference.scipy) Demo.full_pred Demo.empty_gt)
      [4; 3] 1 ps2 ls2.
Proof.
  exact (proj1 (correction_appends_nearest_error_pixels (H := Reference.scipy)
                  Demo.full_pred Demo.empty_gt 3 4 [] [] [1])).
Defined.

(** * Further properties of the code *)

(** ** Where the correction prompts lie *)

Lemma nearest_to_first_Ok (E _point : list (list Z)) (p : list Z) :
  nearest_to_first E _point = Ok p → p ∈ E.
Proof.
  unfold nearest_to_first. intros Hrun.
  apply bind_Ok in Hrun as (p0 & _ & Hrun).
  apply bind_Ok in Hrun as (a & _ & Hrun).
  apply bind_Ok in Hrun as (b & _ & Hrun).
  destruct (torch_sort Z.le _) as [vals idxs].
  apply bind_Ok in Hrun as (i & _ & Hrun%index_Ok).
  by eapply list_elem_of_lookup_2.
Qed.

Section correction_region.
Context `{Scipy}.

(** One half of the correction, when it returns: what it appended is a
    pixel of its eroded region, stored as (column, row). *)
Lemma correction_half_Ok (E : list (list Z)) (pred gt : list (list bool)) (lab : Z)
    (P P' : list (list Z)) (L L' : list Z) :
  (E = eroded_false_positive pred gt ∨ E = eroded_false_negative pred gt) →
  (if bool_decide (0 < length E)%nat then
     npoint ← nearest_to_first E P;
     x ← index npoint 1;
     y ← index npoint 0;
     mret (P ++ [[x; y]], L ++ [lab])
   else mret (P, L)) = Ok (P', L') →
  (E = [] ∧ P' = P ∧ L' = L) ∨
  (∃ r c, [r; c] ∈ E ∧ P' = P ++ [[c; r]] ∧ L' = L ++ [lab]).
Proof.
  intros HE Hrun. case_bool_decide as Hlen.
  - right. apply bind_Ok in Hrun as (p & Hp%nearest_to_first_Ok & Hrun).
    assert (∃ r c, p = [r; c]) as (r & c & ->).
    { destruct HE as [HE|HE]; rewrite HE in Hp;
        apply elem_of_nonzero2 in Hp as (i & j & ? & _ & _ & ->); eauto. }
    simpl in Hrun. injection Hrun as <- <-. by exists r, c.
  - left. injection Hrun as <- <-. split; [|done].
    destruct E; [done|simpl in Hlen; lia].
Qed.

Lemma eroded_false_positive_pixel (pred gt : list (list bool)) (p : list Z) :
  erosion_contract → p ∈ eroded_false_positive pred gt →
  ∃ r c : nat, p = [Z.of_nat r; Z.of_nat c] ∧
    pixel pred r c = Some true ∧ pixel gt r c = Some false.
Proof.
  intros Hshrink Hp. apply Hshrink in Hp.
  apply elem_of_nonzero2 in Hp as (i & j & row & Hrow & Hj & ->).
  exists i, j. split; [done|].
  assert ((row ← logical_and2 (logical_not2 gt) pred !! i; row !! j) = Some true) as Hij
    by by rewrite Hrow.
  apply lookup2_logical_and2 in Hij as (x & y & Hx%lookup2_logical_not2 & Hy & Hxy).
  symmetry in Hxy. apply andb_true_iff in Hxy as [-> ->]. by split.
Qed.

Lemma eroded_false_negative_pixel (pred gt : list (list bool)) (p : list Z) :
  erosion_contract → p ∈ eroded_false_negative pred gt →
  ∃ r c : nat, p = [Z.of_nat r; Z.of_nat c] ∧
    pixel pred r c = Some false ∧ pixel gt r c = Some true.
Proof.
  intros Hshrink Hp. apply Hshrink in Hp.
  apply elem_of_nonzero2 in Hp as (i & j & row & Hrow & Hj & ->).
  exists i, j. split; [done|].
  assert ((row ← logical_and2 (logical_not2 pred) gt !! i; row !! j) = Some true) as Hij
    by by rewrite Hrow.
  apply lookup2_logical_and2 in Hij as (x & y & Hx%lookup2_logical_not2 & Hy & Hxy).
  symmetry in Hxy. apply andb_true_iff in Hxy as [-> ->]. by split.
Qed.

End correction_region.

(** X1.  When the erosion only removes pixels, every prompt that a
    returning call of [get_points_from_false_pred] appends marks an error of
    the prediction it was given: a prompt with label 0 sits on a pixel that
    is predicted and not in the ground truth, a prompt with label 1 on a
    pixel of the ground truth that is not predicted. *)
Theorem correction_prompts_mark_errors `{Scipy} (pred gt : list (list bool))
    (P P' : list (list Z)) (Lb Lb' : list Z) :
  erosion_contract →
  get_points_from_false_pred pred gt P Lb = Ok (P', Lb') →
  ∃ ps ls, P' = P ++ ps ∧ Lb' = Lb ++ ls ∧ Forall2 (marks_error pred gt) ps ls.
Proof.
  intros Hshrink Hrun. unfold get_points_from_false_pred in Hrun.
  apply bind_Ok in Hrun as ([P1 L1] & Hfp & Hfn).
  apply (correction_half_Ok (eroded_false_positive pred gt) pred gt) in Hfp; [|by left].
  apply (correction_half_Ok (eroded_false_negative pred gt) pred gt) in Hfn; [|by right].
  assert (∃ ps1 ls1, P1 = P ++ ps1 ∧ L1 = Lb ++ ls1 ∧ Forall2 (marks_error pred gt) ps1 ls1)
    as (ps1 & ls1 & -> & -> & H1).
  { destruct Hfp as [(_ & -> & ->)|(r & c & Hin & -> & ->)].
    - exists [], []. rewrite !app_nil_r. by repeat split.
    - exists [[c; r]], [0]. repeat split. constructor; [|done].
      apply eroded_false_positive_pixel in Hin as (i & j & [= -> ->] & Hp & Hg); [|done].
      exists i, j. split; [done|]. by left. }
  assert (∃ ps2 ls2, P' = (P ++ ps1) ++ ps2 ∧ Lb' = (Lb ++ ls1) ++ ls2
                     ∧ Forall2 (marks_error pred gt) ps2 ls2)
    as (ps2 & ls2 & -> & -> & H2).
  { destruct Hfn as [(_ & -> & ->)|(r & c & Hin & -> & ->)].
    - exists [], []. rewrite !app_nil_r. by repeat split.
    - exists [[c; r]], [1]. repeat split. constructor; [|done].
      apply eroded_false_negative_pixel in Hin as (i & j & [= -> ->] & Hp & Hg); [|done].
      exists i, j. split; [done|]. by right. }
  exists (ps1 ++ ps2), (ls1 ++ ls2). rewrite !app_assoc.
  repeat split. by apply Forall2_app.
Qed.

(** X2.  When the erosion only removes pixels, a prediction equal to the
    ground truth gets no correction: the call returns the prompts and labels
    it was given, whatever they are. *)
Theorem exact_prediction_gets_no_correction `{Scipy} (m : list (list bool))
    (P : list (list Z)) (Lb : list Z) :
  erosion_contract → get_points_from_false_pred m m P Lb = Ok (P, Lb).
Proof.
  intros Hshrink.
  assert (eroded_false_positive m m = []) as Hfp.
  { apply list_empty_iff_no_elem. intros p Hp.
    apply eroded_false_positive_pixel in Hp as (r & c & _ & Ht & Hf); [|done]. congruence. }
  assert (eroded_false_negative m m = []) as Hfn.
  { apply list_empty_iff_no_elem. intros p Hp.
    apply eroded_false_negative_pixel in Hp as (r & c & _ & Ht & Hf); [|done]. congruence. }
  by apply get_points_from_false_pred_empty.
Qed.

(** X3.  [get_points_from_false_pred] reads [_point[0]] without checking
    that there is one: called with no prompt, it raises [IndexError] as soon
    as one of the two eroded regions is not empty. *)
Theorem correction_without_prompts_raises `{Scipy} (pred gt : list (list bool))
    (Lb : list Z) :
  eroded_false_positive pred gt ≠ [] ∨ eroded_false_negative pred gt ≠ [] →
  get_points_from_false_pred pred gt [] Lb = Raise IndexError.
Proof.
  intros Hregion. unfold get_points_from_false_pred.
  fold (eroded_false_positive pred gt). fold (eroded_false_negative pred gt).
  destruct (eroded_false_positive pred gt) as [|e E] eqn:Hfp; simpl.
  - destruct Hregion as [?|Hfn]; [done|].
    destruct (eroded_false_negative pred gt) as [|e E]; [done|]. reflexivity.
  - reflexivity.
Qed.

(** The stand-in erosion meets the contract: the 20 x 20 structuring
    element has its centre set, so an eroded pixel was set before. *)
Lemma reference_erosion_meets_contract : erosion_contract (H := Reference.scipy).
Proof.
  intros m p Hp. simpl in Hp. unfold Reference.erosion in Hp.
  apply elem_of_nonzero2 in Hp as (i & j & row' & Hrow' & Hj & ->).
  rewrite list_lookup_imap in Hrow'. apply fmap_Some in Hrow' as (row & Hrow & ->).
  rewrite list_lookup_imap in Hj. apply fmap_Some in Hj as (x & Hx & Hall).
  symmetry in Hall. rewrite forallb_forall in Hall.
  change (length (ones 20 20) / 2)%nat with 10%nat in Hall.
  change (length (default [] (head (ones 20 20))) / 2)%nat with 10%nat in Hall.
  set (g := fun (a b : nat) (on : bool) =>
              implb on (Reference.at2 m (Z.of_nat i + Z.of_nat a - Z.of_nat 10)
                          (Z.of_nat j + Z.of_nat b - Z.of_nat 10))).
  set (f := fun (a : nat) (srow : list bool) => imap (g a) srow).
  assert (Reference.at2 m (Z.of_nat i + Z.of_nat 10 - Z.of_nat 10)
            (Z.of_nat j + Z.of_nat 10 - Z.of_nat 10) = true) as Hat.
  { apply (Hall (g 10%nat 10%nat true)).
    apply list_elem_of_In, list_elem_of_join. exists (f 10%nat (replicate 20 true)). split.
    - exact (elem_of_lookup_imap_2 (g 10%nat) (replicate 20 true) true 10 eq_refl).
    - exact (elem_of_lookup_imap_2 f (ones 20 20) (replicate 20 true) 10 eq_refl). }
  clear Hall f g.
  replace (Z.of_nat i + Z.of_nat 10 - Z.of_nat 10) with (Z.of_nat i) in Hat by lia.
  replace (Z.of_nat j + Z.of_nat 10 - Z.of_nat 10) with (Z.of_nat j) in Hat by lia.
  unfold Reference.at2 in Hat.
  rewrite !(proj2 (Z.leb_le _ _)) in Hat by lia. simpl in Hat.
  rewrite !Nat2Z.id, Hrow in Hat. simpl in Hat. rewrite Hx in Hat. simpl in Hat. subst x.
  apply elem_of_nonzero2. by exists i, j, row.
Qed.

(** A frame predicted everywhere against an empty ground truth: the one
    prompt appended, (10, 10) with label 0, is a false positive. *)
Lemma correction_prompts_mark_errors_witness :
  get_points_from_false_pred (H := Reference.scipy) Demo.full_pred Demo.empty_gt [[3; 4]] [1]
  = Ok ([[3; 4]; [10; 10]], [1; 0]) ∧
  ∃ ps ls, [[3; 4]; [10; 10]] = [[3; 4]] ++ ps ∧ [1; 0] = [1] ++ ls ∧
           Forall2 (marks_error Demo.full_pred Demo.empty_gt) ps ls.
Proof.
  assert (get_points_from_false_pred (H := Reference.scipy)
            Demo.full_pred Demo.empty_gt [[3; 4]] [1]
          = Ok ([[3; 4]; [10; 10]], [1; 0])) as Hrun by (vm_compute; reflexivity).
  split; [exact Hrun|].
  exact (correction_prompts_mark_errors (H := Reference.scipy)
           Demo.full_pred Demo.empty_gt [[3; 4]] [[3; 4]; [10; 10]] [1] [1; 0]
           reference_erosion_meets_contract Hrun).
Defined.

Lemma exact_prediction_gets_no_correction_witness :
  get_points_from_false_pred (H := Reference.scipy) Demo.full_pred Demo.full_pred [[3; 4]] [1]
  = Ok ([[3; 4]], [1]).
Proof.
  exact (exact_prediction_gets_no_correction (H := Reference.scipy)
           Demo.full_pred [[3; 4]] [1] reference_erosion_meets_contract).
Defined.

Lemma correction_without_prompts_raises_witness :
  get_points_from_false_pred (H := Reference.scipy) Demo.full_pred Demo.empty_gt [] []
  = Raise IndexError.
Proof.
  apply (correction_without_prompts_raises (H := Reference.scipy)).
  left. vm_compute. discriminate.
Defined.

(** ** Where the seed prompt lies *)

Lemma closest_to_centroid_Ok (points : list (list Z)) (point : list Z) :
  closest_to_centroid points = Ok point → point ∈ points.
Proof.
  unfold closest_to_centroid. destruct (torch_sort Qle _) as [vals idxs].
  intros Hrun. apply bind_Ok in Hrun as (i & _ & Hrun%index_Ok).
  by eapply list_elem_of_lookup_2.
Qed.

Lemma get3_eq_mask3 (label : list (list (list Z))) (v : Z) (i j k : nat) :
  get3 (eq_mask3 label v) i j k = Some true ↔ get3 label i j k = Some v.
Proof.
  unfold get3, eq_mask3, map3, map2. rewrite list_lookup_fmap.
  destruct (label !! i) as [plane|]; simpl; [|done].
  rewrite list_lookup_fmap. destruct (plane !! j) as [row|]; simpl; [|done].
  rewrite list_lookup_fmap. destruct (row !! k) as [x|]; simpl; [|done].
  destruct (Z.eqb_spec x v); split; congruence.
Qed.

Lemma select_last2_lookup {A} (plane : list (list A)) (d : nat) (srow : list A) (j : nat) :
  select_last2 plane d = Ok srow → srow !! j = (fibre ← plane !! j; fibre !! d).
Proof.
  unfold select_last2. intros Hsel%mapM_Ok. revert j.
  induction Hsel as [|fibre x plane srow Hx%index_Ok _ IH]; intros [|j]; simpl; try done.
Qed.

(** [t[..., d][i, j]] is [t[i, j, d]]. *)
Lemma select_last3_pixel {A} (t : list (list (list A))) (d : nat) (s : list (list A))
    (i j : nat) :
  select_last3 t d = Ok s → pixel s i j = get3 t i j d.
Proof.
  unfold select_last3, pixel, get3. intros Hsel%mapM_Ok. revert i.
  induction Hsel as [|plane srow t s Hrow _ IH]; intros [|i]; simpl; try done.
  by apply select_last2_lookup.
Qed.

Lemma pixel_eq_mask2 (slice : list (list Z)) (v : Z) (i j : nat) :
  pixel (eq_mask2 slice v) i j = Some true ↔ pixel slice i j = Some v.
Proof.
  unfold pixel, eq_mask2, map2. rewrite list_lookup_fmap.
  destruct (slice !! i) as [row|]; simpl; [|done].
  rewrite list_lookup_fmap. destruct (row !! j) as [x|]; simpl; [|done].
  destruct (Z.eqb_spec x v); split; congruence.
Qed.

(** X4.  When the component filter returns a part of the mask, the
    iteration 0 of an object that completes starts its prompts with a
    positive prompt (label 1) at (column [c], row [r]) on the annotation
    frame [d] such that the voxel [(r, c, d)] carries the label: the first
    prompt is a pixel of the ground truth [label[:, :, d] == 1] against which
    the correction is computed. *)
Theorem first_prompt_is_on_the_ground_truth `{Monai} `{Scipy} `{Predictor}
    (label : list (list (list Z))) (s s' : inference_state) (p : prompts) :
  lcc_contract3 →
  first_iteration label s = Ok (s', p) →
  ∃ r c d : nat,
    head (_point p) = Some [Z.of_nat c; Z.of_nat r] ∧
    head (_label p) = Some 1 ∧
    ann_frame_idx p = Z.of_nat d ∧
    get3 label r c d = Some 1 ∧
    ∃ slice, select_last3 label d = Ok slice ∧ pixel (eq_mask2 slice 1) r c = Some true.
Proof.
  intros Hlcc Hrun. unfold first_iteration in Hrun.
  apply bind_Ok in Hrun as (point & Hpoint & Hrun).
  unfold get_points_from_label in Hpoint. apply closest_to_centroid_Ok in Hpoint.
  apply (proj1 (Hlcc _)) in Hpoint.
  apply elem_of_nonzero3 in Hpoint as (i & j & k & plane & row & Hplane & Hrow & Hk & ->).
  assert (get3 label i j k = Some 1) as Hvoxel.
  { apply get3_eq_mask3. unfold get3. rewrite Hplane. simpl. by rewrite Hrow. }
  apply bind_Ok in Hrun as (p1 & [= <-]%index_Ok & Hrun).
  apply bind_Ok in Hrun as (p0 & [= <-]%index_Ok & Hrun).
  apply bind_Ok in Hrun as (a & [= <-]%index_last_Ok & Hrun).
  destruct (add_new_points _ _ _ _ _) as [s1 [ids logits]].
  apply bind_Ok in Hrun as (pred & _ & Hrun).
  apply bind_Ok in Hrun as (slice & Hslice & Hrun).
  apply bind_Ok in Hrun as ([P L] & Hfix & Hrun).
  injection Hrun as <- <-.
  apply get_points_from_false_pred_appends in Hfix as (ps & ls & -> & -> & _).
  rewrite Nat2Z.id in Hslice.
  exists i, j, k. repeat split; try done.
  exists slice. split; [done|].
  apply pixel_eq_mask2. by rewrite (select_last3_pixel _ _ _ _ _ Hslice).
Qed.

Lemma first_prompt_is_on_the_ground_truth_witness :
  first_iteration (H := Reference.monai) (H0 := Reference.scipy) (H1 := Demo.predictor)
    Demo.label ()
  = Ok ((), {| _point := [[1; 0]]; _label := [1]; ann_frame_idx := 0 |}) ∧
  ∃ r c d : nat,
    head [[1; 0]] = Some [Z.of_nat c; Z.of_nat r] ∧
    head [1] = Some 1 ∧
    0 = Z.of_nat d ∧
    get3 Demo.label r c d = Some 1 ∧
    ∃ slice, select_last3 Demo.label d = Ok slice ∧ pixel (eq_mask2 slice 1) r c = Some true.
Proof.
  assert (first_iteration (H := Reference.monai) (H0 := Reference.scipy)
            (H1 := Demo.predictor) Demo.label ()
          = Ok ((), {| _point := [[1; 0]]; _label := [1]; ann_frame_idx := 0 |})) as Hrun
    by (vm_compute; reflexivity).
  split; [exact Hrun|].
  exact (first_prompt_is_on_the_ground_truth
           (H := Reference.monai) (H0 := Reference.scipy) (H1 := Demo.predictor)
           Demo.label () () _ ReferenceFacts.lcc3_meets_contract Hrun).
Defined.

(** ** Assembling the predicted volume *)

Lemma StronglySorted_le_NoDup_lt (l : list Z) :
  StronglySorted Z.le l → NoDup l → StronglySorted Z.lt l.
Proof.
  induction 1 as [|x l Hl IH Hx]; intros Hnd; [constructor|].
  apply NoDup_cons in Hnd as [Hnotin Hnd]. constructor; [by apply IH|].
  rewrite Forall_forall in Hx |- *. intros y Hy.
  specialize (Hx y Hy). assert (x ≠ y) by (intros ->; done). lia.
Qed.

(** [sorted(list(d.keys()))]: every key once, in ascending order. *)
Lemma sorted_keys_spec {V} (m : gmap Z V) :
  StronglySorted Z.lt (sorted_keys m) ∧ ∀ k, k ∈ sorted_keys m ↔ is_Some (m !! k).
Proof.
  unfold sorted_keys.
  pose proof (merge_sort_Permutation Z.le (map_to_list m).*1) as Hperm. split.
  - apply StronglySorted_le_NoDup_lt.
    + apply (StronglySorted_merge_sort Z.le).
    + rewrite Hperm. apply NoDup_fst_map_to_list.
  - intros k. rewrite Hperm, list_elem_of_fmap. split.
    + intros ([k' v] & -> & Hkv%elem_of_map_to_list). by exists v.
    + intros [v Hv]. exists (k, v). split; [done|]. by apply elem_of_map_to_list.
Qed.

Lemma shape2_zip_with2_cons {A} (f : list (list A)) (T : list (list (list A))) :
  shape2 T = shape2 f → shape2 (zip_with2 cons f T) = shape2 f.
Proof.
  unfold shape2, zip_with2. revert T.
  induction f as [|frow f IH]; intros [|trow T]; simpl; try done.
  intros [= Hrow Hrest]. rewrite IH by done. by rewrite length_zip_with, Hrow, Nat.min_id.
Qed.

Lemma shape2_stack_last {A} (f : list (list A)) (fs : list (list (list A))) :
  Forall (fun g => shape2 g = shape2 f) fs → shape2 (stack_last (f :: fs)) = shape2 f.
Proof.
  revert f. induction fs as [|g fs IH]; intros f Hshape.
  - simpl. unfold shape2, map2. rewrite <- list_fmap_compose.
    apply list_fmap_ext. intros _ row _. simpl. by rewrite length_fmap.
  - apply Forall_cons in Hshape as [Hg Hfs].
    change (stack_last (f :: g :: fs)) with (zip_with2 cons f (stack_last (g :: fs))).
    apply shape2_zip_with2_cons. rewrite IH; [done|].
    eapply Forall_impl; [done|]. simpl. congruence.
Qed.

Lemma select_last2_zip_with_cons {A} (frow : list A) (trow : list (list A)) (k : nat) :
  length trow = length frow →
  select_last2 (zip_with cons frow trow) 0 = Ok frow ∧
  select_last2 (zip_with cons frow trow) (S k) = select_last2 trow k.
Proof.
  unfold select_last2. revert trow.
  induction frow as [|x frow IH]; intros [|fibre trow]; simpl; try done.
  intros [= Hlen]. destruct (IH trow Hlen) as [-> ->]. done.
Qed.

Lemma select_last3_zip_with2_cons {A} (f : list (list A)) (T : list (list (list A)))
    (k : nat) :
  shape2 T = shape2 f →
  select_last3 (zip_with2 cons f T) 0 = Ok f ∧
  select_last3 (zip_with2 cons f T) (S k) = select_last3 T k.
Proof.
  unfold select_last3, zip_with2, shape2. revert T.
  induction f as [|frow f IH]; intros [|trow T]; simpl; try done.
  intros [= Hrow Hrest]. destruct (IH T Hrest) as [-> ->].
  destruct (select_last2_zip_with_cons frow trow k Hrow) as [-> ->]. done.
Qed.

Lemma select_last3_singleton {A} (f : list (list A)) :
  select_last3 (map2 (fun x => [x]) f) 0 = Ok f.
Proof.
  unfold select_last3, map2. apply mapM_Ok, Forall2_fmap_l, Forall_Forall2_diag.
  apply Forall_forall. intros row _.
  unfold select_last2. apply mapM_Ok, Forall2_fmap_l, Forall_Forall2_diag.
  by apply Forall_forall.
Qed.

Lemma select_last3_stack_transpose {A} (frames pred : list (list (list A)))
    (k : nat) (frame : list (list A)) :
  stack_transpose frames = Ok pred →
  frames !! k = Some frame →
  select_last3 pred k = Ok frame.
Proof.
  unfold stack_transpose. destruct frames as [|f fs]; [done|].
  case_bool_decide as Hshape; [|done]. intros [= <-].
  revert f k Hshape. induction fs as [|g fs IH]; intros f k Hshape Hk.
  - destruct k as [|k]; [|done]. injection Hk as <-. apply select_last3_singleton.
  - apply Forall_cons in Hshape as [Hg Hfs].
    change (stack_last (f :: g :: fs)) with (zip_with2 cons f (stack_last (g :: fs))).
    assert (Forall (fun h => shape2 h = shape2 g) fs) as Hfs'
      by (eapply Forall_impl; [done|]; simpl; congruence).
    destruct (select_last3_zip_with2_cons f (stack_last (g :: fs)) (Nat.pred k)) as [H0 HS].
    { by rewrite shape2_stack_last. }
    destruct k as [|k]; simpl in *.
    + by injection Hk as <-.
    + rewrite HS. by apply IH.
Qed.

(** X6.  [np.stack(frames).transpose(1, 2, 0)] succeeds exactly on a
    non-empty list of frames that all have the shape of the first one, and
    then [[..., k]] on the stacked volume is [frames[k]]: selecting index
    [k] on the last axis gives back the [k]-th frame, for every frame of the
    list. *)
Theorem stacked_volume_holds_the_frames {A} (frames : list (list (list A))) :
  (is_Ok (stack_transpose frames) ↔
   ∃ f fs, frames = f :: fs ∧ Forall (fun g => shape2 g = shape2 f) fs) ∧
  ∀ pred k frame,
    stack_transpose frames = Ok pred →
    frames !! k = Some frame →
    select_last3 pred k = Ok frame.
Proof.
  split.
  - unfold stack_transpose. destruct frames as [|f fs].
    + split; [by intros [? [=]]|by intros (? & ? & [=] & _)].
    + case_bool_decide as Hshape.
      * split; [by exists f, fs|by eexists].
      * split; [by intros [? [=]]|]. by intros (? & ? & [= <- <-] & ?).
  - intros pred k frame. apply select_last3_stack_transpose.
Qed.

Lemma stacked_volume_holds_the_frames_witness :
  select_last3 [[[true; false]; [false; false]]; [[true; true]; [false; true]]] 1
  = Ok [[false; false]; [true; true]].
Proof.
  apply (proj2 (stacked_volume_holds_the_frames
                  [[[true; false]; [true; false]]; [[false; false]; [true; true]]]));
    reflexivity.
Defined.

(** X5.  When [propagate] returns: the predicted volume has exactly one
    frame for every frame index that the forward or the reverse pass
    yielded, the frames are in ascending order of their index whatever the
    order in which they were yielded, and frame number [i] of the volume is
    the mask of object 1 stored for the [i]-th smallest index. *)
Theorem predicted_volume_is_in_frame_order `{Predictor}
    (s s' : inference_state) (p : prompts) (pred : list (list (list bool))) (n : nat) :
  propagate s p = Ok (s', pred, n) →
  ∃ video_segments,
    (m ← collect_segments (passes s p).1 ∅; collect_segments (passes s p).2 m)
    = Ok video_segments ∧
    StronglySorted Z.lt (sorted_keys video_segments) ∧
    (∀ k, k ∈ sorted_keys video_segments ↔
          k ∈ frames_of (passes s p).1 ∨ k ∈ frames_of (passes s p).2) ∧
    n = length (sorted_keys video_segments) ∧
    ∀ i key, sorted_keys video_segments !! i = Some key →
      ∃ frame, segment_of video_segments ann_obj_id key = Ok frame ∧
               select_last3 pred i = Ok frame.
Proof.
  unfold propagate, passes.
  destruct (add_new_points _ _ _ _ _) as [s1 out].
  destruct (propagate_in_video s1 false) as [s2 forward].
  destruct (propagate_in_video s2 true) as [s3 backward]. simpl.
  intros Hrun.
  apply bind_Ok in Hrun as (m1 & Hfw & Hrun).
  apply bind_Ok in Hrun as (vs & Hbw & Hrun).
  apply bind_Ok in Hrun as (frames & Hframes%mapM_Ok & Hrun).
  apply bind_Ok in Hrun as (pred' & Hstack & Hrun).
  injection Hrun as <- <- <-.
  exists vs. rewrite Hfw. simpl. split; [done|].
  destruct (sorted_keys_spec vs) as [Hsorted Hkeys].
  split; [done|]. split; [|split].
  - intros k. rewrite Hkeys, (collect_segments_frames _ _ _ k Hbw),
      (collect_segments_frames _ _ _ k Hfw), lookup_empty.
    split; [intros [?|[?|[? [=]]]]; auto|intros [?|?]; auto].
  - symmetry. by eapply Forall2_length.
  - intros i key Hkey.
    destruct (Forall2_lookup_l _ _ _ _ _ Hframes Hkey) as (frame & Hframe & Hseg).
    exists frame. split; [done|]. by eapply select_last3_stack_transpose.
Qed.

(** X8.  When neither pass yields a frame, [np.stack] is given an empty
    list and the iteration ends with [ValueError]. *)
Theorem propagate_without_frames_raises `{Predictor} (s : inference_state) (p : prompts) :
  passes s p = ([], []) → propagate s p = Raise ValueError.
Proof.
  unfold propagate, passes.
  destruct (add_new_points _ _ _ _ _) as [s1 out].
  destruct (propagate_in_video s1 false) as [s2 forward].
  destruct (propagate_in_video s2 true) as [s3 backward].
  intros [= -> ->]. reflexivity.
Qed.

Lemma predicted_volume_is_in_frame_order_witness :
  propagate (H1 := Cases.two_way) () Cases.one_prompt = Ok ((), [[[true; false; false]]], 3%nat) ∧
  ∃ video_segments,
    (m ← collect_segments (passes (H := Cases.two_way) () Cases.one_prompt).1 ∅;
     collect_segments (passes (H := Cases.two_way) () Cases.one_prompt).2 m)
    = Ok video_segments ∧
    StronglySorted Z.lt (sorted_keys video_segments) ∧
    (∀ k, k ∈ sorted_keys video_segments ↔
          k ∈ frames_of (passes (H := Cases.two_way) () Cases.one_prompt).1 ∨
          k ∈ frames_of (passes (H := Cases.two_way) () Cases.one_prompt).2) ∧
    3%nat = length (sorted_keys video_segments) ∧
    ∀ i key, sorted_keys video_segments !! i = Some key →
      ∃ frame, segment_of video_segments ann_obj_id key = Ok frame ∧
               select_last3 [[[true; false; false]]] i = Ok frame.
Proof.
  assert (propagate (H1 := Cases.two_way) () Cases.one_prompt
          = Ok ((), [[[true; false; false]]], 3%nat)) as Hrun by (vm_compute; reflexivity).
  split; [exact Hrun|].
  exact (predicted_volume_is_in_frame_order (H := Cases.two_way)
           () () Cases.one_prompt _ _ Hrun).
Defined.

Lemma propagate_without_frames_raises_witness :
  propagate (H1 := Cases.silent) () Cases.one_prompt = Raise ValueError.
Proof.
  apply (propagate_without_frames_raises (H := Cases.silent)). reflexivity.
Defined.

(** ** The frame of lowest Dice *)

Lemma for_each_app {A S} (body : A → S → result S) (l1 l2 : list A) (s : S) :
  for_each body (l1 ++ l2) s = for_each body l1 s ≫= for_each body l2.
Proof.
  revert s. induction l1 as [|x l1 IH]; intros s; simpl; [done|].
  destruct (body x s) as [s'|e]; simpl; [apply IH|done].
Qed.

Lemma f32_ltb_Num (x y : f32) :
  f32_ltb x y = true ↔ ∃ a b, x = Num a ∧ y = Num b ∧ (a < b)%Q.
Proof.
  destruct x as [|a], y as [|b]; simpl; split; try done;
    try by intros (? & ? & ? & ? & _).
  - intros Hlt%bool_decide_eq_true. by exists a, b.
  - intros (? & ? & [= <-] & [= <-] & Hlt). by apply bool_decide_eq_true.
Qed.

Lemma f32_ltb_irrefl (x : f32) : f32_ltb x x = false.
Proof.
  apply not_true_iff_false. intros (a & b & -> & [= <-] & Hlt)%f32_ltb_Num.
  by apply Qlt_irrefl in Hlt.
Qed.

Lemma f32_ltb_trans (x y z : f32) :
  f32_ltb x y = true → f32_ltb y z = true → f32_ltb x z = true.
Proof.
  intros (a & b & -> & -> & Hab)%f32_ltb_Num (b' & c & [= <-] & -> & Hbc)%f32_ltb_Num.
  apply f32_ltb_Num. exists a, c. repeat split. by eapply Qlt_trans.
Qed.

(** [x < y], [z] is a number and not [z < y]: then [x < z]. *)
Lemma f32_ltb_below (x y z bound : f32) :
  f32_ltb x y = true → f32_ltb z y = false → f32_ltb z bound = true →
  f32_ltb x z = true.
Proof.
  intros (a & b & -> & -> & Hab)%f32_ltb_Num Hzy (c & ? & -> & _ & _)%f32_ltb_Num.
  apply f32_ltb_Num. exists a, c. repeat split.
  apply not_true_iff_false in Hzy. eapply Qlt_le_trans; [done|].
  apply Qnot_lt_le. intros Hcb. apply Hzy, f32_ltb_Num. by exists c, b.
Qed.

Section lowest_frame_facts.
Context `{Monai}.

Lemma frame_dice_step_Ok (pred : list (list (list bool))) (label : list (list (list Z)))
    (d : nat) (acc acc' : f32 * option nat) :
  frame_dice_step pred label d acc = Ok acc' →
  match frame_score pred label d with
  | None => acc' = acc
  | Some x => acc' = if f32_ltb x acc.1 then (x, Some d) else acc
  end.
Proof.
  unfold frame_dice_step, frame_score. intros Hrun.
  apply bind_Ok in Hrun as (label_d & -> & Hrun).
  case_bool_decide.
  - apply bind_Ok in Hrun as (pred_d & -> & Hrun).
    destruct (f32_ltb _ _); by injection Hrun as <-.
  - injection Hrun as <-. by destruct (select_last3 pred d).
Qed.

Lemma lowest_so_far_step (pred : list (list (list bool))) (label : list (list (list Z)))
    (lowerest : option nat) (m : nat) (acc acc' : f32 * option nat) :
  lowest_so_far pred label lowerest m acc →
  frame_dice_step pred label m acc = Ok acc' →
  lowest_so_far pred label lowerest (S m) acc'.
Proof.
  intros Hinv Hstep%frame_dice_step_Ok.
  destruct (frame_score pred label m) as [x|] eqn:Hx.
  - destruct (f32_ltb x acc.1) eqn:Hlt; subst acc'.
    + right. exists m. simpl. split; [done|]. split; [lia|]. split; [done|].
      destruct Hinv as [[-> Hnone]|(d & Hd & Hdm & Hscore & Hbest & Hmin & Hfirst)].
      * simpl in Hlt. split; [done|]. split.
        -- intros d' x' Hd' Hx'. destruct (decide (d' = m)) as [->|Hne].
           ++ rewrite Hx in Hx'. injection Hx' as <-. apply f32_ltb_irrefl.
           ++ apply not_true_iff_false. intros Hx'x.
              pose proof (f32_ltb_trans _ _ _ Hx'x Hlt) as Htrue.
              pose proof (Hnone d' x' ltac:(lia) Hx') as Hfalse. congruence.
        -- intros d' x' Hd' Hx' Hx'1000.
           pose proof (Hnone d' x' ltac:(lia) Hx') as Hfalse. congruence.
      * split; [by eapply f32_ltb_trans|]. split.
        -- intros d' x' Hd' Hx'. destruct (decide (d' = m)) as [->|Hne].
           ++ rewrite Hx in Hx'. injection Hx' as <-. apply f32_ltb_irrefl.
           ++ apply not_true_iff_false. intros Hx'x.
              pose proof (f32_ltb_trans _ _ _ Hx'x Hlt) as Htrue.
              pose proof (Hmin d' x' ltac:(lia) Hx') as Hfalse. congruence.
        -- intros d' x' Hd' Hx' Hx'1000.
           eapply f32_ltb_below; [exact Hlt| |exact Hx'1000]. by apply (Hmin d'); [lia|].
    + destruct Hinv as [[-> Hnone]|(d & Hd & Hdm & Hscore & Hbest & Hmin & Hfirst)].
      * left. split; [done|]. intros d' x' Hd' Hx'.
        destruct (decide (d' = m)) as [->|Hne]; [|apply (Hnone d'); [lia|done]].
        rewrite Hx in Hx'. by injection Hx' as <-.
      * right. exists d. split; [done|]. split; [lia|]. split; [done|]. split; [done|].
        split; [|done]. intros d' x' Hd' Hx'.
        destruct (decide (d' = m)) as [->|Hne]; [|apply (Hmin d'); [lia|done]].
        rewrite Hx in Hx'. by injection Hx' as <-.
  - subst acc'. destruct Hinv as [[-> Hnone]|(d & Hd & Hdm & Hscore & Hbest & Hmin & Hfirst)].
    + left. split; [done|]. intros d' x' Hd' Hx'.
      destruct (decide (d' = m)) as [->|Hne]; [congruence|apply (Hnone d'); [lia|done]].
    + right. exists d. split; [done|]. split; [lia|]. split; [done|]. split; [done|].
      split; [|done]. intros d' x' Hd' Hx'.
      destruct (decide (d' = m)) as [->|Hne]; [congruence|apply (Hmin d'); [lia|done]].
Qed.

Lemma lowest_so_far_loop (pred : list (list (list bool))) (label : list (list (list Z)))
    (lowerest : option nat) (n : nat) (acc : f32 * option nat) :
  for_each (frame_dice_step pred label) (seq 0 n) (Num 1000, lowerest) = Ok acc →
  lowest_so_far pred label lowerest n acc.
Proof.
  revert acc. induction n as [|n IH]; intros acc.
  - intros [= <-]. left. split; [done|]. intros; lia.
  - rewrite seq_S, for_each_app. intros Hrun.
    apply bind_Ok in Hrun as (acc0 & Hacc0 & Hrun). simpl in Hrun.
    apply bind_Ok in Hrun as (acc1 & Hstep & [= <-]).
    eapply lowest_so_far_step; [|done]. by apply IH.
Qed.

End lowest_frame_facts.

(** X7.  When the loop of lines 365-375 completes on [n] frames, either
    no frame with label has a Dice below the initial 1000 and
    [lowerest_dice_index] keeps the value it had (from an earlier iteration
    or object, or none), or it is the first frame of lowest Dice among the
    frames with label: its Dice is below 1000, no frame with label has a
    lower Dice, and every earlier frame with label and a Dice below 1000 has
    a strictly higher Dice. *)
Theorem lowest_frame_is_the_first_minimum `{Monai} (pred : list (list (list bool)))
    (label : list (list (list Z))) (n : nat) (lowerest r : option nat) :
  lowest_frame pred label n lowerest = Ok r →
  (r = lowerest ∧
   ∀ d x, (d < n)%nat → frame_score pred label d = Some x → f32_ltb x (Num 1000) = false) ∨
  (∃ d x, r = Some d ∧ (d < n)%nat ∧
     frame_score pred label d = Some x ∧
     f32_ltb x (Num 1000) = true ∧
     (∀ d' x', (d' < n)%nat → frame_score pred label d' = Some x' → f32_ltb x' x = false) ∧
     (∀ d' x', (d' < d)%nat → frame_score pred label d' = Some x' →
        f32_ltb x' (Num 1000) = true → f32_ltb x x' = true)).
Proof.
  unfold lowest_frame. intros Hrun.
  apply fmap_Ok in Hrun as ([best idx] & Hrun & ->).
  apply lowest_so_far_loop in Hrun as [[[= -> ->] Hnone]|(d & Hd & Hrest)].
  - by left.
  - right. exists d, best. simpl in *. by split.
Qed.

(** Frame 0 predicted exactly, frame 1 missed: the worst frame is frame 1. *)
Lemma lowest_frame_is_the_first_minimum_witness :
  lowest_frame (H := Reference.monai)
    [[[true; false]; [true; false]; [false; false]];
         [[false; false]; [false; false]; [false; false]]] Demo.label 2 None = Ok (Some 1%nat) ∧
  ((Some 1%nat = None ∧
    ∀ d x, (d < 2)%nat →
      frame_score (H := Reference.monai)
        [[[true; false]; [true; false]; [false; false]];
         [[false; false]; [false; false]; [false; false]]] Demo.label d = Some x →
      f32_ltb x (Num 1000) = false) ∨
   (∃ d x, Some 1%nat = Some d ∧ (d < 2)%nat ∧
      frame_score (H := Reference.monai)
        [[[true; false]; [true; false]; [false; false]];
         [[false; false]; [false; false]; [false; false]]] Demo.label d = Some x ∧
      f32_ltb x (Num 1000) = true ∧
      (∀ d' x', (d' < 2)%nat →
         frame_score (H := Reference.monai)
           [[[true; false]; [true; false]; [false; false]];
         [[false; false]; [false; false]; [false; false]]] Demo.label d' = Some x' →
         f32_ltb x' x = false) ∧
      (∀ d' x', (d' < d)%nat →
         frame_score (H := Reference.monai)
           [[[true; false]; [true; false]; [false; false]];
         [[false; false]; [false; false]; [false; false]]] Demo.label d' = Some x' →
         f32_ltb x' (Num 1000) = true → f32_ltb x x' = true))).
Proof.
  assert (lowest_frame (H := Reference.monai)
            [[[true; false]; [true; false]; [false; false]];
         [[false; false]; [false; false]; [false; false]]] Demo.label 2 None
          = Ok (Some 1%nat)) as Hrun by (vm_compute; reflexivity).
  split; [exact Hrun|].
  exact (lowest_frame_is_the_first_minimum (H := Reference.monai) _ _ _ _ _ Hrun).
Defined.

(** ** How many prompts an object gets *)

Section prompt_count.
Context `{Monai} `{Scipy} `{Predictor}.

Lemma get_points_from_false_pred_at_most_two (pred gt : list (list bool))
    (P P' : list (list Z)) (Lb Lb' : list Z) :
  get_points_from_false_pred pred gt P Lb = Ok (P', Lb') →
  (length P ≤ length P' ≤ length P + 2)%nat ∧
  (length Lb' + length P = length Lb + length P')%nat.
Proof.
  intros Hrun. unfold get_points_from_false_pred in Hrun.
  apply bind_Ok in Hrun as ([P1 L1] & Hfp & Hfn).
  apply (correction_half_Ok (eroded_false_positive pred gt) pred gt) in Hfp; [|by left].
  apply (correction_half_Ok (eroded_false_negative pred gt) pred gt) in Hfn; [|by right].
  destruct Hfp as [(_ & -> & ->)|(? & ? & _ & -> & ->)];
    destruct Hfn as [(_ & -> & ->)|(? & ? & _ & -> & ->)];
    rewrite ?length_app; simpl; lia.
Qed.

Lemma first_iteration_count (label : list (list (list Z))) (s s' : inference_state)
    (p : prompts) :
  first_iteration label s = Ok (s', p) →
  length (_label p) = length (_point p) ∧ (1 ≤ length (_point p) ≤ 3)%nat.
Proof.
  unfold first_iteration. intros Hrun.
  apply bind_Ok in Hrun as (point & _ & Hrun).
  apply bind_Ok in Hrun as (p1 & _ & Hrun).
  apply bind_Ok in Hrun as (p0 & _ & Hrun).
  apply bind_Ok in Hrun as (a & _ & Hrun).
  destruct (add_new_points _ _ _ _ _) as [s1 [ids logits]].
  apply bind_Ok in Hrun as (pred & _ & Hrun).
  apply bind_Ok in Hrun as (slice & _ & Hrun).
  apply bind_Ok in Hrun as ([P L] & Hfix%get_points_from_false_pred_at_most_two & Hrun).
  injection Hrun as <- <-. simpl in *. lia.
Qed.

Lemma later_iteration_count (label : list (list (list Z))) (lowerest : option nat)
    (s s' : inference_state) (q p : prompts) :
  later_iteration label lowerest s (Some q) = Ok (s', p) →
  (length (_point q) + 1 ≤ length (_point p) ≤ length (_point q) + 3)%nat ∧
  (length (_label p) + length (_point q) = length (_label q) + length (_point p))%nat.
Proof.
  unfold later_iteration. intros Hrun.
  apply bind_Ok in Hrun as (d & _ & Hrun).
  apply bind_Ok in Hrun as (worst & _ & Hrun).
  apply bind_Ok in Hrun as (unused & _ & Hrun).
  apply bind_Ok in Hrun as (point & _ & Hrun).
  apply bind_Ok in Hrun as (p1 & _ & Hrun).
  apply bind_Ok in Hrun as (p0 & _ & Hrun).
  apply bind_Ok in Hrun as (a & _ & Hrun).
  apply bind_Ok in Hrun as (q0 & [= <-] & Hrun).
  destruct (add_new_points _ _ _ _ _) as [s1 [ids logits]].
  apply bind_Ok in Hrun as (pred & _ & Hrun).
  apply bind_Ok in Hrun as (slice & _ & Hrun).
  apply bind_Ok in Hrun as ([P L] & Hfix%get_points_from_false_pred_at_most_two & Hrun).
  injection Hrun as <- <-. rewrite !length_app in Hfix. simpl in *. lia.
Qed.

Lemma iteration_prompts (v : val_data) (total _index i : nat)
    (label : list (list (list Z))) (idx : nat) (L L' : locals) :
  iteration v total _index i label idx L = Ok L' →
  ∃ s0 s1 p, pts L' = Some p ∧
    if bool_decide (idx = 0%nat) then first_iteration label s0 = Ok (s1, p)
    else later_iteration label (lowerest_dice_index L) s0 (pts L) = Ok (s1, p).
Proof.
  unfold iteration. intros Hrun.
  apply bind_Ok in Hrun as (s0 & _ & Hrun).
  apply bind_Ok in Hrun as ([s1 p] & Hiter & Hrun).
  apply bind_Ok in Hrun as ([[s2 pred] frames] & _ & Hrun).
  apply bind_Ok in Hrun as (lowerest & _ & Hrun).
  apply bind_Ok in Hrun as (m & _ & Hrun).
  apply bind_Ok in Hrun as (row & _ & Hrun).
  injection Hrun as <-. exists s0, s1, p. split; [done|].
  by destruct (bool_decide _).
Qed.

Lemma later_iterations_prompt_count (v : val_data) (total _index i : nat)
    (label : list (list (list Z))) (n a k : nat) (L L' : locals) (q : prompts) :
  (1 ≤ a)%nat →
  pts L = Some q → length (_label q) = length (_point q) →
  (k ≤ length (_point q) ≤ 3 * k)%nat →
  for_each (iteration v total _index i label) (seq a n) L = Ok L' →
  ∃ p, pts L' = Some p ∧ length (_label p) = length (_point p) ∧
       (k + n ≤ length (_point p) ≤ 3 * (k + n))%nat.
Proof.
  revert a k L q. induction n as [|n IH]; intros a k L q Ha Hq Hbal Hk Hrun; simpl in Hrun.
  - injection Hrun as <-. exists q. repeat split; try done; lia.
  - apply bind_Ok in Hrun as (L1 & Hstep & Hrun).
    apply iteration_prompts in Hstep as (s0 & s1 & p & Hp & Hiter).
    rewrite bool_decide_false in Hiter by lia. rewrite Hq in Hiter.
    apply later_iteration_count in Hiter as [Hlen Hlab].
    destruct (IH (S a) (S k) L1 p) as (p' & Hp' & Hbal' & Hk'); try done; try lia.
    exists p'. repeat split; try done; lia.
Qed.

End prompt_count.

(** X9.  When the loop over the iterations of one object completes with
    [max_iters >= 1], the object has as many labels as prompts, and between
    [max_iters] and [3 * max_iters] prompts: every iteration adds the seed
    prompt and at most two corrections. *)
Theorem object_gets_one_to_three_prompts_per_iteration `{Monai} `{Scipy} `{Predictor}
    (v : val_data) (label_set : list Z) (max_iters total _index i : nat) (L L' : locals) :
  (0 < max_iters)%nat →
  object_loop v label_set max_iters total _index i L = Ok L' →
  ∃ p, pts L' = Some p ∧
       length (_label p) = length (_point p) ∧
       (max_iters ≤ length (_point p) ≤ 3 * max_iters)%nat.
Proof.
  intros Hiters Hrun. unfold object_loop in Hrun.
  apply bind_Ok in Hrun as (s & _ & Hrun).
  apply bind_Ok in Hrun as (label_index & _ & Hrun).
  destruct max_iters as [|n]; [lia|].
  change (seq 0 (S n)) with (0%nat :: seq 1 n) in Hrun. cbn [for_each] in Hrun.
  apply bind_Ok in Hrun as (L1 & Hfirst & Hrun).
  apply iteration_prompts in Hfirst as (s0 & s1 & p & Hp & Hiter).
  rewrite bool_decide_true in Hiter by done.
  apply first_iteration_count in Hiter as [Hbal Hlen].
  destruct (later_iterations_prompt_count _ _ _ _ _ n 1 1 _ _ p ltac:(lia) Hp Hbal ltac:(lia) Hrun)
    as (p' & Hp' & Hbal' & Hk').
  exists p'. repeat split; try done; lia.
Qed.

Lemma object_gets_one_to_three_prompts_per_iteration_witness :
  ∃ L',
    object_loop (H := Reference.monai) (H0 := Reference.scipy) (H1 := Demo.predictor)
      Demo.volume [0; 1] 2 1 1 1 (evaluate_start 1 1 2) = Ok L' ∧
    ∃ p, pts L' = Some p ∧
         length (_label p) = length (_point p) ∧
         (2 ≤ length (_point p) ≤ 3 * 2)%nat.
Proof.
  match eval vm_compute in
    (object_loop (H := Reference.monai) (H0 := Reference.scipy) (H1 := Demo.predictor)
       Demo.volume [0; 1] 2 1 1 1 (evaluate_start 1 1 2)) with
  | Ok ?L =>
      exists L; split; [vm_compute; reflexivity|];
      apply (object_gets_one_to_three_prompts_per_iteration
               (H := Reference.monai) (H0 := Reference.scipy) (H1 := Demo.predictor)
               Demo.volume [0; 1] 2 1 1 1 (evaluate_start 1 1 2));
      [lia | vm_compute; reflexivity]
  end.
Defined.

(** ** What a completed evaluation has filled in *)

Lemma for_each_count {A S} (size : S → nat) (k : nat) (body : A → S → result S)
    (l : list A) :
  (∀ x s s', body x s = Ok s' → size s' = (size s + k)%nat) →
  ∀ s s', for_each body l s = Ok s' → size s' = (size s + k * length l)%nat.
Proof.
  intros Hbody. induction l as [|x l IH]; intros s s' Hrun; simpl in Hrun.
  - injection Hrun as <-. simpl. lia.
  - apply bind_Ok in Hrun as (s1 & Hstep & Hrun).
    apply Hbody in Hstep. apply IH in Hrun. simpl. lia.
Qed.

Section evaluation_facts.
Context `{Monai} `{Scipy} `{Predictor}.

Lemma iteration_writes (v : val_data) (total _index i : nat) (label : list (list (list Z)))
    (idx : nat) (L L' : locals) :
  iteration v total _index i label idx L = Ok L' →
  length (log_string L') = S (length (log_string L)) ∧
  (∃ pred, get3 (metric L') (_index - 1) (i - 1) idx = Some (compute_dice3 pred label)) ∧
  ∀ a b c, (a, b, c) ≠ ((_index - 1)%nat, (i - 1)%nat, idx) →
    get3 (metric L') a b c = get3 (metric L) a b c.
Proof.
  unfold iteration. intros Hrun.
  apply bind_Ok in Hrun as (s0 & _ & Hrun).
  apply bind_Ok in Hrun as ([s1 p] & _ & Hrun).
  apply bind_Ok in Hrun as ([[s2 pred] frames] & _ & Hrun).
  apply bind_Ok in Hrun as (lowerest & _ & Hrun).
  apply bind_Ok in Hrun as (m & Hset%set3_get3 & Hrun).
  apply bind_Ok in Hrun as (row & _ & Hrun).
  injection Hrun as <-. simpl. destruct Hset as [Hnew Hold].
  split; [rewrite length_app; simpl; lia|]. split; [by exists pred|done].
Qed.

Lemma iterations_write (v : val_data) (total _index i : nat) (label : list (list (list Z)))
    (n : nat) (L L' : locals) :
  for_each (iteration v total _index i label) (seq 0 n) L = Ok L' →
  (∀ k, (k < n)%nat →
     ∃ pred, get3 (metric L') (_index - 1) (i - 1) k = Some (compute_dice3 pred label)) ∧
  ∀ a b c, a ≠ (_index - 1)%nat ∨ b ≠ (i - 1)%nat →
    get3 (metric L') a b c = get3 (metric L) a b c.
Proof.
  revert L'. induction n as [|n IH]; intros L'.
  - intros [= <-]. split; [intros; lia|done].
  - rewrite seq_S, for_each_app. intros Hrun.
    apply bind_Ok in Hrun as (L1 & Hloop & Hrun). simpl in Hrun.
    apply bind_Ok in Hrun as (L2 & Hstep & [= <-]).
    destruct (IH _ Hloop) as [Hdone Hframe].
    apply iteration_writes in Hstep as (_ & Hnew & Hold). split.
    + intros k Hk. destruct (decide (k = n)) as [->|Hne]; [done|].
      rewrite Hold by congruence. apply Hdone. lia.
    + intros a b c Hab. rewrite Hold by (intros [= -> -> _]; destruct Hab; done).
      by apply Hframe.
Qed.

Lemma object_loop_writes (v : val_data) (label_set : list Z)
    (max_iters total _index i : nat) (L L' : locals) :
  object_loop v label_set max_iters total _index i L = Ok L' →
  (∃ label_index, label_set !! i = Some label_index ∧
     ∀ k, (k < max_iters)%nat →
       holds_volume_dice (metric L') v label_index (_index - 1) (i - 1) k) ∧
  ∀ a b c, a ≠ (_index - 1)%nat ∨ b ≠ (i - 1)%nat →
    get3 (metric L') a b c = get3 (metric L) a b c.
Proof.
  unfold object_loop. intros Hrun.
  apply bind_Ok in Hrun as (s & _ & Hrun).
  apply bind_Ok in Hrun as (label_index & Hli%index_Ok & Hrun).
  apply iterations_write in Hrun as [Hdone Hframe]. split; [|done].
  by exists label_index.
Qed.

Lemma object_loops_write (v : val_data) (label_set : list Z)
    (max_iters total _index m : nat) (L L' : locals) :
  for_each (object_loop v label_set max_iters total _index) (seq 1 m) L = Ok L' →
  (∀ o, (o < m)%nat →
     ∃ label_index, label_set !! S o = Some label_index ∧
       ∀ k, (k < max_iters)%nat →
         holds_volume_dice (metric L') v label_index (_index - 1) o k) ∧
  ∀ a b c, a ≠ (_index - 1)%nat → get3 (metric L') a b c = get3 (metric L) a b c.
Proof.
  revert L'. induction m as [|m IH]; intros L'.
  - intros [= <-]. split; [intros; lia|done].
  - rewrite seq_S, for_each_app. intros Hrun.
    apply bind_Ok in Hrun as (L1 & Hloop & Hrun). simpl in Hrun.
    apply bind_Ok in Hrun as (L2 & Hstep & [= <-]).
    destruct (IH _ Hloop) as [Hdone Hframe].
    apply object_loop_writes in Hstep as [(li & Hli & Hnew) Hold].
    replace (S m - 1)%nat with m in * by lia. split.
    + intros o Ho. destruct (decide (o = m)) as [->|Hne]; [by exists li|].
      destruct (Hdone o ltac:(lia)) as (li' & Hli' & Hk).
      exists li'. split; [done|]. intros k Hk'.
      destruct (Hk k Hk') as [pred Hpred]. exists pred.
      rewrite Hold by (right; done). done.
    + intros a b c Ha. rewrite Hold by (left; done). by apply Hframe.
Qed.

Lemma volume_loops_write (label_set : list Z) (max_iters total : nat)
    (val_loader : list val_data) (L L' : locals) :
  for_each (volume_loop label_set max_iters total)
    (zip (seq 1 (length val_loader)) val_loader) L = Ok L' →
  ∀ a vol, val_loader !! a = Some vol →
    ∀ o, (o < length label_set - 1)%nat →
      ∃ label_index, label_set !! S o = Some label_index ∧
        ∀ k, (k < max_iters)%nat → holds_volume_dice (metric L') vol label_index a o k.
Proof.
  revert L'. induction val_loader as [|v val_loader IH] using rev_ind; intros L'.
  - intros _ a vol Hvol. done.
  - rewrite length_app. simpl. rewrite Nat.add_1_r, seq_S, zip_with_app; cycle 1.
    { by rewrite length_seq. }
    rewrite for_each_app. intros Hrun.
    apply bind_Ok in Hrun as (L1 & Hloop & Hrun). simpl in Hrun.
    apply bind_Ok in Hrun as (L2 & Hstep & [= <-]).
    apply volume_loop_Ok in Hstep as [_ Hstep].
    apply object_loops_write in Hstep as [Hnew Hold].
    simpl in Hold. replace (S (length val_loader) - 1)%nat with (length val_loader) in * by lia.
    intros a vol Hvol o Ho.
    destruct (decide (a = length val_loader)) as [->|Hne].
    + rewrite lookup_app_r, Nat.sub_diag in Hvol by done. injection Hvol as <-.
      by apply Hnew.
    + assert (val_loader !! a = Some vol) as Hvol'.
      { apply lookup_lt_Some in Hvol as Hlt. rewrite length_app in Hlt. simpl in Hlt.
        rewrite lookup_app_l in Hvol by lia. done. }
      destruct (IH _ Hloop a vol Hvol' o Ho) as (li & Hli & Hk).
      exists li. split; [done|]. intros k Hk'. destruct (Hk k Hk') as [pred Hpred].
      exists pred. rewrite Hold by lia. exact Hpred.
Qed.

End evaluation_facts.

(** X10.  When the evaluation of a shard completes, every entry
    [metric[a, o, k]] with [a] a volume of the shard, [o] an object and [k]
    an iteration holds the volume Dice that [compute_dice] returned for the
    label [label_set[o + 1]] of volume [a]: no row, object or iteration is
    left out or stored under another index. *)
Theorem evaluation_fills_every_entry `{Monai} `{Scipy} `{Predictor}
    (label_set : list Z) (max_iters obj_num : nat) (val_loader : list val_data)
    (L : locals) (a o k : nat) (vol : val_data) :
  evaluate label_set max_iters obj_num val_loader = Ok L →
  val_loader !! a = Some vol →
  (o < length label_set - 1)%nat →
  (k < max_iters)%nat →
  ∃ label_index,
    label_set !! S o = Some label_index ∧
    holds_volume_dice (metric L) vol label_index a o k.
Proof.
  unfold evaluate. intros Hrun Hvol Ho Hk.
  destruct (volume_loops_write _ _ _ _ _ _ Hrun a vol Hvol o Ho) as (li & Hli & Hdone).
  exists li. split; [done|]. by apply Hdone.
Qed.

(** X11.  A completed evaluation has logged exactly one validation line
    for every volume of the shard, object and iteration. *)
Theorem evaluation_logs_one_line_per_entry `{Monai} `{Scipy} `{Predictor}
    (label_set : list Z) (max_iters obj_num : nat) (val_loader : list val_data)
    (L : locals) :
  evaluate label_set max_iters obj_num val_loader = Ok L →
  length (log_string L)
  = (length val_loader * ((length label_set - 1) * max_iters))%nat.
Proof.
  unfold evaluate. intros Hrun.
  apply (for_each_count (fun L => length (log_string L))
           ((length label_set - 1) * max_iters)%nat) in Hrun.
  - rewrite Hrun, length_zip, length_seq. simpl. lia.
  - intros [_index v] L1 L2 Hvol. apply volume_loop_Ok in Hvol as [_ Hvol].
    apply (for_each_count (fun L => length (log_string L)) max_iters) in Hvol.
    + rewrite Hvol, length_seq. simpl. lia.
    + intros i L3 L4 Hobj. unfold object_loop in Hobj.
      apply bind_Ok in Hobj as (s & _ & Hobj).
      apply bind_Ok in Hobj as (li & _ & Hobj).
      apply (for_each_count (fun L => length (log_string L)) 1) in Hobj.
      * rewrite Hobj, length_seq. simpl. lia.
      * intros idx L5 L6 Hiter. apply iteration_writes in Hiter as [-> _]. lia.
Qed.

Lemma evaluation_fills_every_entry_witness :
  ∃ L,
    evaluate (H := Reference.monai) (H0 := Reference.scipy) (H1 := Demo.predictor)
      [0; 1] 2 1 [Demo.volume] = Ok L ∧
    ∃ label_index,
      [0; 1] !! 1%nat = Some label_index ∧
      holds_volume_dice (H := Reference.monai) (metric L) Demo.volume label_index 0 0 1.
Proof.
  match eval vm_compute in
    (evaluate (H := Reference.monai) (H0 := Reference.scipy) (H1 := Demo.predictor)
       [0; 1] 2 1 [Demo.volume]) with
  | Ok ?L =>
      exists L; split; [vm_compute; reflexivity|];
      apply (evaluation_fills_every_entry
               (H := Reference.monai) (H0 := Reference.scipy) (H1 := Demo.predictor)
               [0; 1] 2 1 [Demo.volume] L 0 0 1 Demo.volume);
      [vm_compute; reflexivity | reflexivity | simpl; lia | lia]
  end.
Defined.

Lemma evaluation_logs_one_line_per_entry_witness :
  ∃ L,
    evaluate (H := Reference.monai) (H0 := Reference.scipy) (H1 := Demo.predictor)
      [0; 1] 2 1 [Demo.volume] = Ok L ∧
    length (log_string L) = (1 * ((2 - 1) * 2))%nat.
Proof.
  match eval vm_compute in
    (evaluate (H := Reference.monai) (H0 := Reference.scipy) (H1 := Demo.predictor)
       [0; 1] 2 1 [Demo.volume]) with
  | Ok ?L =>
      exists L; split; [vm_compute; reflexivity|];
      apply (evaluation_logs_one_line_per_entry
               (H := Reference.monai) (H0 := Reference.scipy) (H1 := Demo.predictor)
               [0; 1] 2 1 [Demo.volume] L);
      vm_compute; reflexivity
  end.
Defined.

(** ** Frames on disk *)

Lemma list_ascii_of_string_append (a b : string) :
  String.list_ascii_of_string (String.append a b)
  = String.list_ascii_of_string a ++ String.list_ascii_of_string b.
Proof.
  induction a as [|c a IH]; [done|].
  change (String.append (String c a) b) with (String c (String.append a b)).
  cbn [String.list_ascii_of_string app]. by rewrite IH.
Qed.

Lemma string_append_inj_l (a b s : string) :
  String.append a s = String.append b s → a = b.
Proof.
  intros Heq. apply (f_equal String.list_ascii_of_string) in Heq.
  rewrite !list_ascii_of_string_append in Heq. apply app_inv_tail in Heq.
  apply (f_equal String.string_of_list_ascii) in Heq.
  by rewrite !String.string_of_list_ascii_of_string in Heq.
Qed.

Lemma string_append_inj_r (s a b : string) :
  String.append s a = String.append s b → a = b.
Proof.
  induction s as [|c s IH]; [done|].
  change (String.append (String c s) a) with (String c (String.append s a)).
  change (String.append (String c s) b) with (String c (String.append s b)).
  intros [= Heq]. by apply IH.
Qed.

Lemma string_append_fixed (s a : string) : String.append s a = s → a = "".
Proof.
  intros Heq. apply (f_equal String.list_ascii_of_string) in Heq.
  rewrite list_ascii_of_string_append in Heq.
  apply (f_equal length) in Heq. rewrite length_app in Heq.
  destruct a; [done|]. simpl in Heq. lia.
Qed.

Lemma of_uint_pad_zeros (k : nat) (d : Decimal.uint) :
  Nat.of_uint (pad_zeros k d) = Nat.of_uint d.
Proof. induction k as [|k IH]; [done|]. simpl. exact IH. Qed.

(** The zero-padded decimal text of a number determines the number. *)
Lemma format_04d_inj (n m : nat) : format_04d n = format_04d m → n = m.
Proof.
  unfold format_04d. intros Heq.
  apply (f_equal DecimalString.NilEmpty.uint_of_string) in Heq.
  rewrite !DecimalString.NilEmpty.usu in Heq. injection Heq as Heq.
  apply (f_equal Nat.of_uint) in Heq.
  by rewrite !of_uint_pad_zeros, !DecimalNat.Unsigned.of_to in Heq.
Qed.

Lemma path_join_inj (folder a b : string) : path_join folder a = path_join folder b → a = b.
Proof.
  unfold path_join. destruct (_ || _); intros Heq.
  - by eapply string_append_inj_r.
  - apply string_append_inj_r in Heq. by eapply string_append_inj_r.
Qed.

Lemma path_join_not_folder (folder a : string) : a ≠ "" → path_join folder a ≠ folder.
Proof.
  unfold path_join. destruct (_ || _); intros Ha Heq.
  - by apply string_append_fixed in Heq.
  - by apply string_append_fixed in Heq.
Qed.

Lemma save_name_inj (folder : string) (i j : nat) :
  save_name folder i = save_name folder j → i = j.
Proof.
  unfold save_name. intros Heq%path_join_inj%string_append_inj_l%format_04d_inj. lia.
Qed.

Lemma save_name_not_folder (folder : string) (i : nat) : save_name folder i ≠ folder.
Proof.
  unfold save_name. apply path_join_not_folder. intros Heq.
  apply (f_equal String.list_ascii_of_string) in Heq.
  rewrite list_ascii_of_string_append in Heq.
  apply (f_equal length) in Heq. rewrite length_app in Heq. simpl in Heq. lia.
Qed.

Section frames_on_disk_facts.
Context `{Imaging}.

Lemma path_exists_true (fs : filesystem) (path : string) :
  path_exists fs path = true ↔ path ∈ directories fs ∨ is_Some (files fs !! path).
Proof.
  unfold path_exists. rewrite orb_true_iff, !bool_decide_eq_true. done.
Qed.

Lemma save_frame_Ok (data : list (list (list Z))) (folder : string) (i : nat)
    (fs fs' : filesystem) :
  save_frame data folder i fs = Ok fs' →
  directories fs' = directories fs ∧
  (path_exists fs (save_name folder i) = true ∧ fs' = fs ∨
   path_exists fs (save_name folder i) = false ∧
   ∃ frame, select_last3 data i = Ok frame ∧
     files fs' = <[save_name folder i := encode_jpeg frame]> (files fs)).
Proof.
  unfold save_frame. destruct (path_exists fs (save_name folder i)) eqn:Hexists.
  - intros [= <-]. split; [done|]. by left.
  - intros Hrun. apply bind_Ok in Hrun as (frame & Hframe & [= <-]).
    split; [done|]. right. split; [done|]. by exists frame.
Qed.

(** The loop of lines 48-57 over the first [n] slices. *)
Lemma save_frames_Ok (data : list (list (list Z))) (folder : string) (n : nat)
    (fs fs' : filesystem) :
  for_each (save_frame data folder) (seq 0 n) fs = Ok fs' →
  directories fs' = directories fs ∧
  (∀ path c, files fs !! path = Some c → files fs' !! path = Some c) ∧
  (∀ path, (∀ i, (i < n)%nat → path ≠ save_name folder i) →
     files fs' !! path = files fs !! path) ∧
  (∀ i, (i < n)%nat → path_exists fs' (save_name folder i) = true) ∧
  (∀ i, (i < n)%nat → path_exists fs (save_name folder i) = false →
     ∃ frame, select_last3 data i = Ok frame ∧
       files fs' !! save_name folder i = Some (encode_jpeg frame)).
Proof.
  revert fs'. induction n as [|n IH]; intros fs'.
  - intros [= <-]. repeat split; try done; intros; lia.
  - rewrite seq_S, for_each_app. intros Hrun.
    apply bind_Ok in Hrun as (fs1 & Hloop & Hrun). simpl in Hrun.
    apply bind_Ok in Hrun as (fs2 & Hstep & [= <-]).
    destruct (IH _ Hloop) as (Hdirs & Hkept & Hother & Hthere & Hfresh).
    apply save_frame_Ok in Hstep as [Hdirs' Hstep].
    assert (∀ path c, files fs1 !! path = Some c → files fs2 !! path = Some c) as Hkept'.
    { intros path c Hc. destruct Hstep as [[_ ->]|(Hno & frame & _ & ->)]; [done|].
      rewrite lookup_insert_ne; [done|]. intros <-.
      apply not_true_iff_false in Hno. apply Hno, path_exists_true. right. by eexists. }
    split; [congruence|]. split; [by auto|]. split; [|split].
    + intros path Hpath. rewrite <- Hother by (intros i Hi; apply Hpath; lia).
      destruct Hstep as [[_ ->]|(_ & frame & _ & ->)]; [done|].
      apply lookup_insert_ne. intros Heq. by apply (Hpath n ltac:(lia)).
    + intros i Hi. destruct (decide (i = n)) as [->|Hne].
      * destruct Hstep as [[Hyes ->]|(_ & frame & _ & Hfiles)]; [done|].
        apply path_exists_true. right. rewrite Hfiles, lookup_insert_eq. by eexists.
      * specialize (Hthere i ltac:(lia)). apply path_exists_true in Hthere.
        apply path_exists_true. destruct Hthere as [Hdir|[c Hc]].
        -- left. congruence.
        -- right. exists c. by apply Hkept'.
    + intros i Hi Hno. destruct (decide (i = n)) as [->|Hne].
      * assert (path_exists fs1 (save_name folder n) = false) as Hno1.
        { apply not_true_iff_false. intros Hyes%path_exists_true.
          apply not_true_iff_false in Hno. apply Hno, path_exists_true.
          rewrite Hdirs, Hother in Hyes; [done|].
          intros j Hj Heq%save_name_inj. lia. }
        destruct Hstep as [[Hyes _]|(_ & frame & Hframe & Hfiles)]; [congruence|].
        exists frame. split; [done|]. by rewrite Hfiles, lookup_insert_eq.
      * destruct (Hfresh i ltac:(lia) Hno) as (frame & Hframe & Hfile).
        exists frame. split; [done|]. by apply Hkept'.
Qed.

(** A call that returns was given a folder name and a volume that
    squeezes to three axes, and has run the loop over all its frames. *)
Lemma save_nifti_frames_to_jpg_Ok (data : list (list (list Z))) (folder out : string)
    (fs fs' : filesystem) :
  save_nifti_frames_to_jpg data folder fs = Ok (fs', out) →
  folder ≠ "" ∧ unit_axis data = false ∧ out = folder ∧
  for_each (save_frame data folder) (seq 0 (depth data))
    (if path_exists fs folder then fs
     else {| directories := {[folder]} ∪ directories fs; files := files fs |}) = Ok fs'.
Proof.
  unfold save_nifti_frames_to_jpg, squeezed_depth.
  case_bool_decide as Hfolder; [done|].
  destruct (unit_axis data); [done|]. cbn [mbind result_bind].
  intros Hrun. apply bind_Ok in Hrun as (fs1 & Hloop & [= <- <-]). done.
Qed.

End frames_on_disk_facts.

(** X12.  A call of [save_nifti_frames_to_jpg] that returns gives back
    the folder, leaves the content of every file that existed as it was,
    changes no path other than the frame files [save_name folder i] of the
    slices, and gives every frame file that did not exist the encoding of
    its own slice [data[:, :, i]].  It returns only for a folder with a name
    and a volume that squeezes to three axes. *)
Theorem frames_are_written_once `{Imaging} (data : list (list (list Z)))
    (folder out : string) (fs fs' : filesystem) :
  save_nifti_frames_to_jpg data folder fs = Ok (fs', out) →
  out = folder ∧
  (∀ path c, files fs !! path = Some c → files fs' !! path = Some c) ∧
  (∀ path, (∀ i, (i < depth data)%nat → path ≠ save_name folder i) →
     files fs' !! path = files fs !! path) ∧
  (∀ i, (i < depth data)%nat → path_exists fs (save_name folder i) = false →
     ∃ frame, select_last3 data i = Ok frame ∧
       files fs' !! save_name folder i = Some (encode_jpeg frame)) ∧
  folder ≠ "" ∧ unit_axis data = false.
Proof.
  intros (Hnamed & Hsqueeze & -> & Hloop)%save_nifti_frames_to_jpg_Ok.
  apply save_frames_Ok in Hloop as (Hdirs & Hkept & Hother & _ & Hfresh).
  split; [done|]. split; [|split; [|split; [|done]]].
  - intros path c Hc. apply Hkept. by destruct (path_exists fs folder).
  - intros path Hpath. rewrite Hother by done. by destruct (path_exists fs folder).
  - intros i Hi Hno. apply Hfresh; [done|].
    destruct (path_exists fs folder) eqn:Hfolder; [done|].
    apply not_true_iff_false. intros Hyes%path_exists_true. simpl in Hyes.
    apply not_true_iff_false in Hno. apply Hno, path_exists_true.
    destruct Hyes as [Hdir|Hfile]; [|by right].
    apply elem_of_union in Hdir as [Hdir%elem_of_singleton|Hdir]; [|by left].
    by apply save_name_not_folder in Hdir.
Qed.

(** X13.  Frames on disk are reused, never refreshed: after a call that
    returned, a second call for the same folder, with the same or any other
    volume of no more frames, leaves the file system exactly as it is; it
    returns the folder, or raises [IndexError] when its volume squeezes to
    fewer than three axes. *)
Theorem frames_on_disk_are_reused `{Imaging} (data data' : list (list (list Z)))
    (folder out : string) (fs fs' : filesystem) :
  save_nifti_frames_to_jpg data folder fs = Ok (fs', out) →
  (depth data' ≤ depth data)%nat →
  save_nifti_frames_to_jpg data' folder fs'
  = if unit_axis data' then Raise IndexError else Ok (fs', folder).
Proof.
  intros (Hnamed & Hsqueeze & -> & Hloop)%save_nifti_frames_to_jpg_Ok Hdepth.
  unfold save_nifti_frames_to_jpg, squeezed_depth.
  rewrite bool_decide_false by done.
  destruct (unit_axis data'); [done|]. cbn [mbind result_bind].
  rename fs' into fs1.
  apply save_frames_Ok in Hloop as (Hdirs & Hkept & _ & Hthere & _).
  assert (path_exists fs1 folder = true) as ->.
  { apply path_exists_true. rewrite Hdirs.
    destruct (path_exists fs folder) eqn:Hfolder.
    - apply path_exists_true in Hfolder as [?|[c Hc]]; [by left|].
      right. exists c. by apply Hkept.
    - left. simpl. apply elem_of_union_l. by apply elem_of_singleton. }
  assert (∀ n, (n ≤ depth data)%nat →
    for_each (save_frame data' folder) (seq 0 n) fs1 = Ok fs1) as Hnothing.
  { induction n as [|n IH]; intros Hn; [done|].
    rewrite seq_S, for_each_app, IH by lia. simpl.
    unfold save_frame. by rewrite Hthere by lia. }
  by rewrite Hnothing.
Qed.

Lemma frames_are_written_once_witness :
  save_nifti_frames_to_jpg Disk.first "out" Disk.empty = Ok (Disk.written, "out") ∧
  "out" = "out" ∧
  (∀ path c, files Disk.empty !! path = Some c → files Disk.written !! path = Some c) ∧
  (∀ path, (∀ i, (i < depth Disk.first)%nat → path ≠ save_name "out" i) →
     files Disk.written !! path = files Disk.empty !! path) ∧
  (∀ i, (i < depth Disk.first)%nat → path_exists Disk.empty (save_name "out" i) = false →
     ∃ frame, select_last3 Disk.first i = Ok frame ∧
       files Disk.written !! save_name "out" i = Some (encode_jpeg frame)) ∧
  "out" ≠ "" ∧ unit_axis Disk.first = false.
Proof.
  assert (save_nifti_frames_to_jpg Disk.first "out" Disk.empty = Ok (Disk.written, "out"))
    as Hrun by (vm_compute; reflexivity).
  split; [exact Hrun|].
  exact (frames_are_written_once Disk.first "out" "out" Disk.empty Disk.written Hrun).
Defined.

(** The frames of [Disk.second] are not written over those of [Disk.first]. *)
Lemma frames_on_disk_are_reused_witness :
  save_nifti_frames_to_jpg Disk.second "out" Disk.written = Ok (Disk.written, "out").
Proof.
  apply (frames_on_disk_are_reused Disk.first Disk.second "out" "out" Disk.empty).
  - vm_compute. reflexivity.
  - vm_compute. lia.
Defined.

(** ** Where a volume ends up in the gathered metric *)

Section gathered_rows.
Context `{Monai} `{Scipy} `{Predictor}.

Lemma workers_of_a_run (label_set : list Z) (max_iters : nat)
    (shards : list (list val_data)) (workers : list locals) (M : nat) :
  evaluate_all true label_set max_iters shards = Ok workers →
  max_list (length <$> shards) = Ok M →
  length workers = length shards ∧
  Forall (fun L => length (metric L) = M ∧
            shape3 (metric L) = replicate M (replicate (length label_set - 1)%nat max_iters))
    workers ∧
  ∀ rank shard, shards !! rank = Some shard →
    ∃ L, workers !! rank = Some L ∧ evaluate label_set max_iters M shard = Ok L.
Proof.
  intros Hall HM. apply evaluate_all_workers in Hall as [Hlen Hall].
  assert (∀ rank L, workers !! rank = Some L →
    ∃ shard, shards !! rank = Some shard ∧ evaluate label_set max_iters M shard = Ok L)
    as Hworker.
  { intros rank L HL. destruct (Hall _ _ HL) as (obj_num & shard & Hobj & Hshard & Hrun).
    exists shard. split; [done|].
    unfold obj_num_of, index in Hobj. rewrite Hshard in Hobj. simpl in Hobj.
    unfold all_gather in Hobj. rewrite HM in Hobj. by injection Hobj as <-. }
  split; [done|]. split.
  - apply Forall_forall. intros L [rank HL]%list_elem_of_lookup.
    destruct (Hworker _ _ HL) as (shard & _ & Hrun).
    apply evaluate_frame in Hrun as (_ & Hshape & _).
    rewrite shape3_new_metric in Hshape. split; [|done].
    apply (f_equal length) in Hshape. unfold shape3 in Hshape.
    by rewrite length_fmap, length_replicate in Hshape.
  - intros rank shard Hshard.
    destruct (lookup_lt_is_Some_2 workers rank) as [L HL].
    { rewrite Hlen. by eapply lookup_lt_Some. }
    exists L. split; [done|]. destruct (Hworker _ _ HL) as (shard' & Hshard' & Hrun).
    congruence.
Qed.

End gathered_rows.

(** X14.  With several GPUs, when every worker completes and [M] is the
    largest shard size: the metric rank 0 gathers has [M] rows per worker,
    and the scores of volume [a] of the shard of rank [r] are in its row
    [r * M + a], whatever the sizes of the other shards. *)
Theorem gathered_rows_follow_the_ranks `{Monai} `{Scipy} `{Predictor}
    (label_set : list Z) (max_iters : nat) (shards : list (list val_data))
    (workers : list locals) (M rank a o k : nat) (shard : list val_data) (vol : val_data) :
  evaluate_all true label_set max_iters shards = Ok workers →
  max_list (length <$> shards) = Ok M →
  shards !! rank = Some shard →
  shard !! a = Some vol →
  (o < length label_set - 1)%nat →
  (k < max_iters)%nat →
  ∃ G label_index,
    gathered_metric true workers = Ok G ∧
    length G = (length shards * M)%nat ∧
    label_set !! S o = Some label_index ∧
    holds_volume_dice G vol label_index (rank * M + a) o k.
Proof.
  intros Hall HM Hshard Hvol Ho Hk.
  destruct (workers_of_a_run _ _ _ _ _ Hall HM) as (Hlen & Hshapes & Hworker).
  destruct (Hworker _ _ Hshard) as (L & HL & Hrun).
  assert (all_gather_tensors (metric <$> workers) = Ok (metric <$> workers)) as Hgather.
  { unfold all_gather_tensors. destruct workers as [|L0 workers']; [done|].
    rewrite fmap_cons. rewrite bool_decide_true; [done|].
    apply Forall_cons in Hshapes as [[_ Hfirst] Hrest].
    rewrite Forall_fmap. eapply Forall_impl; [exact Hrest|].
    intros L' [_ HL']. simpl. congruence. }
  assert (Forall (fun m : list (list (list f32)) => length m = M) (metric <$> workers))
    as Hlens.
  { rewrite Forall_fmap. eapply Forall_impl; [exact Hshapes|]. by intros L' [? _]. }
  exists (vstack (metric <$> workers)).
  unfold evaluate in Hrun.
  destruct (volume_loops_write _ _ _ _ _ _ Hrun a vol Hvol o Ho) as (li & Hli & Hdone).
  exists li. split; [unfold gathered_metric; by rewrite Hgather|]. split; [|split; [done|]].
  - unfold vstack. rewrite length_join, (sum_list_fmap_same M) by done.
    rewrite length_fmap. lia.
  - destruct (Hdone k Hk) as [pred Hpred]. exists pred.
    unfold get3 in Hpred |- *.
    destruct (metric L !! a) as [plane|] eqn:Hplane; [|done].
    assert (vstack (metric <$> workers) !! (rank * M + a)%nat = Some plane) as ->; [|done].
    unfold vstack. apply (join_lookup_Some_same_length' M); [done| |].
    + apply lookup_lt_Some in Hplane.
      rewrite Forall_forall in Hshapes.
      destruct (Hshapes L (list_elem_of_lookup_2 _ _ _ HL)) as [HM' _]. lia.
    + exists (metric L). split; [|done]. by rewrite list_lookup_fmap, HL.
Qed.

Lemma gathered_rows_follow_the_ranks_witness :
  ∃ workers,
    evaluate_all (H := Reference.monai) (H0 := Reference.scipy) (H1 := Demo.predictor)
      true [0; 1] 1 Demo.shards = Ok workers ∧
    ∃ G label_index,
      gathered_metric true workers = Ok G ∧
      length G = (length Demo.shards * 2)%nat ∧
      [0; 1] !! 1%nat = Some label_index ∧
      holds_volume_dice (H := Reference.monai) G Demo.third label_index (1 * 2 + 0) 0 0.
Proof.
  match eval vm_compute in
    (evaluate_all (H := Reference.monai) (H0 := Reference.scipy) (H1 := Demo.predictor)
       true [0; 1] 1 Demo.shards) with
  | Ok ?w =>
      exists w; split; [vm_compute; reflexivity|];
      apply (gathered_rows_follow_the_ranks
               (H := Reference.monai) (H0 := Reference.scipy) (H1 := Demo.predictor)
               [0; 1] 1 Demo.shards w 2 1 0 0 0 [Demo.third] Demo.third);
      [vm_compute; reflexivity | reflexivity | reflexivity | reflexivity
      | simpl; lia | lia]
  end.
Defined.

(** ** The order of the validation lines *)

Section log_order.
Context `{Formatting}.

Lemma insert_line_Permutation (x : log_line) (l : list log_line) :
  insert_line x l ≡ₚ x :: l.
Proof.
  induction l as [|y l IH]; [done|]. simpl.
  destruct (String.ltb _ _); [|done]. rewrite IH. apply Permutation_swap.
Qed.

Lemma sorted_lines_Permutation (l : list log_line) : sorted_lines l ≡ₚ l.
Proof.
  induction l as [|x l IH]; [done|]. simpl.
  rewrite insert_line_Permutation. by f_equiv.
Qed.

Lemma ltb_text_le (a b : log_line) :
  String.ltb (line_text a) (line_text b) = true → text_le a b.
Proof.
  unfold text_le, String.ltb, String.leb. by destruct (String.compare _ _).
Qed.

Lemma not_ltb_text_le (a b : log_line) :
  String.ltb (line_text a) (line_text b) = false → text_le b a.
Proof.
  unfold text_le, String.ltb, String.leb.
  rewrite (String.compare_antisym (line_text b)). by destruct (String.compare _ _).
Qed.

Lemma insert_line_Sorted (x : log_line) (l : list log_line) :
  Sorted text_le l → Sorted text_le (insert_line x l).
Proof.
  induction 1 as [|y l Hl IH Hy]; simpl; [by repeat constructor|].
  destruct (String.ltb (line_text y) (line_text x)) eqn:Hyx.
  - constructor; [done|]. destruct Hy as [|z l Hz]; simpl.
    + constructor. by apply ltb_text_le.
    + destruct (String.ltb (line_text z) (line_text x)); constructor;
        [done|by apply ltb_text_le].
  - constructor; [by constructor|]. constructor. by apply not_ltb_text_le.
Qed.

Lemma sorted_lines_Sorted (l : list log_line) : Sorted text_le (sorted_lines l).
Proof.
  induction l as [|x l IH]; simpl; [constructor|]. by apply insert_line_Sorted.
Qed.

End log_order.

(** X15.  When the evaluation of every worker completes, what rank 0 has
    logged when the run ends are the validation lines of its own shard, each
    of them once, in ascending order of their text and not in the order in
    which the iterations appended them. *)
Theorem validation_lines_are_logged_in_text_order `{Monai} `{Scipy} `{Predictor}
    `{Formatting} (multi : bool) (label_set : list Z) (max_iters : nat)
    (shards : list (list val_data)) (workers : list locals) (L : locals) :
  evaluate_all multi label_set max_iters shards = Ok workers →
  workers !! 0%nat = Some L →
  logged (run multi label_set max_iters shards) ≡ₚ log_string L ∧
  Sorted text_le (logged (run multi label_set max_iters shards)).
Proof.
  intros Hall HL.
  assert (logged (run multi label_set max_iters shards) = sorted_lines (log_string L)) as ->.
  { assert (point_num L = None) as Hunbound.
    { apply evaluate_all_workers in Hall as [_ Hall].
      destruct (Hall _ _ HL) as (obj_num & shard & _ & _ & Hrun).
      by apply evaluate_frame in Hrun as [? _]. }
    unfold run. rewrite Hall. unfold index. rewrite HL, Hunbound.
    destruct (gathered_metric multi workers) as [G|e]; simpl; [|done].
    by rewrite final_block_unbound. }
  split; [apply sorted_lines_Permutation|apply sorted_lines_Sorted].
Qed.

(** Two objects and two iterations on [Demo.volume]: the lines of
    iteration 0 of both objects come before those of iteration 1. *)
Lemma validation_lines_are_logged_in_text_order_witness :
  ∃ L,
    evaluate_all (H := Reference.monai) (H0 := Reference.scipy) (H1 := Demo.predictor)
      false [0; 1; 1] 2 [[Demo.volume]] = Ok [L] ∧
    (fun line => match line with ValidationDice idx _ _ _ _ => Some idx | _ => None end)
      <$> log_string L = [Some 0; Some 1; Some 0; Some 1]%nat ∧
    (fun line => match line with ValidationDice idx _ _ _ _ => Some idx | _ => None end)
      <$> logged (run (H := Reference.monai) (H0 := Reference.scipy) (H1 := Demo.predictor)
                    (H2 := Reference.formatting) false [0; 1; 1] 2 [[Demo.volume]])
    = [Some 0; Some 0; Some 1; Some 1]%nat ∧
    logged (run (H := Reference.monai) (H0 := Reference.scipy) (H1 := Demo.predictor)
              (H2 := Reference.formatting) false [0; 1; 1] 2 [[Demo.volume]])
    ≡ₚ log_string L ∧
    Sorted (text_le (H := Reference.formatting))
      (logged (run (H := Reference.monai) (H0 := Reference.scipy) (H1 := Demo.predictor)
                 (H2 := Reference.formatting) false [0; 1; 1] 2 [[Demo.volume]])).
Proof.
  match eval vm_compute in
    (evaluate_all (H := Reference.monai) (H0 := Reference.scipy) (H1 := Demo.predictor)
       false [0; 1; 1] 2 [[Demo.volume]]) with
  | Ok [?L] =>
      exists L; split; [vm_compute; reflexivity|];
      split; [vm_compute; reflexivity|];
      split; [vm_compute; reflexivity|];
      apply (validation_lines_are_logged_in_text_order
               (H := Reference.monai) (H0 := Reference.scipy) (H1 := Demo.predictor)
               (H2 := Reference.formatting) false [0; 1; 1] 2 [[Demo.volume]] [L] L);
      [vm_compute; reflexivity | reflexivity]
  end.
Defined.

(** ** Volumes with an axis of size 1 *)

Lemma for_each_Ok_each {A S} (body : A → S → result S) (l : list A) (s s' : S) :
  for_each body l s = Ok s' → ∀ x, x ∈ l → ∃ s1 s2, body x s1 = Ok s2.
Proof.
  revert s. induction l as [|y l IH]; intros s Hrun x Hx; [by apply elem_of_nil in Hx|].
  simpl in Hrun. apply bind_Ok in Hrun as (s1 & Hy & Hrun).
  apply elem_of_cons in Hx as [->|Hx]; [by exists s, s1|]. by eapply IH.
Qed.

(** X16.  The evaluation of a shard runs to its end only when no volume
    of the shard has an axis of size 1 among [H, W, D]: the squeeze of line
    43 takes such an axis away, and line 48 raises [IndexError] on what is
    left, before the first object of the volume is looked at. *)
Theorem evaluation_needs_three_axes `{Monai} `{Scipy} `{Predictor}
    (label_set : list Z) (max_iters obj_num : nat) (val_loader : list val_data)
    (L : locals) :
  evaluate label_set max_iters obj_num val_loader = Ok L →
  Forall (fun v => unit_axis (image v) = false) val_loader ∧
  ∀ v total _index L0, unit_axis (image v) = true →
    volume_loop label_set max_iters total (_index, v) L0 = Raise IndexError.
Proof.
  intros Hrun. split.
  - apply Forall_forall. intros v [a Hv]%list_elem_of_lookup.
    unfold evaluate in Hrun.
    destruct (for_each_Ok_each _ _ _ _ Hrun (S a, v)) as (L1 & L2 & Hvol).
    { apply list_elem_of_lookup. exists a. apply lookup_zip_with_Some.
      exists (S a), v. split; [done|]. split; [|done].
      apply lookup_seq. split; [done|]. by eapply lookup_lt_Some. }
    by apply volume_loop_Ok in Hvol as [? _].
  - intros v total _index L0 Hunit. unfold volume_loop, squeezed_depth. by rewrite Hunit.
Qed.

Lemma evaluation_needs_three_axes_witness :
  ∃ L,
    evaluate (H := Reference.monai) (H0 := Reference.scipy) (H1 := Demo.predictor)
      [0; 1] 1 1 [Demo.volume] = Ok L ∧
    Forall (fun v => unit_axis (image v) = false) [Demo.volume] ∧
    evaluate (H := Reference.monai) (H0 := Reference.scipy) (H1 := Demo.predictor)
      [0; 1] 1 1
      [{| filename := "flat/volume.nii"; image := [[[0; 0]; [0; 0]; [0; 0]]];
          val_label := [[[1; 0]; [1; 0]; [0; 1]]] |}]
    = Raise IndexError.
Proof.
  match eval vm_compute in
    (evaluate (H := Reference.monai) (H0 := Reference.scipy) (H1 := Demo.predictor)
       [0; 1] 1 1 [Demo.volume]) with
  | Ok ?L =>
      exists L; split; [vm_compute; reflexivity|];
      split;
      [exact (proj1 (evaluation_needs_three_axes
                (H := Reference.monai) (H0 := Reference.scipy) (H1 := Demo.predictor)
                [0; 1] 1 1 [Demo.volume] L ltac:(vm_compute; reflexivity)))
      | vm_compute; reflexivity]
  end.
Defined.
